(** * formatstring.py: the printf-style format engine of the rename program

    A shallow embedding of [formatstring.py] and of the Python built-ins it
    calls, followed by the properties of the engine.

    Conventions of the embedding.
    - A Python [str] is a [string]; one [ascii] stands for one code point
      below 256 (the Latin-1 range of [str]).
    - [len], indices and [source_index] are [nat]; the bounds of a slice
      are [Z], since they may be negative.
    - A computation that may log and may raise is a value of [M A]: the
      records handed to the logger so far, and either the exception that
      escaped or the value returned.
    - The file system, the clock formatting and the case tables of the
      interpreter are the fields of a [World]. A call on a file first
      refuses a path that holds a NUL.
    - [int] reads at most [int_max_str_digits] digits. *)

From Stdlib Require Import Bool Arith ZArith NArith List Ascii String Lia.
From Stdlib Require Import Decimal DecimalString.
From Stdlib Require DecimalPos DecimalN DecimalZ.
Import ListNotations.

Open Scope string_scope.
Open Scope list_scope.

Infix "+++" := String.append (right associativity, at level 60).

(** ** Exceptions *)

(** The message of a [FormatParseError], before [str.format] fills it in. *)
Inductive ParseMessage : Type :=
| ReachedEndOfString
| ReachedEndSearchingFor (char : ascii).

(** The message of a [FormatApplyError], with the arguments it is
    formatted with. *)
Inductive ApplyMessage : Type :=
| MissingSeparator (field_value : string) (separator : ascii)
| BeginNotNumeric (begin_str : string)
| EndNotNumeric (end_str : string)
| IndexNotNumeric (index_str field_value : string)
| MissingTimestampFormat.

(** What can escape the engine: its own two errors (both subclasses of
    [FormatError]) and the built-in exceptions of the calls it and the
    helpers of rename.py make. *)
Inductive PyExc : Type :=
| FormatParseError (format_string : string) (index : nat) (message : ParseMessage)
| FormatApplyError (file_path : string) (message : ApplyMessage)
| TypeError
| ValueError
| AttributeError
| OverflowError
| OSError.

(** [isinstance(e, FormatError)]: what [except formatstring.FormatError]
    in rename.py catches. *)
Definition is_FormatError (e : PyExc) : bool :=
  match e with
  | FormatParseError _ _ _ | FormatApplyError _ _ => true
  | _ => false
  end.

Definition is_FormatApplyError (e : PyExc) : bool :=
  match e with
  | FormatApplyError _ _ => true
  | _ => false
  end.

Definition is_FormatParseError (e : PyExc) : bool :=
  match e with
  | FormatParseError _ _ _ => true
  | _ => false
  end.

(** ** Logging *)

Inductive Level : Type := TRACE | DEBUG | INFO | WARNING | ERROR.

(** An argument of a logging call. *)
Inductive LogArg : Type :=
| LStr (s : string)
| LInt (z : Z)
| LNone
| LFields (field_value : option string) (source_string : string) (source_index : nat).

(** Modelled from the spec: the [log] module ([log.hotpatch],
    [log.DeferredLogger]) is not among the sources. A call
    [logger.<level>(msg, *args)] hands the logger one record of that
    level with the message template and its arguments, and returns. *)
Record LogRecord : Type := mkLog {
  levelname : Level;
  msg : string;
  args : list LogArg
}.

Definition of_option_str (o : option string) : LogArg :=
  match o with
  | Some s => LStr s
  | None => LNone
  end.

(** ** Computations that log and raise *)

Inductive Outcome (A : Type) : Type :=
| Raise (e : PyExc)
| Return (a : A).

Arguments Raise {A} e.
Arguments Return {A} a.

Definition M (A : Type) : Type := (list LogRecord * Outcome A)%type.

Definition ret {A : Type} (a : A) : M A := ([], Return a).

Definition raise {A : Type} (e : PyExc) : M A := ([], Raise e).

Definition bind {A B : Type} (m : M A) (k : A -> M B) : M B :=
  match m with
  | (l1, Raise e) => (l1, Raise e)
  | (l1, Return a) => let (l2, r) := k a in (l1 ++ l2, r)
  end.

Definition logger (lvl : Level) (template : string) (arguments : list LogArg) : M unit :=
  ([mkLog lvl template arguments], Return tt).

Definition logged {A : Type} (m : M A) : list LogRecord := fst m.

Definition outcome {A : Type} (m : M A) : Outcome A := snd m.

Notation "x <- m ;; k" := (bind m (fun x => k))
  (at level 61, m at next level, right associativity).
Notation "' pat <- m ;; k" := (bind m (fun x => match x with pat => k end))
  (at level 61, pat pattern, m at next level, right associativity).
Notation "m ;;; k" := (bind m (fun _ => k))
  (at level 61, right associativity).

(** ** Python built-ins on [str] *)

Definition str_of_char (c : ascii) : string := String c EmptyString.

(** [c in s] for a one-character [c]. *)
Fixpoint str_contains (c : ascii) (s : string) : bool :=
  match s with
  | EmptyString => false
  | String a r => Ascii.eqb a c || str_contains c r
  end.

(** [s.startswith(c)] for a one-character [c]. *)
Definition str_startswith (c : ascii) (s : string) : bool :=
  match s with
  | String a _ => Ascii.eqb a c
  | EmptyString => false
  end.

(** [s.endswith(c)] for a one-character [c]. *)
Fixpoint str_endswith (c : ascii) (s : string) : bool :=
  match s with
  | EmptyString => false
  | String a EmptyString => Ascii.eqb a c
  | String _ r => str_endswith c r
  end.

(** [s.split(c, 1)] for a one-character [c]: cut at the first [c]. *)
Fixpoint str_split1 (c : ascii) (s : string) : list string :=
  match s with
  | EmptyString => [EmptyString]
  | String a r =>
      if Ascii.eqb a c then [EmptyString; r]
      else match str_split1 c r with
           | x :: rest => String a x :: rest
           | [] => []
           end
  end.

(** The cut of [s.rsplit(c, 1)] at the last [c], when there is one. *)
Fixpoint str_rcut (c : ascii) (s : string) : option (string * string) :=
  match s with
  | EmptyString => None
  | String a r =>
      match str_rcut c r with
      | Some (x, y) => Some (String a x, y)
      | None => if Ascii.eqb a c then Some (EmptyString, r) else None
      end
  end.

(** [s.rsplit(c, 1)] for a one-character [c]. *)
Definition str_rsplit1 (c : ascii) (s : string) : list string :=
  match str_rcut c s with
  | Some (x, y) => [x; y]
  | None => [s]
  end.

(** The scan of [s.split(sep)] for a non-empty [sep]: [skip] counts the
    characters of a separator just matched that are still to be passed
    over, [cur] is the segment read so far. *)
Fixpoint str_split_scan (sep : string) (skip : nat) (cur : string) (s : string)
  : list string :=
  match s with
  | EmptyString => [cur]
  | String a r =>
      match skip with
      | S k => str_split_scan sep k cur r
      | O =>
          if prefix sep s
          then cur :: str_split_scan sep (String.length sep - 1) EmptyString r
          else str_split_scan sep 0 (cur +++ str_of_char a) r
      end
  end.

(** [s.split(sep)]: [ValueError] (empty separator) when [sep] is empty. *)
Definition str_split (sep : string) (s : string) : option (list string) :=
  match sep with
  | EmptyString => None
  | _ => Some (str_split_scan sep 0 EmptyString s)
  end.

(** [c.isdigit()] on a code point below 256: the decimal digits and the
    superscripts U+00B2, U+00B3 and U+00B9. *)
Definition char_isdecimal (c : ascii) : bool :=
  Nat.leb 48 (nat_of_ascii c) && Nat.leb (nat_of_ascii c) 57.

Definition char_isdigit (c : ascii) : bool :=
  char_isdecimal c
  || Nat.eqb (nat_of_ascii c) 178
  || Nat.eqb (nat_of_ascii c) 179
  || Nat.eqb (nat_of_ascii c) 185.

Fixpoint str_all (p : ascii -> bool) (s : string) : bool :=
  match s with
  | EmptyString => true
  | String a r => p a && str_all p r
  end.

(** [s.isdigit()]: at least one character, and every one a digit. *)
Definition str_isdigit (s : string) : bool :=
  match s with
  | EmptyString => false
  | _ => str_all char_isdigit s
  end.

(** The value of a run of decimal digits, read left to right. *)
Fixpoint digits_value (acc : N) (s : string) : N :=
  match s with
  | EmptyString => acc
  | String a r => digits_value (10 * acc + N.of_nat (nat_of_ascii a - 48)) r
  end.

(** [sys.get_int_max_str_digits()]: the most digits [int] reads from a
    string, as the interpreter has it unless it is configured
    otherwise. *)
Definition int_max_str_digits : nat := 4300.

(** [int(s)] on what its callers pass: an optional ["-"] and a run of
    [isdigit] characters. It is [ValueError] ([None]) unless the run is
    non-empty and all decimal, the superscript digits are not, and
    unless the run, leading zeros included, has at most
    [int_max_str_digits] digits. The other literals [int] accepts
    (blanks, ["+"], ["_"]) never get here. *)
Definition py_int (s : string) : option Z :=
  let body := if str_startswith "-" s then substring 1 (String.length s - 1) s else s in
  match body with
  | EmptyString => None
  | _ =>
      if str_all char_isdecimal body
      then if Nat.ltb int_max_str_digits (String.length body)
           then None
           else Some (if str_startswith "-" s
                      then (- Z.of_N (digits_value 0 body))%Z
                      else Z.of_N (digits_value 0 body))
      else None
  end.

(** The bound of [s[begin:end]] brought into [0 .. len(s)]: a negative
    bound counts from the end, and what is still out of range is
    clamped. *)
Definition slice_bound (len : nat) (i : Z) : nat :=
  if (i <? 0)%Z
  then Z.to_nat (Z.max 0 (i + Z.of_nat len))
  else Nat.min (Z.to_nat i) len.

(** [s[begin:end]]. *)
Definition py_slice (s : string) (begin_pos end_pos : Z) : string :=
  let lo := slice_bound (String.length s) begin_pos in
  let hi := slice_bound (String.length s) end_pos in
  substring lo (hi - lo) s.

(** [str(n)] for a non-negative integer. *)
Definition str_of_N (n : N) : string := NilZero.string_of_uint (N.to_uint n).

(** [str(z)] for an integer. *)
Definition str_of_Z (z : Z) : string := NilZero.string_of_int (Z.to_int z).

(** [len(s) * c]. *)
Fixpoint str_repeat (c : ascii) (n : nat) : string :=
  match n with
  | O => EmptyString
  | S k => String c (str_repeat c k)
  end.

(** [s.rstrip(c)] for a one-character [c]. *)
Fixpoint str_rstrip (c : ascii) (s : string) : string :=
  match s with
  | EmptyString => EmptyString
  | String a r =>
      match str_rstrip c r with
      | EmptyString => if Ascii.eqb a c then EmptyString else str_of_char a
      | r' => String a r'
      end
  end.

(** [s.rfind(c)] for a one-character [c]; [None] stands for [-1]. *)
Fixpoint str_rfind (c : ascii) (s : string) : option nat :=
  match s with
  | EmptyString => None
  | String a r =>
      match str_rfind c r with
      | Some i => Some (S i)
      | None => if Ascii.eqb a c then Some 0 else None
      end
  end.

(** ** os.path and os.extsep, as on a POSIX system (posixpath) *)

Definition os_sep : ascii := "/"%char.

Definition os_extsep : ascii := "."%char.

(** [p.rfind("/") + 1]. *)
Definition after_last_sep (p : string) : nat :=
  match str_rfind os_sep p with
  | Some i => S i
  | None => 0
  end.

(** [os.path.basename(p)]: [p[i:]] for [i = p.rfind("/") + 1]. *)
Definition os_path_basename (p : string) : string :=
  let i := after_last_sep p in
  substring i (String.length p - i) p.

(** [os.path.dirname(p)]: [p[:i]], without its trailing slashes unless it
    is made of slashes only. *)
Definition os_path_dirname (p : string) : string :=
  let i := after_last_sep p in
  let head := substring 0 i p in
  match head with
  | EmptyString => head
  | _ =>
      if String.eqb head (str_repeat os_sep (String.length head))
      then head
      else str_rstrip os_sep head
  end.

(** [os.path.join(a, b)]. *)
Definition os_path_join (a b : string) : string :=
  if str_startswith os_sep b then b
  else match a with
       | EmptyString => a +++ b
       | _ => if str_endswith os_sep a then a +++ b
              else a +++ str_of_char os_sep +++ b
       end.

(** ** The world outside the engine *)

(** [os.stat(path)], as far as the engine reads it. [st_size] is a
    file offset of the platform, whose decimal is far shorter than what
    [str] refuses to print. *)
Record StatResult : Type := mkStat {
  st_size : N;
  st_mtime : Z
}.

(** How [datetime.datetime.fromtimestamp(t).strftime(pattern)] fails: on
    a time stamp whose year is out of range ([ValueError]), that the
    platform's time type cannot hold ([OverflowError]) or that
    [localtime] refuses ([OSError]), and on a pattern that [strftime]
    refuses ([ValueError]). *)
Inductive TimeError : Type :=
| TimeValueError
| TimeOverflowError
| TimeOSError.

Definition exc_of_TimeError (e : TimeError) : PyExc :=
  match e with
  | TimeValueError => ValueError
  | TimeOverflowError => OverflowError
  | TimeOSError => OSError
  end.

(** The calls that leave the program, on a path that can be handed to
    the operating system. [None] is the [OSError] of a file that cannot
    be opened, read or stat-ed. [strftime t pattern] is
    [datetime.datetime.fromtimestamp(t).strftime(pattern)]. The case
    tables give [c.upper()] and [c.lower()] for one character. *)
Record World : Type := mkWorld {
  sha256_hexdigest : string -> option string;
  os_stat : string -> option StatResult;
  strftime : Z -> string -> TimeError + string;
  char_upper : ascii -> string;
  char_lower : ascii -> string
}.

(** The character no path may hold. *)
Definition NUL : ascii := "000"%char.

(** What [open] and [os.stat] do with their path before anything else:
    a path that holds a NUL is a [ValueError] ("embedded null byte"). *)
Definition fs_path (path : string) : M unit :=
  if str_contains NUL path then raise ValueError else ret tt.

(** [f(c)] for every character of [s], joined. *)
Fixpoint str_map (f : ascii -> string) (s : string) : string :=
  match s with
  | EmptyString => EmptyString
  | String a r => f a +++ str_map f r
  end.

(** ** Tokens *)

Definition TOK_SPECIAL : ascii := "%"%char.
Definition TOK_COMMA : ascii := ","%char.
Definition TOK_SEPARATOR : ascii := "="%char.

(** The dict [parse_format_string] builds for a format specifier. *)
Record TokenDict : Type := mkToken {
  token : ascii;
  field_value : option string;
  source_string : string;
  source_index : nat
}.

(** [TokenType = Union[str, dict]]. *)
Inductive TokenType : Type :=
| Str (char : ascii)
| Dict (d : TokenDict).

(** ** The parser *)

(** [_next_char]: [format_string[index + 1]] exists exactly when
    [index + 1 < len(format_string)]. *)
Definition _next_char (format_string : string) (index : nat) : M (ascii * nat) :=
  match get (index + 1) format_string with
  | Some c => ret (c, index + 1)
  | None => raise (FormatParseError format_string index ReachedEndOfString)
  end.

(** The [while] loop of [_consume_until]; [None] when it falls through.
    [fuel] bounds the iterations left: [len(format_string) - curr]. *)
Fixpoint _consume_until_loop (fuel : nat) (format_string : string)
  (index curr : nat) (char : ascii) : option (string * nat) :=
  match fuel with
  | O => None
  | S fuel' =>
      match get curr format_string with
      | None => None
      | Some c =>
          if Ascii.eqb c char
          then Some (substring index (curr - index) format_string, curr)
          else _consume_until_loop fuel' format_string index (curr + 1) char
      end
  end.

Definition _consume_until (format_string : string) (index : nat) (char : ascii)
  (can_recover : bool) : M (string * nat) :=
  match _consume_until_loop (String.length format_string - index)
          format_string index index char with
  | Some r => ret r
  | None =>
      if can_recover then ret (EmptyString, index)
      else raise (FormatParseError format_string index (ReachedEndSearchingFor char))
  end.

Definition _consume (format_string : string) (index : nat)
  : M (ascii * nat * option string) :=
  '(nextchar, index) <- _next_char format_string index ;;
  if Ascii.eqb nextchar "("
  then
    '(field_value, index) <- _consume_until format_string (index + 1) ")" false ;;
    '(nextchar, index) <- _next_char format_string index ;;
    ret (nextchar, index, Some field_value)
  else ret (nextchar, index, None).

(** The [while] loop of [parse_format_string]. Every iteration moves
    [index] forward, so [len(format_string) - index] iterations are
    enough: with no [fuel] left, [index] has reached the end. *)
Fixpoint parse_loop (fuel : nat) (format_string : string) (index : nat)
  (tokens : list TokenType) : M (list TokenType) :=
  match fuel with
  | O => ret tokens
  | S fuel' =>
      match get index format_string with
      | None => ret tokens
      | Some char =>
          logger TRACE "Parsing %r at %d"
            [LStr format_string; LInt (Z.of_nat index)] ;;;
          if Ascii.eqb char TOK_SPECIAL
          then
            '(sequence, index, field_value) <- _consume format_string index ;;
            logger TRACE "Consumed %r value=%r, index is now %d"
              [LStr (str_of_char sequence); of_option_str field_value;
               LInt (Z.of_nat index)] ;;;
            parse_loop fuel' format_string (index + 1)
              (tokens ++ [Dict (mkToken sequence field_value format_string index)])
          else
            parse_loop fuel' format_string (index + 1) (tokens ++ [Str char])
      end
  end.

Definition parse_format_string (format_string : string) : M (list TokenType) :=
  parse_loop (String.length format_string) format_string 0 [].

(** ** The token functions *)

(** [isnumber]: like [str.isdigit] but allowing negatives. *)
Definition isnumber (value : string) : bool :=
  if str_startswith "-" value
  then str_isdigit (substring 1 (String.length value - 1) value)
  else str_isdigit value.

(** The [nargs] of [_token]: [None], an [int], or a pair of bounds. *)
Inductive Nargs : Type :=
| NargsNone
| NargsInt (n : nat)
| NargsRange (argmin argmax : option nat).

(** [_verify_args]; [count] is [len(args)]. *)
Definition _verify_args (nargs : Nargs) (count : nat) : M unit :=
  match nargs with
  | NargsInt n => if Nat.eqb count n then ret tt else raise ValueError
  | NargsRange argmin argmax =>
      let lo := match argmin with Some a => a | None => count end in
      let hi := match argmax with Some a => a | None => count end in
      if Nat.ltb count lo || Nat.ltb hi count then raise ValueError else ret tt
  | NargsNone => ret tt
  end.

(** A token function receives the positional [filepath] and the token
    dict as keywords. *)
Definition TokenFunc : Type := string -> TokenDict -> M string.

(** The [wrapper] that [_token(char, nargs)] returns for [func]: the
    module-level name of a token function is bound to it. Every call in
    the module passes exactly one positional argument. *)
Definition _token_wrapper (nargs : Nargs) (func : TokenFunc) : TokenFunc :=
  fun filepath kwargs => _verify_args nargs 1 ;;; func filepath kwargs.

Definition get_basename (filepath : string) : string :=
  match str_rsplit1 os_extsep (os_path_basename filepath) with
  | x :: _ => x
  | [] => EmptyString
  end.

Definition get_extension (filepath : string) : string :=
  match str_rsplit1 os_extsep (os_path_basename filepath) with
  | [_; ext] => ext
  | _ => EmptyString
  end.

(** [int(s)], raising [ValueError]. *)
Definition int_of_str (s : string) : M Z :=
  match py_int s with
  | Some z => ret z
  | None => raise ValueError
  end.

Definition is_empty (s : string) : bool :=
  match s with
  | EmptyString => true
  | _ => false
  end.

Section Engine.

Variable w : World.

Definition str_upper (s : string) : string := str_map (char_upper w) s.

Definition str_lower (s : string) : string := str_map (char_lower w) s.

Definition tok_percent_func : TokenFunc :=
  fun _ _ => ret (str_of_char TOK_SPECIAL).

Definition tok_basename_func : TokenFunc :=
  fun filepath _ => ret (get_basename filepath).

Definition tok_extsep_func : TokenFunc :=
  fun _ _ => ret (str_of_char os_extsep).

Definition tok_extension_func : TokenFunc :=
  fun filepath _ => ret (get_extension filepath).

(** [hashlib.sha256(open(path, "rb").read()).hexdigest()]. *)
Definition file_sha256 (path : string) : M string :=
  fs_path path ;;;
  match sha256_hexdigest w path with
  | Some digest => ret digest
  | None => raise OSError
  end.

(** [os.stat(path)]. *)
Definition file_stat (path : string) : M StatResult :=
  fs_path path ;;;
  match os_stat w path with
  | Some st => ret st
  | None => raise OSError
  end.

Definition tok_hash_func : TokenFunc :=
  fun filepath _ =>
    digest <- file_sha256 filepath ;;
    ret (py_slice digest 0 8).

Definition tok_size_func : TokenFunc :=
  fun filepath _ =>
    st <- file_stat filepath ;;
    ret (str_of_N (st_size st)).

(** [tok_substr]. [TOK_COMMA not in field_value] is a [TypeError] when
    [field_value] is [None]; unpacking the split cannot fail once the
    comma is known to be there. *)
Definition tok_substr_func : TokenFunc :=
  fun filepath kwargs =>
    match field_value kwargs with
    | None => raise TypeError
    | Some field_value =>
        if negb (str_contains TOK_COMMA field_value)
        then raise (FormatApplyError filepath (MissingSeparator field_value TOK_COMMA))
        else
          match str_split1 TOK_COMMA field_value with
          | [begin_str; end_str] =>
              if negb (is_empty begin_str) && negb (isnumber begin_str)
              then raise (FormatApplyError filepath (BeginNotNumeric begin_str))
              else if negb (is_empty end_str) && negb (isnumber end_str)
              then raise (FormatApplyError filepath (EndNotNumeric end_str))
              else
                let name := get_basename filepath in
                begin_pos <- (if is_empty begin_str then ret 0%Z
                              else int_of_str begin_str) ;;
                end_pos <- (if is_empty end_str then ret (Z.of_nat (String.length name))
                            else int_of_str end_str) ;;
                ret (py_slice name begin_pos end_pos)
          | _ => raise ValueError
          end
    end.

(** [tok_tokenize]. *)
Definition tok_tokenize_func : TokenFunc :=
  fun filepath kwargs =>
    match field_value kwargs with
    | None => raise TypeError
    | Some field_value =>
        if negb (str_contains TOK_SEPARATOR field_value)
        then raise (FormatApplyError filepath
                      (MissingSeparator field_value TOK_SEPARATOR))
        else
          match str_rsplit1 TOK_SEPARATOR field_value with
          | [field; index_str] =>
              if negb (str_isdigit index_str)
              then raise (FormatApplyError filepath
                            (IndexNotNumeric index_str field_value))
              else
                let name := get_basename filepath in
                tokens <- (match str_split field name with
                           | Some l => ret l
                           | None => raise ValueError
                           end) ;;
                n <- int_of_str index_str ;;
                let index := (n - 1)%Z in
                if (index <? 0)%Z then
                  logger WARNING "%r: token index %d (for %r) less than zero"
                    [LStr name; LInt index; LStr field_value] ;;;
                  logger WARNING "interpreting the result as a zero-length string" [] ;;;
                  ret EmptyString
                else if (index >=? Z.of_nat (List.length tokens))%Z then
                  logger WARNING
                    "%r: token index %d (for %r) too big; file has %d token%s"
                    [LStr name; LInt index; LStr field_value;
                     LInt (Z.of_nat (List.length tokens));
                     LStr (if Nat.eqb (List.length tokens) 1 then "" else "s")] ;;;
                  logger WARNING "interpreting the result as a zero-length string" [] ;;;
                  ret EmptyString
                else ret (nth (Z.to_nat index) tokens EmptyString)
          | _ => raise ValueError
          end
    end.

Definition tok_tokenize : TokenFunc := _token_wrapper (NargsInt 1) tok_tokenize_func.

Definition tok_upper_func : TokenFunc :=
  fun filepath kwargs =>
    r <- tok_tokenize filepath kwargs ;; ret (str_upper r).

Definition tok_lower_func : TokenFunc :=
  fun filepath kwargs =>
    r <- tok_tokenize filepath kwargs ;; ret (str_lower r).

Definition tok_modtime_func : TokenFunc :=
  fun filepath kwargs =>
    match field_value kwargs with
    | None => raise (FormatApplyError filepath MissingTimestampFormat)
    | Some field_value =>
        st <- file_stat filepath ;;
        match strftime w (st_mtime st) field_value with
        | inr formatted => ret formatted
        | inl e => raise (exc_of_TimeError e)
        end
    end.

(** The names the decorator binds at module level. *)
Definition tok_percent : TokenFunc := _token_wrapper NargsNone tok_percent_func.
Definition tok_basename : TokenFunc := _token_wrapper (NargsInt 1) tok_basename_func.
Definition tok_extsep : TokenFunc := _token_wrapper NargsNone tok_extsep_func.
Definition tok_extension : TokenFunc := _token_wrapper (NargsInt 1) tok_extension_func.
Definition tok_hash : TokenFunc := _token_wrapper (NargsInt 1) tok_hash_func.
Definition tok_size : TokenFunc := _token_wrapper (NargsInt 1) tok_size_func.
Definition tok_substr : TokenFunc := _token_wrapper (NargsInt 1) tok_substr_func.
Definition tok_upper : TokenFunc := _token_wrapper (NargsInt 1) tok_upper_func.
Definition tok_lower : TokenFunc := _token_wrapper (NargsInt 1) tok_lower_func.
Definition tok_modtime : TokenFunc := _token_wrapper (NargsInt 1) tok_modtime_func.

(** [TOKENS], as the decorators fill it: [TOKENS[char] = func] stores the
    function itself, not its wrapper. *)
Definition TOKENS : list (ascii * TokenFunc) :=
  [ (TOK_SPECIAL, tok_percent_func);
    ("B"%char, tok_basename_func);
    ("."%char, tok_extsep_func);
    ("E"%char, tok_extension_func);
    ("H"%char, tok_hash_func);
    ("S"%char, tok_size_func);
    ("C"%char, tok_substr_func);
    ("T"%char, tok_tokenize_func);
    ("U"%char, tok_upper_func);
    ("L"%char, tok_lower_func);
    ("M"%char, tok_modtime_func) ].

(** [TOKENS.get(char)]. *)
Definition TOKENS_get (char : ascii) : option TokenFunc :=
  option_map snd (find (fun entry => Ascii.eqb (fst entry) char) TOKENS).

(** ** The evaluator *)

(** [apply_token]: [None] is the [None] it returns for an unknown
    format character. *)
Definition apply_token (filepath : string) (t : TokenDict) : M (option string) :=
  let format_char := token t in
  match TOKENS_get format_char with
  | None =>
      logger ERROR "invalid format token %r (obtained via %r at %d)"
        [LStr (str_of_char format_char); LStr (source_string t);
         LInt (Z.of_nat (source_index t))] ;;;
      ret None
  | Some func =>
      result <- func filepath t ;;
      logger DEBUG "apply %r on %r (%s) -> %r"
        [LStr (str_of_char format_char); LStr filepath;
         LFields (field_value t) (source_string t) (source_index t);
         LStr result] ;;;
      ret (Some result)
  end.

(** The [for] loop of [format_path] over the tokens. The parser emits
    only [str] and [dict] tokens, so the last branch of the loop has no
    counterpart. *)
Fixpoint format_loop (filepath : string) (tokens : list TokenType)
  (output : list string) : M (list string) :=
  match tokens with
  | [] => ret output
  | Str char :: rest => format_loop filepath rest (output ++ [str_of_char char])
  | Dict d :: rest =>
      result <- apply_token filepath d ;;
      match result with
      | Some r => format_loop filepath rest (output ++ [r])
      | None => format_loop filepath rest output
      end
  end.

(** [""].join(output)]. *)
Definition str_join (output : list string) : string :=
  String.concat EmptyString output.

Definition format_path (filepath format_string : string) : M string :=
  tokens <- parse_format_string format_string ;;
  output <- format_loop filepath tokens [] ;;
  let result := os_path_join (os_path_dirname filepath) (str_join output) in
  logger DEBUG "Renaming %r to %r" [LStr filepath; LStr result] ;;;
  ret result.

End Engine.

(** A world for the examples: one file, ["dir/foo-bar-baz.gz"], of 32
    bytes. *)
Definition example_world : World :=
  mkWorld
    (fun p => if String.eqb p "dir/foo-bar-baz.gz"
              then Some "e3b0c44298fc1c149afbf4c8996fb92427ae41e4649b934ca495991b7852b855"
              else None)
    (fun p => if String.eqb p "dir/foo-bar-baz.gz" then Some (mkStat 32 0) else None)
    (fun _ pattern => inr pattern)
    (fun c => str_of_char (if (Nat.leb 97 (nat_of_ascii c) && Nat.leb (nat_of_ascii c) 122)%bool
                           then ascii_of_nat (nat_of_ascii c - 32) else c))
    (fun c => str_of_char (if (Nat.leb 65 (nat_of_ascii c) && Nat.leb (nat_of_ascii c) 90)%bool
                           then ascii_of_nat (nat_of_ascii c + 32) else c)).

(** ** rename.py: the helpers of the driver *)

Definition FORMAT_DEFAULT : string := "%H%.%E".

(** [s.count(c)] for a one-character [c]. *)
Fixpoint str_count (c : ascii) (s : string) : nat :=
  match s with
  | EmptyString => 0
  | String a r => (if Ascii.eqb a c then 1 else 0) + str_count c r
  end.

(** What [parse_regex_arg] is called with: the [str] it is written
    for, or the [list] of them that argparse builds for [--regex], an
    option of [action="append"], which is what [main] passes. *)
Inductive RegexArg : Type :=
| ArgStr (s : string)
| ArgList (l : list string).

(** [parse_regex_arg]; [None] is the pair [(None, None)] it returns for
    an argument that is not in [s/OLD/NEW/] format, and the list is what
    [split] returns. A [list] has no [startswith]: [AttributeError]. *)
Definition parse_regex_arg (arg : RegexArg) : M (option (list string)) :=
  match arg with
  | ArgList _ => raise AttributeError
  | ArgStr arg =>
      if negb (prefix "s/" arg) || negb (str_endswith "/" arg)
         || negb (Nat.eqb (str_count "/" arg) 3)
      then
        logger ERROR "failed to parse argument %r: not in s/OLD/NEW/ format"
          [LStr arg] ;;;
        ret None
      else ret (Some (str_split1 "/" (py_slice arg 2 (-1))))
  end.

Definition split_path (file_path : string) : string * string * string :=
  let file_dir := os_path_dirname file_path in
  let file_base := os_path_basename file_path in
  (file_dir, get_basename file_base, get_extension file_base).

Definition join_path (file_dir file_base file_ext : string) : string :=
  let file_name :=
    if is_empty file_ext then file_base
    else file_base +++ str_of_char os_extsep +++ file_ext in
  os_path_join file_dir file_name.

(** The file system as the driver sees it: the two tests of [os.path],
    whether a call of [os.rename] succeeds ([false] is its [OSError]),
    and what [open(path, "rt").read()] returns ([None] is the [OSError]
    of [open]). *)
Record FileSystem : Type := mkFileSystem {
  os_path_isdir : string -> bool;
  os_path_exists : string -> bool;
  os_rename : string -> string -> bool;
  open_text : string -> option string
}.






(** ** Vocabulary of the statements *)

(** [s.find(c)]: the offset of the first [c] in [s]. *)
Fixpoint str_find (c : ascii) (s : string) : option nat :=
  match s with
  | EmptyString => None
  | String a r =>
      if Ascii.eqb a c then Some 0
      else option_map S (str_find c r)
  end.

(** The characters of a format string, as the literal tokens they parse
    to when none of them is the marker. *)
Definition literal_tokens (s : string) : list TokenType :=
  map Str (list_ascii_of_string s).

(** A decimal literal that [int] reads: a run of decimal digits, one at
    least and [int_max_str_digits] at most, leading zeros included. *)
Definition decimal_literal (s : string) : bool :=
  negb (is_empty s) && str_all char_isdecimal s
  && Nat.leb (String.length s) int_max_str_digits.

(** A decimal literal, or ["-"] and a decimal literal. *)
Definition signed_literal (s : string) : bool :=
  match s with
  | String a r => if Ascii.eqb a "-" then decimal_literal r else decimal_literal s
  | EmptyString => false
  end.

(** One side of a [begin,end] argument: nothing, or a signed literal. *)
Definition slice_bound_text (s : string) : bool :=
  is_empty s || signed_literal s.

(** The integer a signed decimal numeral denotes, as the Standard
    Library reads numerals; [None] for a text that is not one. *)
Definition literal_value (s : string) : option Z :=
  option_map Z.of_int (NilZero.int_of_string s).

(** The value of a numeral, [default] standing in for a text that is
    not one, such as the empty side of a [begin,end] argument. *)
Definition value_or (default : Z) (s : string) : Z :=
  match literal_value s with
  | Some z => z
  | None => default
  end.

(** The hexadecimal digits of [hexdigest()]. *)
Definition char_ishex (c : ascii) : bool :=
  char_isdecimal c
  || (Nat.leb 97 (nat_of_ascii c) && Nat.leb (nat_of_ascii c) 102).

(** The characters of the directives whose result is cut from the base
    name or is a number, a percent sign or an extension separator. *)
Definition name_directive_chars : list ascii :=
  ["%"; "."; "B"; "E"; "S"; "C"; "T"]%char.

(** A token that is a character other than the directory separator, or
    one of the directives of [name_directive_chars]. *)
Definition separator_free (t : TokenType) : bool :=
  match t with
  | Str c => negb (Ascii.eqb c os_sep)
  | Dict d => existsb (Ascii.eqb (token d)) name_directive_chars
  end.

(** A directory as [os.path.dirname] returns it: empty, all slashes, or
    not ending in a slash. *)
Definition dirname_shape (d : string) : Prop :=
  d = EmptyString
  \/ d = str_repeat os_sep (String.length d)
  \/ str_endswith os_sep d = false.

(** The record [apply_token] logs for a token whose character is not in
    [TOKENS]. *)
Definition invalid_token_record (t : TokenDict) : LogRecord :=
  mkLog ERROR "invalid format token %r (obtained via %r at %d)"
    [LStr (str_of_char (token t)); LStr (source_string t);
     LInt (Z.of_nat (source_index t))].

(** The characters whose token function takes no argument. *)
Definition zero_argument_chars : list ascii :=
  ["%"; "."; "B"; "E"; "H"; "S"]%char.

(** The superscript two, U+00B2: a digit for [str.isdigit], not for
    [int]. *)
Definition superscript_two : ascii := "178"%char.

(** A side of the [C] argument that is purely numeric, optionally
    signed: an optional ["+"] or ["-"] and one or more decimal digits. *)
Definition purely_numeric (s : string) : bool :=
  match s with
  | String a r =>
      if Ascii.eqb a "+" || Ascii.eqb a "-"
      then negb (is_empty r) && str_all char_isdecimal r
      else str_all char_isdecimal s
  | EmptyString => false
  end.

(** An index of the [T] argument that is a non-negative integer string:
    one or more decimal digits. *)
Definition non_negative_integer_string (s : string) : bool :=
  negb (is_empty s) && str_all char_isdecimal s.

(** No character of [s] is a digit that is not decimal. *)
Definition no_superscript (s : string) : bool :=
  str_all (fun c => negb (char_isdigit c) || char_isdecimal c) s.

(** The text of a token in a format string. *)
Definition token_text (t : TokenType) : string :=
  match t with
  | Str c => str_of_char c
  | Dict d =>
      str_of_char TOK_SPECIAL
      +++ (match field_value d with
           | Some a => "(" +++ a +++ ")"
           | None => EmptyString
           end)
      +++ str_of_char (token d)
  end.

(** The format string a token sequence spells. *)
Definition unparse (tokens : list TokenType) : string :=
  String.concat EmptyString (map token_text tokens).

(** What [parse_format_string] guarantees of a token of [format_string]. *)
Definition token_of (format_string : string) (t : TokenType) : Prop :=
  match t with
  | Str c => c <> TOK_SPECIAL
  | Dict d =>
      source_string d = format_string
      /\ get (source_index d) format_string = Some (token d)
      /\ match field_value d with
         | Some a => str_contains ")" a = false
         | None => token d <> "("%char
         end
  end.

(** Two tokens that differ at most in where they come from. *)
Definition same_token (t t' : TokenType) : Prop :=
  match t, t' with
  | Str c, Str c' => c = c'
  | Dict d, Dict d' => token d = token d' /\ field_value d = field_value d'
  | _, _ => False
  end.

(** The filename fragment a format string evaluates to, before
    [format_path] joins it to the directory. *)
Definition fragment (w : World) (filepath format_string : string)
  : Outcome string :=
  match outcome (parse_format_string format_string) with
  | Raise e => Raise e
  | Return tokens =>
      match outcome (format_loop w filepath tokens []) with
      | Raise e => Raise e
      | Return output => Return (str_join output)
      end
  end.

(** A file system for the examples. *)
Definition example_fs : FileSystem :=
  mkFileSystem
    (fun p => String.eqb p "out")
    (fun p => String.eqb p "out" || String.eqb p "out/a.txt" || String.eqb p "b.txt")
    (fun _ _ => true)
    (fun p => if String.eqb p "list.txt" then Some "a.txt" else None).

(** An error of the engine names what it was raised for: the format
    string, with an index within it, or the path. *)
Definition names_its_subject (filepath format_string : string) (e : PyExc) : Prop :=
  match e with
  | FormatParseError s index _ =>
      s = format_string /\ index <= String.length format_string
  | FormatApplyError p _ => p = filepath
  | _ => True
  end.

(** An error a token function may raise: [FormatApplyError] for the
    path, or one of the built-in exceptions. *)
Definition apply_error_for (filepath : string) (e : PyExc) : Prop :=
  match e with
  | FormatParseError _ _ _ => False
  | FormatApplyError p _ => p = filepath
  | _ => True
  end.

(** ** The monad *)

Lemma bind_ret_l {A B : Type} (a : A) (k : A -> M B) : bind (ret a) k = k a.
Proof.
  unfold bind, ret. destruct (k a) as [l r]. reflexivity.
Qed.

Lemma bind_ret_r {A : Type} (m : M A) : bind m ret = m.
Proof.
  destruct m as [l [e | a]]; simpl; [reflexivity |].
  now rewrite List.app_nil_r.
Qed.

Lemma bind_assoc {A B C : Type} (m : M A) (k : A -> M B) (h : B -> M C) :
  bind (bind m k) h = bind m (fun a => bind (k a) h).
Proof.
  destruct m as [l [e | a]]; simpl; [reflexivity |].
  destruct (k a) as [l2 [e2 | b]]; simpl; [reflexivity |].
  destruct (h b) as [l3 r3]. now rewrite List.app_assoc.
Qed.

Lemma bind_ext {A B : Type} (m : M A) (k k' : A -> M B) :
  (forall a, k a = k' a) -> bind m k = bind m k'.
Proof.
  intros H. destruct m as [l [e | a]]; simpl; [reflexivity |]. now rewrite H.
Qed.

Lemma bind_raise {A B : Type} (e : PyExc) (k : A -> M B) : bind (raise e) k = raise e.
Proof. reflexivity. Qed.

Lemma outcome_bind {A B : Type} (m : M A) (k : A -> M B) :
  outcome (bind m k) =
  match outcome m with
  | Raise e => Raise e
  | Return a => outcome (k a)
  end.
Proof.
  destruct m as [l [e | a]]; simpl; [reflexivity |].
  now destruct (k a).
Qed.

Lemma outcome_bind_logger {B : Type} lvl template arguments (k : unit -> M B) :
  outcome (bind (logger lvl template arguments) k) = outcome (k tt).
Proof.
  rewrite outcome_bind. reflexivity.
Qed.

Lemma bind_logged_pair {A B : Type} (m : M A) (k : A -> M B) l1 a l2 r :
  m = (l1, Return a) -> k a = (l2, r) -> bind m k = (l1 ++ l2, r).
Proof.
  intros -> H. simpl. now rewrite H.
Qed.

Lemma outcome_bind_return {A B : Type} (m : M A) (k : A -> M B) b :
  outcome (bind m k) = Return b ->
  exists a, outcome m = Return a /\ outcome (k a) = Return b.
Proof.
  rewrite outcome_bind. destruct (outcome m) as [e | a]; [discriminate |].
  intros H. now exists a.
Qed.

(** ** Strings *)

Lemma append_nil_r (s : string) : s +++ EmptyString = s.
Proof.
  induction s as [| a s IH]; simpl; [reflexivity | now rewrite IH].
Qed.

Lemma append_assoc (s t u : string) : (s +++ t) +++ u = s +++ t +++ u.
Proof.
  induction s as [| a s IH]; simpl; [reflexivity | now rewrite IH].
Qed.

Lemma append_snoc (p : string) (a : ascii) (r : string) :
  p +++ String a r = (p +++ str_of_char a) +++ r.
Proof.
  now rewrite append_assoc.
Qed.

Lemma length_append (s t : string) :
  String.length (s +++ t) = String.length s + String.length t.
Proof.
  induction s as [| a s IH]; simpl; [reflexivity | now rewrite IH].
Qed.

Lemma get_append_here (p : string) (a : ascii) (r : string) :
  get (String.length p) (p +++ String a r) = Some a.
Proof.
  induction p as [| b p IH]; simpl; [reflexivity | exact IH].
Qed.

Lemma get_append_end (p : string) : get (String.length p) p = None.
Proof.
  induction p as [| b p IH]; simpl; [reflexivity | exact IH].
Qed.

Lemma get_beyond (s : string) (n : nat) : String.length s <= n -> get n s = None.
Proof.
  revert n. induction s as [| a s IH]; intros n H; simpl.
  - now destruct n.
  - destruct n as [| n]; simpl in H; [lia |]. apply IH. lia.
Qed.

Lemma get_within (s : string) (n : nat) :
  n < String.length s -> exists c, get n s = Some c.
Proof.
  revert n. induction s as [| a s IH]; intros n H; simpl in *; [lia |].
  destruct n as [| n]; [now exists a |]. apply IH. lia.
Qed.

Lemma get_some_lt (s : string) (n : nat) (c : ascii) :
  get n s = Some c -> n < String.length s.
Proof.
  intros H. destruct (Nat.lt_ge_cases n (String.length s)) as [Hlt | Hge]; [exact Hlt |].
  rewrite (get_beyond _ _ Hge) in H. discriminate.
Qed.

Lemma get_append_l (s t : string) (n : nat) (c : ascii) :
  get n s = Some c -> get n (s +++ t) = Some c.
Proof.
  intros H. rewrite <- (append_correct1 s t n); [exact H |].
  now apply get_some_lt with c.
Qed.

Lemma substring_append_l (s t : string) (i n : nat) :
  i + n <= String.length s -> substring i n (s +++ t) = substring i n s.
Proof.
  revert i n. induction s as [| a s IH]; intros i n H; simpl in *.
  - assert (i = 0) by lia. assert (n = 0) by lia. subst. now destruct t.
  - destruct i as [| i].
    + destruct n as [| n]; [reflexivity |]. rewrite (IH 0 n); [reflexivity | lia].
    + apply IH. lia.
Qed.

Lemma substring_whole (s : string) : substring 0 (String.length s) s = s.
Proof.
  induction s as [| a s IH]; simpl; [reflexivity | now rewrite IH].
Qed.

Lemma substring_prefix (s t : string) : substring 0 (String.length s) (s +++ t) = s.
Proof.
  rewrite substring_append_l by lia. apply substring_whole.
Qed.

Lemma substring_skip (p s : string) (n : nat) :
  substring (String.length p) n (p +++ s) = substring 0 n s.
Proof.
  induction p as [| a p IH]; simpl; [reflexivity | exact IH].
Qed.

Lemma substring_suffix (p s : string) :
  substring (String.length p) (String.length s) (p +++ s) = s.
Proof.
  rewrite substring_skip. apply substring_whole.
Qed.

Lemma str_contains_append (c : ascii) (s t : string) :
  str_contains c (s +++ t) = str_contains c s || str_contains c t.
Proof.
  induction s as [| a s IH]; simpl; [reflexivity |].
  rewrite IH. now rewrite orb_assoc.
Qed.

(** ** The evaluator loop *)

(** Unfolds [apply_token] on a token whose character is known and looks
    the character up in [TOKENS]. *)
Ltac lookup_token :=
  unfold apply_token;
  cbn [token TOKENS_get TOKENS find fst snd option_map
       Ascii.eqb Bool.eqb andb TOK_SPECIAL].

Section Evaluator.

Variable w : World.

Lemma format_loop_app (filepath : string) (pre post : list TokenType)
  (output : list string) :
  format_loop w filepath (pre ++ post) output =
  bind (format_loop w filepath pre output)
       (fun out1 => format_loop w filepath post out1).
Proof.
  revert output. induction pre as [| t pre IH]; intros output.
  - change (format_loop w filepath [] output) with (ret output).
    now rewrite bind_ret_l.
  - destruct t as [c | d]; simpl.
    + apply IH.
    + rewrite bind_assoc. apply bind_ext.
      intros [r |]; apply IH.
Qed.

Lemma apply_token_unknown (filepath : string) (t : TokenDict) :
  TOKENS_get w (token t) = None ->
  apply_token w filepath t = ([invalid_token_record t], Return None).
Proof.
  intros H. unfold apply_token. rewrite H. reflexivity.
Qed.

Lemma apply_token_raises (filepath : string) (t : TokenDict) (func : TokenFunc)
  (l : list LogRecord) (e : PyExc) :
  TOKENS_get w (token t) = Some func ->
  func filepath t = (l, Raise e) ->
  apply_token w filepath t = (l, Raise e).
Proof.
  intros H1 H2. unfold apply_token. rewrite H1, H2. reflexivity.
Qed.

Lemma format_loop_raises (filepath : string) (pre post : list TokenType)
  (d : TokenDict) (output out1 : list string) (l1 l2 : list LogRecord) (e : PyExc) :
  format_loop w filepath pre output = (l1, Return out1) ->
  apply_token w filepath d = (l2, Raise e) ->
  format_loop w filepath (pre ++ Dict d :: post) output = (l1 ++ l2, Raise e).
Proof.
  intros H1 H2. rewrite format_loop_app.
  apply bind_logged_pair with (a := out1); [exact H1 |].
  simpl. rewrite H2. reflexivity.
Qed.

End Evaluator.

(** C1. A directive whose character is not in [TOKENS] makes
    [apply_token] log one error-level record that names the character and
    its source index, and return [None] without raising. In the loop of
    [format_path] the tokens before it are evaluated, that record is
    logged, the output is left as it was, and the loop goes on with the
    tokens after it. *)
Theorem unknown_directive_is_dropped (w : World) (filepath : string)
  (pre post : list TokenType) (d : TokenDict) (output : list string) :
  TOKENS_get w (token d) = None ->
  apply_token w filepath d = ([invalid_token_record d], Return None)
  /\ levelname (invalid_token_record d) = ERROR
  /\ In (LStr (str_of_char (token d))) (args (invalid_token_record d))
  /\ In (LInt (Z.of_nat (source_index d))) (args (invalid_token_record d))
  /\ format_loop w filepath (pre ++ Dict d :: post) output =
     (out1 <- format_loop w filepath pre output ;;
      logger ERROR (msg (invalid_token_record d)) (args (invalid_token_record d)) ;;;
      format_loop w filepath post out1)
  /\ (forall l1 out1 l2 r,
        format_loop w filepath pre output = (l1, Return out1) ->
        format_loop w filepath post out1 = (l2, r) ->
        format_loop w filepath (pre ++ Dict d :: post) output =
        (l1 ++ invalid_token_record d :: l2, r)).
Proof.
  intros H.
  assert (Hloop : format_loop w filepath (pre ++ Dict d :: post) output =
     (out1 <- format_loop w filepath pre output ;;
      logger ERROR (msg (invalid_token_record d)) (args (invalid_token_record d)) ;;;
      format_loop w filepath post out1)).
  { rewrite format_loop_app. apply bind_ext. intros out1.
    simpl. rewrite (apply_token_unknown w filepath d H). simpl.
    destruct (format_loop w filepath post out1) as [l2 r]. reflexivity. }
  split; [now apply apply_token_unknown |].
  split; [reflexivity |].
  split; [simpl; now left |].
  split; [simpl; tauto |].
  split; [exact Hloop |].
  intros l1 out1 l2 r H1 H2. rewrite Hloop.
  apply bind_logged_pair with (a := out1); [exact H1 |].
  simpl. rewrite H2. reflexivity.
Qed.

Lemma unknown_directive_is_dropped_witness :
  format_loop example_world "foo.txt"
    ([Str "a"] ++ Dict (mkToken "Z" None "a%Z%B" 2) :: [Dict (mkToken "B" None "a%Z%B" 4)]) [] =
  ([] ++ invalid_token_record (mkToken "Z" None "a%Z%B" 2)
      :: [mkLog DEBUG "apply %r on %r (%s) -> %r"
            [LStr "B"; LStr "foo.txt"; LFields None "a%Z%B" 4; LStr "foo"]],
   Return ["a"; "foo"]).
Proof.
  apply (unknown_directive_is_dropped example_world "foo.txt"
           [Str "a"%char] [Dict (mkToken "B" None "a%Z%B" 4)]
           (mkToken "Z" None "a%Z%B" 2) []); reflexivity.
Defined.

(** C2. When the token function of a directive raises [FormatApplyError],
    [apply_token] raises it, the loop of [format_path] stops there with
    that error whatever tokens follow, and [format_path] raises it: no
    string is returned. *)
Theorem apply_error_aborts_format (w : World) (filepath : string)
  (d : TokenDict) (func : TokenFunc) (l2 : list LogRecord)
  (file_path : string) (message : ApplyMessage) :
  TOKENS_get w (token d) = Some func ->
  func filepath d = (l2, Raise (FormatApplyError file_path message)) ->
  (forall pre post output l1 out1,
      format_loop w filepath pre output = (l1, Return out1) ->
      format_loop w filepath (pre ++ Dict d :: post) output =
      (l1 ++ l2, Raise (FormatApplyError file_path message)))
  /\ (forall format_string lp pre post l1 out1,
        parse_format_string format_string = (lp, Return (pre ++ Dict d :: post)) ->
        format_loop w filepath pre [] = (l1, Return out1) ->
        format_path w filepath format_string =
        (lp ++ l1 ++ l2, Raise (FormatApplyError file_path message))).
Proof.
  intros Hget Hfunc.
  pose proof (apply_token_raises w filepath d func l2 _ Hget Hfunc) as Happly.
  split.
  - intros pre post output l1 out1 Hpre.
    now apply format_loop_raises with (out1 := out1).
  - intros format_string lp pre post l1 out1 Hparse Hpre.
    unfold format_path. rewrite Hparse. simpl.
    rewrite (format_loop_raises w filepath pre post d [] out1 l1 l2 _ Hpre Happly).
    reflexivity.
Qed.

Lemma apply_error_aborts_format_witness :
  outcome (format_path example_world "foo.txt" "a%(x)Cb") =
  Raise (FormatApplyError "foo.txt" (MissingSeparator "x" ",")).
Proof.
  pose proof (apply_error_aborts_format example_world "foo.txt"
                (mkToken "C" (Some "x") "a%(x)Cb" 5)
                tok_substr_func []
                "foo.txt" (MissingSeparator "x" ",")
                eq_refl eq_refl) as [_ H].
  rewrite (H "a%(x)Cb" (logged (parse_format_string "a%(x)Cb"))
             [Str "a"%char] [Str "b"%char] [] ["a"] eq_refl eq_refl).
  reflexivity.
Defined.

(** ** The parser *)

Lemma get_append_r (p s : string) (n : nat) :
  get (String.length p + n) (p +++ s) = get n s.
Proof.
  rewrite Nat.add_comm. symmetry. apply append_correct2.
Qed.

Lemma str_find_absent (c : ascii) (s : string) :
  str_contains c s = false -> str_find c s = None.
Proof.
  induction s as [| a s IH]; simpl; [reflexivity |].
  destruct (Ascii.eqb a c); simpl; [discriminate |].
  intros H. now rewrite IH.
Qed.

Lemma str_find_first (c : ascii) (s rest : string) :
  str_contains c s = false ->
  str_find c (s +++ String c rest) = Some (String.length s).
Proof.
  induction s as [| a s IH]; simpl.
  - now rewrite Ascii.eqb_refl.
  - destruct (Ascii.eqb a c); simpl; [discriminate |].
    intros H. now rewrite IH.
Qed.

Lemma _consume_until_loop_zip (s p : string) (fuel index : nat) (char : ascii) :
  String.length s <= fuel ->
  _consume_until_loop fuel (p +++ s) index (String.length p) char =
  match str_find char s with
  | Some k => Some (substring index (String.length p + k - index) (p +++ s),
                    String.length p + k)
  | None => None
  end.
Proof.
  revert p fuel. induction s as [| a r IH]; intros p fuel Hfuel.
  - destruct fuel; simpl; [reflexivity |].
    rewrite append_nil_r, get_append_end. reflexivity.
  - destruct fuel as [| f]; simpl in Hfuel; [lia |].
    simpl. rewrite get_append_here.
    destruct (Ascii.eqb a char) eqn:E.
    + now rewrite Nat.add_0_r.
    + rewrite append_snoc.
      replace (String.length p + 1) with (String.length (p +++ str_of_char a))
        by (rewrite length_append; reflexivity).
      rewrite IH by lia.
      destruct (str_find char r) as [k |]; simpl; [| reflexivity].
      rewrite length_append. simpl.
      replace (String.length p + 1 + k) with (String.length p + S k) by lia.
      reflexivity.
Qed.

Lemma _consume_until_found (p a rest : string) (char : ascii) :
  str_contains char a = false ->
  _consume_until (p +++ a +++ String char rest) (String.length p) char false =
  ret (a, String.length p + String.length a).
Proof.
  intros H. unfold _consume_until.
  rewrite _consume_until_loop_zip by (rewrite !length_append; lia).
  rewrite (str_find_first _ _ _ H).
  replace (String.length p + String.length a - String.length p)
    with (String.length a) by lia.
  rewrite substring_skip, substring_prefix. reflexivity.
Qed.

Lemma _consume_until_missing (p a : string) (char : ascii) :
  str_contains char a = false ->
  _consume_until (p +++ a) (String.length p) char false =
  raise (FormatParseError (p +++ a) (String.length p) (ReachedEndSearchingFor char)).
Proof.
  intros H. unfold _consume_until.
  rewrite _consume_until_loop_zip by (rewrite !length_append; lia).
  now rewrite (str_find_absent _ _ H).
Qed.

Lemma _next_char_here (p : string) (c : ascii) (rest : string) (index : nat) :
  String.length p = index + 1 ->
  _next_char (p +++ String c rest) index = ret (c, index + 1).
Proof.
  intros H. unfold _next_char. rewrite <- H, get_append_here. reflexivity.
Qed.

Lemma _next_char_end (s : string) (index : nat) :
  String.length s = index + 1 ->
  _next_char s index = raise (FormatParseError s index ReachedEndOfString).
Proof.
  intros H. unfold _next_char. rewrite <- H, get_append_end. reflexivity.
Qed.

(** [_consume] on a specifier without argument. *)
Lemma _consume_plain (pre : string) (c : ascii) (rest : string) :
  Ascii.eqb c "(" = false ->
  _consume (pre +++ String "%" (String c rest)) (String.length pre) =
  ret (c, String.length pre + 1, None).
Proof.
  intros H. unfold _consume.
  rewrite (append_snoc pre "%").
  rewrite _next_char_here by (rewrite length_append; reflexivity).
  rewrite bind_ret_l, H. reflexivity.
Qed.

(** [_consume] on a specifier with a closed argument. *)
Lemma _consume_argument (pre a rest : string) :
  str_contains ")" a = false ->
  _consume (pre +++ "%(" +++ a +++ String ")" rest) (String.length pre) =
  match rest with
  | EmptyString =>
      raise (FormatParseError (pre +++ "%(" +++ a +++ ")")
               (String.length pre + 2 + String.length a) ReachedEndOfString)
  | String c _ => ret (c, String.length pre + String.length a + 3, Some a)
  end.
Proof.
  intros H. unfold _consume.
  change (pre +++ "%(" +++ a +++ String ")" rest)
    with (pre +++ String "%" (String "(" (a +++ String ")" rest))).
  rewrite (append_snoc pre "%").
  rewrite _next_char_here by (rewrite length_append; reflexivity).
  rewrite bind_ret_l. cbn [Ascii.eqb Bool.eqb andb].
  rewrite append_snoc.
  replace (String.length pre + 1 + 1)
    with (String.length ((pre +++ str_of_char "%") +++ str_of_char "("))
    by (rewrite !length_append; reflexivity).
  rewrite (_consume_until_found _ a rest ")" H).
  rewrite bind_ret_l.
  rewrite !length_append. cbn [String.length str_of_char].
  destruct rest as [| c rest'].
  - rewrite _next_char_end.
    + rewrite bind_raise. unfold raise. do 3 f_equal.
      * now rewrite !append_assoc.
      * lia.
    + rewrite !length_append. simpl. lia.
  - rewrite <- !append_assoc.
    rewrite (append_snoc _ ")").
    rewrite _next_char_here.
    + rewrite bind_ret_l. unfold ret. do 4 f_equal. lia.
    + rewrite !length_append. simpl. lia.
Qed.

Lemma parse_loop_literals (s p : string) (fuel : nat) (tokens : list TokenType) :
  str_contains TOK_SPECIAL s = false ->
  String.length s <= fuel ->
  outcome (parse_loop fuel (p +++ s) (String.length p) tokens) =
  Return (tokens ++ literal_tokens s).
Proof.
  revert p fuel tokens. induction s as [| a r IH]; intros p fuel tokens Hs Hfuel.
  - unfold literal_tokens. simpl. rewrite List.app_nil_r.
    destruct fuel; simpl; [reflexivity |].
    rewrite append_nil_r, get_append_end. reflexivity.
  - destruct fuel as [| f]; simpl in Hfuel; [lia |].
    simpl in Hs. apply orb_false_elim in Hs as [Ha Hr].
    cbn [parse_loop]. rewrite get_append_here.
    rewrite outcome_bind_logger, Ha.
    rewrite append_snoc.
    replace (String.length p + 1) with (String.length (p +++ str_of_char a))
      by (rewrite length_append; reflexivity).
    rewrite IH by (assumption || lia).
    unfold literal_tokens. simpl. now rewrite <- List.app_assoc.
Qed.

Lemma parse_literals (s : string) :
  str_contains TOK_SPECIAL s = false ->
  outcome (parse_format_string s) = Return (literal_tokens s).
Proof.
  intros H. unfold parse_format_string.
  apply (parse_loop_literals s EmptyString (String.length s) [] H). lia.
Qed.

Lemma format_loop_literals (w : World) (filepath : string) (s : string)
  (output : list string) :
  format_loop w filepath (literal_tokens s) output =
  ret (output ++ map str_of_char (list_ascii_of_string s)).
Proof.
  unfold literal_tokens. revert output.
  induction s as [| a r IH]; intros output; simpl.
  - now rewrite List.app_nil_r.
  - rewrite IH. now rewrite <- List.app_assoc.
Qed.

Lemma str_join_chars (s : string) :
  str_join (map str_of_char (list_ascii_of_string s)) = s.
Proof.
  unfold str_join. induction s as [| a r IH]; simpl; [reflexivity |].
  destruct (map str_of_char (list_ascii_of_string r)) eqn:E.
  - simpl in IH. subst r. reflexivity.
  - simpl. f_equal. exact IH.
Qed.

Lemma format_path_outcome (w : World) (filepath format_string : string)
  (tokens : list TokenType) :
  outcome (parse_format_string format_string) = Return tokens ->
  outcome (format_path w filepath format_string) =
  match outcome (format_loop w filepath tokens []) with
  | Raise e => Raise e
  | Return output =>
      Return (os_path_join (os_path_dirname filepath) (str_join output))
  end.
Proof.
  intros H. unfold format_path. rewrite outcome_bind, H, outcome_bind.
  destruct (outcome (format_loop w filepath tokens [])); [reflexivity |].
  now rewrite outcome_bind_logger.
Qed.

Lemma str_rfind_absent (c : ascii) (s : string) :
  str_contains c s = false -> str_rfind c s = None.
Proof.
  induction s as [| a s IH]; simpl; [reflexivity |].
  intros H. apply orb_false_elim in H as [Ha Hs].
  now rewrite (IH Hs), Ha.
Qed.

Lemma os_path_dirname_bare (p : string) :
  str_contains os_sep p = false -> os_path_dirname p = EmptyString.
Proof.
  intros H. unfold os_path_dirname, after_last_sep.
  rewrite (str_rfind_absent _ _ H). now destruct p.
Qed.

Lemma os_path_join_empty (b : string) : os_path_join EmptyString b = b.
Proof.
  unfold os_path_join. now destruct (str_startswith os_sep b).
Qed.

(** C8. A format string without the marker parses to the literal tokens
    of its characters, the loop copies them, and their concatenation, the
    filename fragment, is the string itself: [format_path] returns it
    joined to the directory of the path, which is the string itself when
    the path has no directory. *)
Theorem literal_format_is_identity (w : World) (filepath s : string) :
  str_contains TOK_SPECIAL s = false ->
  outcome (parse_format_string s) = Return (literal_tokens s)
  /\ format_loop w filepath (literal_tokens s) [] =
     ret (map str_of_char (list_ascii_of_string s))
  /\ str_join (map str_of_char (list_ascii_of_string s)) = s
  /\ outcome (format_path w filepath s) =
     Return (os_path_join (os_path_dirname filepath) s)
  /\ (str_contains os_sep filepath = false ->
      outcome (format_path w filepath s) = Return s).
Proof.
  intros H.
  assert (Hfmt : outcome (format_path w filepath s) =
                 Return (os_path_join (os_path_dirname filepath) s)).
  { rewrite (format_path_outcome w filepath s _ (parse_literals s H)).
    rewrite format_loop_literals. simpl. now rewrite str_join_chars. }
  split; [now apply parse_literals |].
  split; [apply format_loop_literals |].
  split; [apply str_join_chars |].
  split; [exact Hfmt |].
  intros Hp. rewrite Hfmt, (os_path_dirname_bare _ Hp). now rewrite os_path_join_empty.
Qed.

Lemma literal_format_is_identity_witness :
  outcome (format_path example_world "foo" "bar") = Return "bar".
Proof.
  apply (literal_format_is_identity example_world "foo" "bar"); reflexivity.
Defined.

(** *** A parsed prefix is parsed the same way inside a longer string *)

Lemma _consume_until_loop_extend (tail : string) (fuel : nat) :
  forall pre index curr char r fuel',
    index <= curr ->
    _consume_until_loop fuel pre index curr char = Some r ->
    fuel <= fuel' ->
    _consume_until_loop fuel' (pre +++ tail) index curr char = Some r.
Proof.
  induction fuel as [| f IH]; intros pre index curr char r fuel' Hle H Hf;
    [discriminate |].
  destruct fuel' as [| f']; [lia |].
  simpl in H |- *.
  destruct (get curr pre) as [c |] eqn:G; [| discriminate].
  rewrite (get_append_l _ tail _ _ G).
  destruct (Ascii.eqb c char).
  - rewrite substring_append_l; [exact H |].
    apply get_some_lt in G. lia.
  - apply IH; [lia | exact H | lia].
Qed.

Lemma _consume_until_loop_bounds (fuel : nat) :
  forall fs index curr char s k,
    _consume_until_loop fuel fs index curr char = Some (s, k) ->
    curr <= k /\ k < String.length fs.
Proof.
  induction fuel as [| f IH]; intros fs index curr char s k H; [discriminate |].
  simpl in H.
  destruct (get curr fs) as [c |] eqn:G; [| discriminate].
  destruct (Ascii.eqb c char).
  - injection H as _ <-. apply get_some_lt in G. lia.
  - apply IH in H. lia.
Qed.

Lemma _consume_until_return (fs : string) (index : nat) (char : ascii)
  (r : string * nat) :
  outcome (_consume_until fs index char false) = Return r ->
  _consume_until_loop (String.length fs - index) fs index index char = Some r.
Proof.
  unfold _consume_until.
  destruct (_consume_until_loop _ fs index index char) as [r' |]; simpl.
  - now intros [= ->].
  - discriminate.
Qed.

Lemma _consume_until_extend (pre tail : string) (index : nat) (char : ascii)
  (r : string * nat) :
  outcome (_consume_until pre index char false) = Return r ->
  _consume_until (pre +++ tail) index char false = ret r.
Proof.
  intros H. apply _consume_until_return in H.
  unfold _consume_until.
  rewrite (_consume_until_loop_extend tail _ pre index index char r _ (le_n _) H).
  - reflexivity.
  - rewrite length_append. lia.
Qed.

Lemma _next_char_return (fs : string) (index : nat) (c : ascii) (j : nat) :
  outcome (_next_char fs index) = Return (c, j) ->
  j = index + 1 /\ get j fs = Some c.
Proof.
  unfold _next_char. destruct (get (index + 1) fs) as [c' |] eqn:G; simpl.
  - intros [= -> <-]. now split.
  - discriminate.
Qed.

Lemma _next_char_extend (pre tail : string) (index : nat) (r : ascii * nat) :
  outcome (_next_char pre index) = Return r ->
  _next_char (pre +++ tail) index = ret r.
Proof.
  unfold _next_char. destruct (get (index + 1) pre) as [c |] eqn:G; simpl.
  - intros [= <-]. now rewrite (get_append_l _ tail _ _ G).
  - discriminate.
Qed.

Lemma _consume_extend (pre tail : string) (index : nat)
  (r : ascii * nat * option string) :
  outcome (_consume pre index) = Return r ->
  _consume (pre +++ tail) index = ret r
  /\ index < snd (fst r) < String.length pre.
Proof.
  unfold _consume. intros H.
  apply outcome_bind_return in H as [[c j] [Hn H]].
  rewrite (_next_char_extend pre tail index _ Hn), bind_ret_l.
  apply _next_char_return in Hn as [-> Hg].
  destruct (Ascii.eqb c "(").
  - apply outcome_bind_return in H as [[fv k] [Hu H]].
    rewrite (_consume_until_extend pre tail _ _ _ Hu), bind_ret_l.
    apply _consume_until_return, _consume_until_loop_bounds in Hu.
    apply outcome_bind_return in H as [[c2 j2] [Hn2 H]].
    rewrite (_next_char_extend pre tail _ _ Hn2), bind_ret_l.
    apply _next_char_return in Hn2 as [-> Hg2].
    simpl in H. injection H as <-. split; [reflexivity |].
    simpl. apply get_some_lt in Hg2. lia.
  - simpl in H. injection H as <-. split; [reflexivity |].
    simpl. apply get_some_lt in Hg. lia.
Qed.

Lemma parse_loop_extend (tail : string) (fuel : nat) :
  forall pre index tokens r fuel' tokens',
    outcome (parse_loop fuel pre index tokens) = Return r ->
    String.length pre - index <= fuel ->
    index <= String.length pre ->
    String.length (pre +++ tail) - index <= fuel' ->
    exists tokens'' fuel'',
      String.length tail <= fuel''
      /\ outcome (parse_loop fuel' (pre +++ tail) index tokens') =
         outcome (parse_loop fuel'' (pre +++ tail) (String.length pre) tokens'').
Proof.
  induction fuel as [| f IH]; intros pre index tokens r fuel' tokens' H Hf Hi Hf'.
  - assert (index = String.length pre) by lia. subst index.
    exists tokens', fuel'. split; [| reflexivity].
    rewrite length_append in Hf'. lia.
  - cbn [parse_loop] in H.
    destruct (get index pre) as [c |] eqn:G.
    + pose proof (get_some_lt _ _ _ G) as Hlt.
      destruct fuel' as [| f']; [rewrite length_append in Hf'; lia |].
      cbn [parse_loop]. rewrite (get_append_l _ tail _ _ G).
      rewrite outcome_bind_logger in H. rewrite outcome_bind_logger.
      destruct (Ascii.eqb c TOK_SPECIAL).
      * apply outcome_bind_return in H as [[[sequence j] fv] [Hc H]].
        apply (_consume_extend pre tail) in Hc as [Hc Hj]. simpl in Hj.
        rewrite Hc, bind_ret_l.
        rewrite outcome_bind_logger in H. rewrite outcome_bind_logger.
        apply (IH pre (j + 1) _ r f' _ H); lia.
      * apply (IH pre (index + 1) _ r f' _ H); lia.
    + assert (index = String.length pre).
      { destruct (Nat.eq_dec index (String.length pre)) as [E | N]; [exact E |].
        destruct (get_within pre index) as [c G']; [lia | congruence]. }
      subst index. exists tokens', fuel'. split; [| reflexivity].
      rewrite length_append in Hf'. lia.
Qed.

(** What follows a parsed prefix decides how the whole string ends. *)
Lemma parse_after_prefix (pre tail : string) (tokens : list TokenType)
  (result : Outcome (list TokenType)) :
  outcome (parse_format_string pre) = Return tokens ->
  (forall fuel tokens', String.length tail <= fuel ->
     outcome (parse_loop fuel (pre +++ tail) (String.length pre) tokens') = result) ->
  outcome (parse_format_string (pre +++ tail)) = result.
Proof.
  intros H Htail. unfold parse_format_string in *.
  destruct (parse_loop_extend tail _ pre 0 [] tokens
              (String.length (pre +++ tail)) [] H) as (t & f & Hf & ->); try lia.
  now apply Htail.
Qed.

Lemma parse_tail_bare_marker (pre : string) (fuel : nat) (tokens : list TokenType) :
  1 <= fuel ->
  outcome (parse_loop fuel (pre +++ "%") (String.length pre) tokens) =
  Raise (FormatParseError (pre +++ "%") (String.length pre) ReachedEndOfString).
Proof.
  intros Hf. destruct fuel as [| f]; [lia |].
  cbn [parse_loop]. rewrite get_append_here, outcome_bind_logger.
  cbn [Ascii.eqb Bool.eqb TOK_SPECIAL andb].
  unfold _consume.
  rewrite _next_char_end by (rewrite length_append; reflexivity).
  reflexivity.
Qed.

Lemma parse_tail_unterminated (pre a : string) (fuel : nat)
  (tokens : list TokenType) :
  str_contains ")" a = false ->
  1 <= fuel ->
  outcome (parse_loop fuel (pre +++ "%(" +++ a) (String.length pre) tokens) =
  Raise (FormatParseError (pre +++ "%(" +++ a) (String.length pre + 2)
           (ReachedEndSearchingFor ")")).
Proof.
  intros Ha Hf. destruct fuel as [| f]; [lia |].
  cbn [parse_loop].
  change (pre +++ "%(" +++ a) with (pre +++ String "%" (String "(" a)).
  rewrite get_append_here, outcome_bind_logger.
  cbn [Ascii.eqb Bool.eqb TOK_SPECIAL andb].
  unfold _consume.
  rewrite (append_snoc pre "%").
  rewrite _next_char_here by (rewrite length_append; reflexivity).
  rewrite bind_ret_l. cbn [Ascii.eqb Bool.eqb andb].
  rewrite append_snoc.
  replace (String.length pre + 1 + 1)
    with (String.length ((pre +++ str_of_char "%") +++ str_of_char "("))
    by (rewrite !length_append; reflexivity).
  rewrite (_consume_until_missing _ a ")" Ha).
  rewrite !length_append. cbn [String.length str_of_char].
  replace (String.length pre + 1 + 1) with (String.length pre + 2) by lia.
  reflexivity.
Qed.

Lemma parse_tail_no_code (pre a : string) (fuel : nat) (tokens : list TokenType) :
  str_contains ")" a = false ->
  1 <= fuel ->
  outcome (parse_loop fuel (pre +++ "%(" +++ a +++ ")") (String.length pre) tokens) =
  Raise (FormatParseError (pre +++ "%(" +++ a +++ ")")
           (String.length pre + 2 + String.length a) ReachedEndOfString).
Proof.
  intros Ha Hf. destruct fuel as [| f]; [lia |].
  cbn [parse_loop].
  change (pre +++ "%(" +++ a +++ ")") with (pre +++ String "%" ("(" +++ a +++ ")")).
  rewrite get_append_here, outcome_bind_logger.
  cbn [Ascii.eqb Bool.eqb TOK_SPECIAL andb].
  change (pre +++ String "%" ("(" +++ a +++ ")")) with (pre +++ "%(" +++ a +++ ")").
  rewrite (_consume_argument pre a EmptyString Ha).
  reflexivity.
Qed.

Lemma format_path_parse_error (w : World) (filepath format_string : string)
  (e : PyExc) :
  outcome (parse_format_string format_string) = Raise e ->
  outcome (format_path w filepath format_string) = Raise e.
Proof.
  intros H. unfold format_path. now rewrite outcome_bind, H.
Qed.

(** C7. After a prefix that parses, a format string that ends in a bare
    marker, in an argument that is never closed, or in a closed argument
    with no format character after it makes [parse_format_string] raise
    [FormatParseError] with the string and an index: that of the marker,
    that of the first character of the argument, that of the closing
    parenthesis. Nothing is returned, and [format_path] raises the same
    error. *)
Theorem incomplete_directive_is_parse_error (pre : string)
  (tokens : list TokenType) :
  outcome (parse_format_string pre) = Return tokens ->
  outcome (parse_format_string (pre +++ "%")) =
    Raise (FormatParseError (pre +++ "%") (String.length pre) ReachedEndOfString)
  /\ (forall a, str_contains ")" a = false ->
        outcome (parse_format_string (pre +++ "%(" +++ a)) =
        Raise (FormatParseError (pre +++ "%(" +++ a) (String.length pre + 2)
                 (ReachedEndSearchingFor ")")))
  /\ (forall a, str_contains ")" a = false ->
        outcome (parse_format_string (pre +++ "%(" +++ a +++ ")")) =
        Raise (FormatParseError (pre +++ "%(" +++ a +++ ")")
                 (String.length pre + 2 + String.length a) ReachedEndOfString))
  /\ (forall w filepath tail,
        tail = "%"
        \/ (exists a, str_contains ")" a = false /\ tail = "%(" +++ a)
        \/ (exists a, str_contains ")" a = false /\ tail = "%(" +++ a +++ ")") ->
        exists index message,
          outcome (parse_format_string (pre +++ tail)) =
            Raise (FormatParseError (pre +++ tail) index message)
          /\ outcome (format_path w filepath (pre +++ tail)) =
            Raise (FormatParseError (pre +++ tail) index message)).
Proof.
  intros H.
  assert (H1 : outcome (parse_format_string (pre +++ "%")) =
    Raise (FormatParseError (pre +++ "%") (String.length pre) ReachedEndOfString)).
  { apply (parse_after_prefix pre "%" tokens _ H).
    intros fuel t Hf. now apply parse_tail_bare_marker. }
  assert (H2 : forall a, str_contains ")" a = false ->
        outcome (parse_format_string (pre +++ "%(" +++ a)) =
        Raise (FormatParseError (pre +++ "%(" +++ a) (String.length pre + 2)
                 (ReachedEndSearchingFor ")"))).
  { intros a Ha. apply (parse_after_prefix pre ("%(" +++ a) tokens _ H).
    intros fuel t Hf. apply parse_tail_unterminated; [exact Ha |].
    simpl in Hf. lia. }
  assert (H3 : forall a, str_contains ")" a = false ->
        outcome (parse_format_string (pre +++ "%(" +++ a +++ ")")) =
        Raise (FormatParseError (pre +++ "%(" +++ a +++ ")")
                 (String.length pre + 2 + String.length a) ReachedEndOfString)).
  { intros a Ha. apply (parse_after_prefix pre ("%(" +++ a +++ ")") tokens _ H).
    intros fuel t Hf. apply parse_tail_no_code; [exact Ha |].
    simpl in Hf. lia. }
  repeat split; try assumption.
  intros w filepath tail [-> | [(a & Ha & ->) | (a & Ha & ->)]].
  - eexists _, _. split; [exact H1 |]. now apply format_path_parse_error.
  - eexists _, _. split; [exact (H2 a Ha) |]. now apply format_path_parse_error, H2.
  - eexists _, _. split; [exact (H3 a Ha) |]. now apply format_path_parse_error, H3.
Qed.

Lemma incomplete_directive_is_parse_error_witness :
  outcome (parse_format_string ("a%B" +++ "%(" +++ "xy" +++ ")")) =
  Raise (FormatParseError "a%B%(xy)" 7 ReachedEndOfString).
Proof.
  apply (incomplete_directive_is_parse_error "a%B"
           [Str "a"%char; Dict (mkToken "B" None "a%B" 2)] eq_refl).
  reflexivity.
Defined.

Lemma parse_loop_end (fuel : nat) (fs : string) (index : nat)
  (tokens : list TokenType) :
  String.length fs <= index -> parse_loop fuel fs index tokens = ret tokens.
Proof.
  intros H. destruct fuel; simpl; [reflexivity |].
  now rewrite (get_beyond _ _ H).
Qed.

Lemma parse_single_argument (c : ascii) (a : string) :
  str_contains ")" a = false ->
  outcome (parse_format_string ("%(" +++ a +++ ")" +++ str_of_char c)) =
  Return [Dict (mkToken c (Some a) ("%(" +++ a +++ ")" +++ str_of_char c)
                  (String.length a + 3))].
Proof.
  intros Ha. unfold parse_format_string.
  pose proof (_consume_argument EmptyString a (str_of_char c) Ha) as Hc.
  change (EmptyString +++ "%(" +++ a +++ String ")" (str_of_char c))
    with ("%(" +++ a +++ ")" +++ str_of_char c) in Hc.
  set (fs := "%(" +++ a +++ ")" +++ str_of_char c) in *.
  assert (Hlen : String.length fs = String.length a + 4).
  { unfold fs. rewrite !length_append. simpl. lia. }
  assert (Hget : get 0 fs = Some "%"%char) by reflexivity.
  destruct (String.length fs) as [| f] eqn:E; [lia |].
  cbn [parse_loop]. rewrite Hget, outcome_bind_logger.
  cbn [Ascii.eqb Bool.eqb TOK_SPECIAL andb].
  cbn [String.length str_of_char Nat.add] in Hc.
  rewrite Hc, bind_ret_l, outcome_bind_logger.
  rewrite parse_loop_end; [reflexivity | lia].
Qed.

Section ZeroArgument.

Variable w : World.

Lemma apply_token_ignores_argument (filepath : string) (c : ascii) :
  In c zero_argument_chars ->
  forall fv src idx fv' src' idx',
    outcome (apply_token w filepath (mkToken c fv src idx)) =
    outcome (apply_token w filepath (mkToken c fv' src' idx')).
Proof.
  intros Hc fv src idx fv' src' idx'.
  simpl in Hc.
  destruct Hc as [<- | [<- | [<- | [<- | [<- | [<- | []]]]]]];
    unfold apply_token; cbn [token TOKENS_get TOKENS find fst snd option_map
                               Ascii.eqb Bool.eqb TOK_SPECIAL andb];
    rewrite !outcome_bind;
    unfold tok_percent_func, tok_extsep_func, tok_basename_func,
      tok_extension_func, tok_hash_func, tok_size_func;
    match goal with
    | |- match ?o with _ => _ end = _ => now destruct o
    end.
Qed.

Lemma fs_path_cases (path : string) :
  str_contains NUL path = true /\ fs_path path = raise ValueError
  \/ str_contains NUL path = false /\ fs_path path = ret tt.
Proof.
  unfold fs_path. destruct (str_contains NUL path); auto.
Qed.

(** What [H] and [S] raise is what reading the file raises. *)
Lemma apply_token_file_error (filepath : string) (c : ascii) :
  In c zero_argument_chars ->
  forall fv src idx e,
    outcome (apply_token w filepath (mkToken c fv src idx)) = Raise e ->
    (c = "H"%char /\ outcome (file_sha256 w filepath) = Raise e
     \/ c = "S"%char /\ outcome (file_stat w filepath) = Raise e)
    /\ (str_contains NUL filepath = true /\ e = ValueError
        \/ str_contains NUL filepath = false /\ e = OSError).
Proof.
  intros Hc fv src idx e.
  simpl in Hc.
  destruct Hc as [<- | [<- | [<- | [<- | [<- | [<- | []]]]]]];
    unfold apply_token; cbn [token TOKENS_get TOKENS find fst snd option_map
                               Ascii.eqb Bool.eqb TOK_SPECIAL andb];
    try discriminate.
  - unfold tok_hash_func, file_sha256.
    destruct (fs_path_cases filepath) as [[Hn ->] | [Hn ->]].
    + simpl. intros [= <-]. auto.
    + rewrite bind_ret_l.
      destruct (sha256_hexdigest w filepath); simpl; [discriminate |].
      intros [= <-]. auto.
  - unfold tok_size_func, file_stat.
    destruct (fs_path_cases filepath) as [[Hn ->] | [Hn ->]].
    + simpl. intros [= <-]. auto.
    + rewrite bind_ret_l.
      destruct (os_stat w filepath); simpl; [discriminate |].
      intros [= <-]. auto.
Qed.

Lemma parse_single_plain (c : ascii) :
  In c zero_argument_chars ->
  outcome (parse_format_string ("%" +++ str_of_char c)) =
  Return [Dict (mkToken c None ("%" +++ str_of_char c) 1)].
Proof.
  simpl. intros [<- | [<- | [<- | [<- | [<- | [<- | []]]]]]]; reflexivity.
Qed.

Lemma wrapper_passes (nargs : Nargs) (func : TokenFunc) (filepath : string)
  (kwargs : TokenDict) :
  nargs = NargsNone \/ nargs = NargsInt 1 ->
  _token_wrapper nargs func filepath kwargs = func filepath kwargs.
Proof.
  intros [-> | ->]; unfold _token_wrapper; simpl;
    now destruct (func filepath kwargs).
Qed.

End ZeroArgument.

(** C10. For each of the characters [%], [.], [B], [E], [H] and [S],
    [apply_token] gives the same outcome with a parenthesized argument as
    without one. [TOKENS] holds the functions themselves, so
    [_verify_args] is not run, and the names the decorator binds pass
    its check as well. An error, if there is one, is that of reading the
    file for [H] or [S]: the [ValueError] of a path that holds a NUL, or
    else [OSError]; the other four always return. So [%(arg)c] formats
    to what [%c] formats to. *)
Theorem zero_argument_directive_ignores_argument (w : World)
  (filepath : string) (c : ascii) :
  In c zero_argument_chars ->
  (forall arg src idx src' idx',
      outcome (apply_token w filepath (mkToken c (Some arg) src idx)) =
      outcome (apply_token w filepath (mkToken c None src' idx')))
  /\ (forall fv src idx e,
      outcome (apply_token w filepath (mkToken c fv src idx)) = Raise e ->
      (c = "H"%char /\ outcome (file_sha256 w filepath) = Raise e
       \/ c = "S"%char /\ outcome (file_stat w filepath) = Raise e)
      /\ (str_contains NUL filepath = true /\ e = ValueError
          \/ str_contains NUL filepath = false /\ e = OSError))
  /\ (forall kwargs,
      tok_percent filepath kwargs = tok_percent_func filepath kwargs
      /\ tok_extsep filepath kwargs = tok_extsep_func filepath kwargs
      /\ tok_basename filepath kwargs = tok_basename_func filepath kwargs
      /\ tok_extension filepath kwargs = tok_extension_func filepath kwargs
      /\ tok_hash w filepath kwargs = tok_hash_func w filepath kwargs
      /\ tok_size w filepath kwargs = tok_size_func w filepath kwargs)
  /\ (forall arg, str_contains ")" arg = false ->
      outcome (format_path w filepath ("%(" +++ arg +++ ")" +++ str_of_char c)) =
      outcome (format_path w filepath ("%" +++ str_of_char c))).
Proof.
  intros Hc.
  split; [intros; now apply apply_token_ignores_argument |].
  split; [intros fv src idx e; now apply apply_token_file_error |].
  split.
  { intros kwargs. repeat split; apply wrapper_passes; auto. }
  intros arg Ha.
  rewrite (format_path_outcome w filepath _ _ (parse_single_argument c arg Ha)).
  rewrite (format_path_outcome w filepath _ _ (parse_single_plain c Hc)).
  cbn [format_loop]. rewrite !outcome_bind.
  rewrite (apply_token_ignores_argument w filepath c Hc (Some arg) _ _
             None ("%" +++ str_of_char c) 1).
  reflexivity.
Qed.

Lemma zero_argument_directive_ignores_argument_witness :
  outcome (format_path example_world "dir/foo.txt" ("%(" +++ "xyz" +++ ")" +++ str_of_char "B")) =
  outcome (format_path example_world "dir/foo.txt" ("%" +++ str_of_char "B")).
Proof.
  apply (zero_argument_directive_ignores_argument example_world "dir/foo.txt" "B").
  - simpl. tauto.
  - reflexivity.
Defined.

(** ** Decimal numerals *)

Lemma string_of_uint_decimal (d : uint) :
  str_all char_isdecimal (NilEmpty.string_of_uint d) = true.
Proof.
  induction d; simpl; auto.
Qed.

Lemma digits_value_string_of_uint (d : uint) (acc : N) :
  digits_value acc (NilEmpty.string_of_uint d) =
  (DecimalPos.Unsigned.of_lu (rev d) + acc * 10 ^ DecimalPos.Unsigned.usize d)%N.
Proof.
  revert acc. induction d; intros acc; cbn [DecimalPos.Unsigned.usize];
    [ simpl; lia | .. ];
    rewrite N.pow_succ_r';
    unfold rev; cbn [revapp]; rewrite DecimalPos.Unsigned.of_lu_revapp;
    cbn [NilEmpty.string_of_uint digits_value]; rewrite IHd;
    match goal with
    | |- context [N.of_nat ?x] =>
        let v := eval vm_compute in (N.of_nat x) in change (N.of_nat x) with v
    end;
    match goal with
    | |- context [(DecimalPos.Unsigned.of_lu ?x * _)%N] =>
        let v := eval vm_compute in (DecimalPos.Unsigned.of_lu x) in
        change (DecimalPos.Unsigned.of_lu x) with v
    end;
    ring.
Qed.

Lemma digits_value_to_uint (p : positive) :
  digits_value 0 (NilEmpty.string_of_uint (Pos.to_uint p)) = Npos p.
Proof.
  rewrite digits_value_string_of_uint, N.mul_0_l, N.add_0_r.
  rewrite <- DecimalPos.Unsigned.of_uint_alt.
  apply DecimalPos.Unsigned.of_to.
Qed.

Lemma string_of_uint_nonnil (d : uint) :
  d <> Nil -> NilZero.string_of_uint d = NilEmpty.string_of_uint d.
Proof.
  destruct d; [congruence | reflexivity ..].
Qed.

Lemma string_of_uint_nonempty (d : uint) :
  d <> Nil -> is_empty (NilEmpty.string_of_uint d) = false.
Proof.
  destruct d; [congruence | reflexivity ..].
Qed.

(** The decimal numeral of a positive number. *)
Lemma numeral_of_positive (p : positive) :
  exists s,
    NilZero.string_of_uint (Pos.to_uint p) = s
    /\ is_empty s = false
    /\ str_all char_isdecimal s = true
    /\ digits_value 0 s = Npos p.
Proof.
  exists (NilEmpty.string_of_uint (Pos.to_uint p)).
  pose proof (DecimalPos.Unsigned.to_uint_nonnil p) as Hn.
  split; [now apply string_of_uint_nonnil |].
  split; [now apply string_of_uint_nonempty |].
  split; [apply string_of_uint_decimal |].
  apply digits_value_to_uint.
Qed.

Lemma decimal_is_digit (s : string) :
  str_all char_isdecimal s = true -> str_all char_isdigit s = true.
Proof.
  induction s as [| a s IH]; simpl; [reflexivity |].
  intros H. apply andb_prop in H as [Ha Hs].
  rewrite (IH Hs), andb_true_r.
  unfold char_isdigit. now rewrite Ha.
Qed.

Lemma decimal_excludes (c : ascii) (s : string) :
  char_isdecimal c = false ->
  str_all char_isdecimal s = true -> str_contains c s = false.
Proof.
  intros Hc. induction s as [| a s IH]; simpl; [reflexivity |].
  intros H. apply andb_prop in H as [Ha Hs].
  rewrite (IH Hs), orb_false_r.
  destruct (Ascii.eqb_spec a c) as [-> |]; [congruence | reflexivity].
Qed.

Lemma decimal_not_dash (s : string) :
  str_all char_isdecimal s = true -> str_startswith "-" s = false.
Proof.
  destruct s as [| a s]; simpl; [reflexivity |].
  intros H. apply andb_prop in H as [Ha _].
  destruct (Ascii.eqb_spec a "-") as [-> |]; [discriminate | reflexivity].
Qed.

Lemma substring_tail (a : ascii) (s : string) :
  substring 1 (String.length (String a s) - 1) (String a s) = s.
Proof.
  simpl. rewrite Nat.sub_0_r. apply substring_whole.
Qed.

Lemma str_isdigit_decimal (s : string) :
  is_empty s = false -> str_all char_isdecimal s = true -> str_isdigit s = true.
Proof.
  intros He Hd. destruct s; [discriminate |].
  unfold str_isdigit. now apply decimal_is_digit.
Qed.

Lemma py_int_decimal (s : string) :
  is_empty s = false -> str_all char_isdecimal s = true ->
  String.length s <= int_max_str_digits ->
  py_int s = Some (Z.of_N (digits_value 0 s)).
Proof.
  intros He Hd Hl. unfold py_int. rewrite (decimal_not_dash _ Hd), Hd.
  destruct (Nat.ltb_spec int_max_str_digits (String.length s)); [lia |].
  now destruct s.
Qed.

Lemma py_int_negative (s : string) :
  is_empty s = false -> str_all char_isdecimal s = true ->
  String.length s <= int_max_str_digits ->
  py_int (String "-" s) = Some (- Z.of_N (digits_value 0 s))%Z.
Proof.
  intros He Hd Hl. unfold py_int.
  cbn [str_startswith Ascii.eqb Bool.eqb andb].
  rewrite substring_tail, Hd.
  destruct (Nat.ltb_spec int_max_str_digits (String.length s)); [lia |].
  now destruct s.
Qed.

(** [int] refuses a run of more than [int_max_str_digits] digits. *)
Lemma py_int_long (s : string) :
  str_all char_isdecimal s = true ->
  int_max_str_digits < String.length s ->
  py_int s = None /\ py_int (String "-" s) = None.
Proof.
  intros Hd Hl. unfold py_int.
  cbn [str_startswith Ascii.eqb Bool.eqb andb].
  rewrite substring_tail, (decimal_not_dash _ Hd), Hd.
  apply Nat.ltb_lt in Hl. rewrite Hl.
  now destruct s.
Qed.

(** A digit string is the text of a numeral of the Standard Library. *)
Lemma uint_of_string_decimal (s : string) :
  str_all char_isdecimal s = true ->
  exists d, NilEmpty.uint_of_string s = Some d /\ NilEmpty.string_of_uint d = s.
Proof.
  induction s as [| a s IH]; [now exists Nil |].
  cbn [str_all NilEmpty.uint_of_string]. intros H.
  apply andb_prop in H as [Ha Hs].
  destruct (IH Hs) as (d & -> & Hd).
  destruct a as [[] [] [] [] [] [] [] []]; try discriminate Ha;
    eexists; (split; [reflexivity | cbn; now rewrite Hd]).
Qed.

Lemma digits_value_numeral (s : string) (d : uint) :
  NilEmpty.uint_of_string s = Some d -> digits_value 0 s = N.of_uint d.
Proof.
  intros H. apply NilEmpty.sus in H as <-.
  rewrite digits_value_string_of_uint, N.mul_0_l, N.add_0_r.
  unfold N.of_uint. now rewrite DecimalPos.Unsigned.of_uint_alt.
Qed.

(** What the Standard Library reads in a digit string is what
    [digits_value] computes. *)
Lemma literal_value_decimal (s : string) :
  is_empty s = false -> str_all char_isdecimal s = true ->
  literal_value s = Some (Z.of_N (digits_value 0 s))
  /\ literal_value (String "-" s) = Some (- Z.of_N (digits_value 0 s))%Z.
Proof.
  intros He Hd.
  destruct (uint_of_string_decimal s Hd) as (d & Hu & _).
  rewrite (digits_value_numeral s d Hu).
  unfold literal_value, NilZero.int_of_string, NilZero.uint_of_string.
  cbn [Ascii.eqb Bool.eqb andb].
  destruct s as [| a r]; [discriminate |].
  pose proof (decimal_not_dash _ Hd) as Hdash. cbn [str_startswith] in Hdash.
  rewrite Hdash, Hu. split; reflexivity.
Qed.

(** [int] reads a decimal literal as the Standard Library does. *)
Lemma decimal_literal_spec (s : string) :
  decimal_literal s = true ->
  exists n : N,
    py_int s = Some (Z.of_N n)
    /\ literal_value s = Some (Z.of_N n)
    /\ py_int (String "-" s) = Some (- Z.of_N n)%Z
    /\ literal_value (String "-" s) = Some (- Z.of_N n)%Z
    /\ is_empty s = false
    /\ str_all char_isdecimal s = true
    /\ str_isdigit s = true.
Proof.
  unfold decimal_literal. intros H.
  apply andb_prop in H as [H Hl]. apply andb_prop in H as [He Hd].
  apply negb_true_iff in He. apply Nat.leb_le in Hl.
  exists (digits_value 0 s).
  destruct (literal_value_decimal s He Hd) as [Hp Hn].
  repeat split; try assumption.
  - now apply py_int_decimal.
  - now apply py_int_negative.
  - now apply str_isdigit_decimal.
Qed.

Lemma signed_literal_spec (s : string) :
  signed_literal s = true ->
  exists z : Z,
    py_int s = Some z
    /\ literal_value s = Some z
    /\ is_empty s = false
    /\ isnumber s = true
    /\ (forall c, char_isdecimal c = false -> Ascii.eqb "-" c = false ->
          str_contains c s = false).
Proof.
  unfold signed_literal. destruct s as [| a r]; [discriminate |].
  destruct (Ascii.eqb_spec a "-") as [-> | Hdash]; intros H;
    destruct (decimal_literal_spec _ H) as (n & Hp & Hv & Hpn & Hvn & He & Hd & Hi).
  - exists (- Z.of_N n)%Z. repeat split; try assumption.
    + unfold isnumber. cbn [str_startswith Ascii.eqb Bool.eqb andb].
      now rewrite substring_tail.
    + intros c Hc Hm. cbn [str_contains]. rewrite Hm.
      now apply decimal_excludes.
  - exists (Z.of_N n). repeat split; try assumption.
    + unfold isnumber. now rewrite (decimal_not_dash _ Hd).
    + intros c Hc _. now apply decimal_excludes.
Qed.

(** [str(z)] is a signed literal that reads back to [z], as long as it
    is within the limit of [int]. *)
Lemma str_of_Z_literal (z : Z) :
  String.length (str_of_Z z) <= int_max_str_digits ->
  signed_literal (str_of_Z z) = true
  /\ literal_value (str_of_Z z) = Some z.
Proof.
  destruct z as [| p | p]; [split; reflexivity | |];
    unfold str_of_Z; cbn [Z.to_int NilZero.string_of_int];
    destruct (numeral_of_positive p) as (s & -> & He & Hd & Hv);
    intros Hl; destruct (literal_value_decimal s He Hd) as [Hp Hn];
    rewrite Hv in Hp, Hn.
  - split; [| exact Hp].
    unfold signed_literal. destruct s as [| a r]; [discriminate |].
    pose proof (decimal_not_dash _ Hd) as Hdash. cbn [str_startswith] in Hdash.
    rewrite Hdash. unfold decimal_literal. rewrite Hd.
    apply Nat.leb_le in Hl. now rewrite Hl.
  - split; [| exact Hn].
    unfold signed_literal. cbn [Ascii.eqb Bool.eqb andb].
    unfold decimal_literal. rewrite He, Hd.
    cbn [String.length] in Hl.
    assert (Hl' : String.length s <= int_max_str_digits) by lia.
    apply Nat.leb_le in Hl'. now rewrite Hl'.
Qed.

Lemma str_of_N_decimal (n : N) : str_all char_isdecimal (str_of_N n) = true.
Proof.
  destruct n as [| p]; [reflexivity |].
  unfold str_of_N; cbn [N.to_uint].
  now destruct (numeral_of_positive p) as (s & -> & _ & Hd & _).
Qed.

(** [str(n)] is a decimal literal that reads back to [n], as long as it
    is within the limit of [int]. *)
Lemma str_of_N_literal (n : N) :
  String.length (str_of_N n) <= int_max_str_digits ->
  decimal_literal (str_of_N n) = true
  /\ literal_value (str_of_N n) = Some (Z.of_N n).
Proof.
  destruct n as [| p]; [split; reflexivity |].
  unfold str_of_N; cbn [N.to_uint].
  destruct (numeral_of_positive p) as (s & -> & He & Hd & Hv).
  intros Hl. destruct (literal_value_decimal s He Hd) as [Hp _].
  rewrite Hv in Hp. split; [| exact Hp].
  unfold decimal_literal. rewrite He, Hd.
  apply Nat.leb_le in Hl. now rewrite Hl.
Qed.

(** ** The substring directive *)

Lemma str_contains_cut (c : ascii) (field index_str : string) :
  str_contains c (field +++ String c index_str) = true.
Proof.
  rewrite str_contains_append. simpl.
  now rewrite Ascii.eqb_refl, orb_true_r.
Qed.

Lemma str_split1_cut (c : ascii) (b e : string) :
  str_contains c b = false -> str_split1 c (b +++ String c e) = [b; e].
Proof.
  induction b as [| a b IH]; simpl.
  - now rewrite Ascii.eqb_refl.
  - intros H. apply orb_false_elim in H as [Ha Hb].
    now rewrite Ha, (IH Hb).
Qed.

(** A side of the argument that is empty takes its default; one that is
    a signed literal passes [isnumber] and [int] reads its value. *)
Lemma slice_bound_text_spec (s : string) (default : Z) :
  slice_bound_text s = true ->
  (forall c, char_isdecimal c = false -> Ascii.eqb "-" c = false ->
     str_contains c s = false)
  /\ (is_empty s = true /\ value_or default s = default
      \/ is_empty s = false /\ isnumber s = true
         /\ py_int s = Some (value_or default s)).
Proof.
  unfold slice_bound_text. destruct (is_empty s) eqn:E; cbn [orb].
  - intros _. destruct s; [| discriminate]. split; [reflexivity | now left].
  - intros H. destruct (signed_literal_spec s H) as (z & Hp & Hv & _ & Hn & Hx).
    split; [exact Hx |]. right. unfold value_or. rewrite Hv. auto.
Qed.

Lemma tok_substr_well_formed (filepath begin_str end_str : string)
  (c : ascii) (src : string) (idx : nat) :
  slice_bound_text begin_str = true ->
  slice_bound_text end_str = true ->
  tok_substr_func filepath
    (mkToken c (Some (begin_str +++ "," +++ end_str)) src idx) =
  ret (py_slice (get_basename filepath)
         (value_or 0 begin_str)
         (value_or (Z.of_nat (String.length (get_basename filepath))) end_str)).
Proof.
  intros Hb He.
  destruct (slice_bound_text_spec begin_str 0 Hb) as [Hcb Hvb].
  destruct (slice_bound_text_spec end_str
              (Z.of_nat (String.length (get_basename filepath))) He) as [_ Hve].
  unfold tok_substr_func. cbn [field_value].
  rewrite str_contains_append. cbn [append str_contains].
  rewrite Ascii.eqb_refl, orb_true_r. cbn [negb].
  change (begin_str +++ String "," end_str)
    with (begin_str +++ String TOK_COMMA end_str).
  rewrite (str_split1_cut _ _ _ (Hcb TOK_COMMA eq_refl eq_refl)).
  unfold int_of_str.
  destruct Hvb as [[-> ->] | (-> & -> & ->)], Hve as [[-> ->] | (-> & -> & ->)];
    reflexivity.
Qed.

(** A bound written with a plus sign does not pass [isnumber]. *)
Lemma tok_substr_plus_sign (filepath digits end_str : string)
  (c : ascii) (src : string) (idx : nat) :
  str_contains TOK_COMMA digits = false ->
  tok_substr_func filepath
    (mkToken c (Some (String "+" digits +++ "," +++ end_str)) src idx) =
  raise (FormatApplyError filepath (BeginNotNumeric (String "+" digits))).
Proof.
  intros Hd. unfold tok_substr_func. cbn [field_value].
  change (String "+" digits +++ "," +++ end_str)
    with (String "+" digits +++ String TOK_COMMA end_str).
  rewrite str_contains_cut. cbn [negb].
  rewrite str_split1_cut by (cbn [str_contains]; now rewrite Hd).
  reflexivity.
Qed.

Lemma tok_substr_plus_sign_end (filepath begin_str digits : string)
  (c : ascii) (src : string) (idx : nat) :
  slice_bound_text begin_str = true ->
  tok_substr_func filepath
    (mkToken c (Some (begin_str +++ "," +++ String "+" digits)) src idx) =
  raise (FormatApplyError filepath (EndNotNumeric (String "+" digits))).
Proof.
  intros Hb.
  destruct (slice_bound_text_spec begin_str 0 Hb) as [Hcb Hvb].
  unfold tok_substr_func. cbn [field_value].
  change (begin_str +++ "," +++ String "+" digits)
    with (begin_str +++ String TOK_COMMA (String "+" digits)).
  rewrite str_contains_cut. cbn [negb].
  rewrite (str_split1_cut _ _ _ (Hcb TOK_COMMA eq_refl eq_refl)).
  destruct Hvb as [[-> _] | (-> & -> & _)]; reflexivity.
Qed.

Lemma slice_bound_in_range (len : nat) (i : Z) :
  (0 <= i <= Z.of_nat len)%Z -> slice_bound len i = Z.to_nat i.
Proof.
  intros H. unfold slice_bound.
  destruct (Z.ltb_spec i 0); lia.
Qed.

Lemma slice_bound_negative (len : nat) (i : Z) :
  (i < 0)%Z -> slice_bound len i = slice_bound len (Z.max 0 (Z.of_nat len + i)).
Proof.
  intros H. unfold slice_bound.
  destruct (Z.ltb_spec i 0); [| lia].
  destruct (Z.ltb_spec (Z.max 0 (Z.of_nat len + i)) 0); lia.
Qed.

Lemma slice_bound_beyond (len : nat) (i : Z) :
  (Z.of_nat len < i)%Z -> slice_bound len i = slice_bound len (Z.of_nat len).
Proof.
  intros H. unfold slice_bound.
  destruct (Z.ltb_spec i 0); [lia |].
  destruct (Z.ltb_spec (Z.of_nat len) 0); lia.
Qed.

Lemma py_slice_whole (s : string) : py_slice s 0 (Z.of_nat (String.length s)) = s.
Proof.
  unfold py_slice.
  rewrite !slice_bound_in_range by lia.
  rewrite Nat2Z.id. simpl. rewrite Nat.sub_0_r. apply substring_whole.
Qed.

(** ** The field directives *)

Lemma str_rcut_absent (c : ascii) (s : string) :
  str_contains c s = false -> str_rcut c s = None.
Proof.
  induction s as [| a s IH]; simpl; [reflexivity |].
  intros H. apply orb_false_elim in H as [Ha Hs].
  now rewrite (IH Hs), Ha.
Qed.

Lemma str_rcut_last (c : ascii) (field index_str : string) :
  str_contains c index_str = false ->
  str_rcut c (field +++ String c index_str) = Some (field, index_str).
Proof.
  intros H. induction field as [| a field IH]; simpl.
  - now rewrite (str_rcut_absent _ _ H), Ascii.eqb_refl.
  - now rewrite IH.
Qed.

Lemma str_split_nonempty (field name : string) :
  field <> EmptyString ->
  str_split field name = Some (str_split_scan field 0 EmptyString name).
Proof.
  destruct field; [congruence | reflexivity].
Qed.

(** [tok_tokenize] up to the index test, on an argument [field=index]
    whose index is a decimal literal. *)
Lemma tok_tokenize_decimal_index (filepath field index_str : string) (c : ascii)
  (src : string) (idx : nat) :
  field <> EmptyString ->
  decimal_literal index_str = true ->
  tok_tokenize_func filepath
    (mkToken c (Some (field +++ "=" +++ index_str)) src idx) =
  let field_value := field +++ "=" +++ index_str in
  let name := get_basename filepath in
  let tokens := str_split_scan field 0 EmptyString name in
  let index := (value_or 0 index_str - 1)%Z in
  if (index <? 0)%Z then
    ([mkLog WARNING "%r: token index %d (for %r) less than zero"
        [LStr name; LInt index; LStr field_value];
      mkLog WARNING "interpreting the result as a zero-length string" []],
     Return EmptyString)
  else if (index >=? Z.of_nat (List.length tokens))%Z then
    ([mkLog WARNING "%r: token index %d (for %r) too big; file has %d token%s"
        [LStr name; LInt index; LStr field_value;
         LInt (Z.of_nat (List.length tokens));
         LStr (if Nat.eqb (List.length tokens) 1 then "" else "s")];
      mkLog WARNING "interpreting the result as a zero-length string" []],
     Return EmptyString)
  else ret (nth (Z.to_nat index) tokens EmptyString).
Proof.
  intros Hfield Hlit.
  destruct (decimal_literal_spec _ Hlit) as (n & Hint & Hval & _ & _ & _ & Hdec & Hdig).
  assert (Hsep : str_contains TOK_SEPARATOR index_str = false)
    by now apply decimal_excludes.
  unfold value_or. rewrite Hval.
  unfold tok_tokenize_func. cbn [field_value].
  change (field +++ "=" +++ index_str)
    with (field +++ String TOK_SEPARATOR index_str).
  rewrite str_contains_cut. cbn [negb].
  unfold str_rsplit1. rewrite (str_rcut_last _ _ _ Hsep).
  rewrite Hdig. cbn [negb].
  rewrite (str_split_nonempty _ _ Hfield), bind_ret_l.
  unfold int_of_str. rewrite Hint, bind_ret_l.
  cbv zeta.
  destruct (Z.of_N n - 1 <? 0)%Z; [reflexivity |].
  destruct (Z.of_N n - 1 >=? _)%Z; reflexivity.
Qed.

(** An index written with a minus sign is not a digit string. *)
Lemma tok_tokenize_negative_index (filepath field digits : string) (c : ascii)
  (src : string) (idx : nat) :
  str_contains TOK_SEPARATOR digits = false ->
  tok_tokenize_func filepath
    (mkToken c (Some (field +++ "=" +++ String "-" digits)) src idx) =
  raise (FormatApplyError filepath
           (IndexNotNumeric (String "-" digits) (field +++ "=" +++ String "-" digits))).
Proof.
  intros Hd.
  unfold tok_tokenize_func. cbn [field_value].
  change (field +++ "=" +++ String "-" digits)
    with (field +++ String TOK_SEPARATOR (String "-" digits)).
  rewrite str_contains_cut. cbn [negb].
  unfold str_rsplit1. rewrite str_rcut_last.
  - reflexivity.
  - cbn [str_contains Ascii.eqb Bool.eqb TOK_SEPARATOR andb orb]. exact Hd.
Qed.

Lemma is_empty_false (s : string) : is_empty s = false -> s <> EmptyString.
Proof.
  now destruct s.
Qed.

Lemma tok_tokenize_out_of_range (filepath field index_str : string) (c : ascii)
  (src : string) (idx : nat) :
  is_empty field = false ->
  decimal_literal index_str = true ->
  (value_or 0 index_str = 0
   \/ Z.of_nat (List.length (str_split_scan field 0 EmptyString (get_basename filepath)))
      < value_or 0 index_str)%Z ->
  exists r1,
    tok_tokenize_func filepath
      (mkToken c (Some (field +++ "=" +++ index_str)) src idx) =
    ([r1; mkLog WARNING "interpreting the result as a zero-length string" []],
     Return EmptyString)
    /\ levelname r1 = WARNING.
Proof.
  intros Hfield Hlit Hn.
  rewrite (tok_tokenize_decimal_index filepath field index_str c src idx
             (is_empty_false _ Hfield) Hlit).
  cbv zeta.
  destruct (Z.ltb_spec (value_or 0 index_str - 1) 0) as [Hneg | Hpos].
  - eexists. split; reflexivity.
  - destruct Hn as [Hn | Hn]; [lia |].
    destruct (Z.geb_spec (value_or 0 index_str - 1)
                (Z.of_nat (List.length (str_split_scan field 0 EmptyString
                                          (get_basename filepath))))) as [Hge | Hlt].
    + eexists. split; reflexivity.
    + lia.
Qed.

(** C6, as the code has it. For a non-empty field text and an index
    that is a decimal literal, of one to [int_max_str_digits] digits with
    leading zeros allowed, whose value is [0] or greater than the number
    of segments of the basename, [T], [U] and [L] log two warning-level
    records and yield the empty string, without error: ["%(-=4)T"] on
    ["foo-bar-baz.gz"] formats to [""]. An index written with a minus
    sign is not a digit string and raises [FormatApplyError], whatever
    follows the sign. *)
Theorem field_index_out_of_range_is_empty (w : World)
  (filepath field index_str : string) (c : ascii) (src : string) (idx : nat) :
  is_empty field = false ->
  In c ["T"; "U"; "L"]%char ->
  decimal_literal index_str = true ->
  (value_or 0 index_str = 0
   \/ Z.of_nat (List.length (str_split_scan field 0 EmptyString (get_basename filepath)))
      < value_or 0 index_str)%Z ->
  (exists r1 r2 r3,
      apply_token w filepath
        (mkToken c (Some (field +++ "=" +++ index_str)) src idx) =
      ([r1; r2; r3], Return (Some EmptyString))
      /\ levelname r1 = WARNING /\ levelname r2 = WARNING /\ levelname r3 = DEBUG)
  /\ (exists n : N, literal_value index_str = Some (Z.of_N n)
                    /\ value_or 0 index_str = Z.of_N n)
  /\ (forall digits, str_contains TOK_SEPARATOR digits = false ->
        outcome (apply_token w filepath
                   (mkToken c (Some (field +++ "=" +++ String "-" digits)) src idx)) =
        Raise (FormatApplyError filepath
                 (IndexNotNumeric (String "-" digits)
                    (field +++ "=" +++ String "-" digits))))
  /\ outcome (format_path w "foo-bar-baz.gz" "%(-=4)T") = Return "".
Proof.
  intros Hfield Hc Hlit Hn.
  destruct (tok_tokenize_out_of_range filepath field index_str c src idx Hfield Hlit Hn)
    as (r1 & Hfunc & Hlvl).
  split; [| split; [| split; [| reflexivity]]].
  - simpl in Hc. destruct Hc as [<- | [<- | [<- | []]]];
      lookup_token.
    + rewrite Hfunc. do 3 eexists. split; [reflexivity |]. now repeat split.
    + unfold tok_upper_func, tok_tokenize.
      rewrite wrapper_passes by auto. rewrite Hfunc.
      do 3 eexists. split; [reflexivity |]. now repeat split.
    + unfold tok_lower_func, tok_tokenize.
      rewrite wrapper_passes by auto. rewrite Hfunc.
      do 3 eexists. split; [reflexivity |]. now repeat split.
  - destruct (decimal_literal_spec _ Hlit) as (n & _ & Hval & _).
    exists n. split; [exact Hval |]. unfold value_or. now rewrite Hval.
  - intros digits Hd.
    pose proof (tok_tokenize_negative_index filepath field digits c src idx Hd) as Hneg.
    simpl in Hc. destruct Hc as [<- | [<- | [<- | []]]];
      lookup_token.
    + now rewrite Hneg.
    + unfold tok_upper_func, tok_tokenize.
      rewrite wrapper_passes by auto. now rewrite Hneg.
    + unfold tok_lower_func, tok_tokenize.
      rewrite wrapper_passes by auto. now rewrite Hneg.
Qed.

Lemma field_index_out_of_range_is_empty_witness :
  exists r1 r2 r3,
    apply_token example_world "foo-bar-baz.gz"
      (mkToken "U" (Some ("-" +++ "=" +++ "04")) "%(-=04)U" 7) =
    ([r1; r2; r3], Return (Some EmptyString))
    /\ levelname r1 = WARNING /\ levelname r2 = WARNING /\ levelname r3 = DEBUG.
Proof.
  apply (field_index_out_of_range_is_empty example_world "foo-bar-baz.gz" "-"
           "04" "U" "%(-=04)U" 7).
  - reflexivity.
  - simpl. tauto.
  - reflexivity.
  - right. vm_compute. reflexivity.
Defined.

(** C6, as the claim has it, fails on a negative index: ["%(-=-1)T"]
    raises instead of yielding the empty string. *)
Lemma negative_field_index_raises :
  outcome (format_path example_world "foo-bar-baz.gz" "%(-=-1)T") =
    Raise (FormatApplyError "foo-bar-baz.gz" (IndexNotNumeric "-1" "-=-1"))
  /\ outcome (format_path example_world "foo-bar-baz.gz" "%(-=-1)T") <> Return "".
Proof.
  split; [reflexivity | discriminate].
Qed.

(** C3 fails on the code. [C], [T], [U] and [L] without an argument
    raise [TypeError], and [T] with an empty field text raises
    [ValueError]: neither is a [FormatError]. The sibling [M] raises
    [FormatApplyError] for its missing argument. *)
Theorem missing_argument_escapes_engine_errors (w : World) (filepath : string) :
  outcome (format_path w filepath "%C") = Raise TypeError
  /\ outcome (format_path w filepath "%T") = Raise TypeError
  /\ outcome (format_path w filepath "%U") = Raise TypeError
  /\ outcome (format_path w filepath "%L") = Raise TypeError
  /\ outcome (format_path w filepath "%(=1)T") = Raise ValueError
  /\ is_FormatError TypeError = false
  /\ is_FormatError ValueError = false
  /\ outcome (format_path w filepath "%M") =
     Raise (FormatApplyError filepath MissingTimestampFormat).
Proof.
  repeat split; reflexivity.
Qed.

(** C5 fails on the code. A bound of [C] or an index of [T], [U] or [L]
    made of the superscript two passes [isnumber] and [str.isdigit], and
    [int] then raises [ValueError], not [FormatApplyError]. *)
Theorem superscript_digit_escapes_as_ValueError (w : World) (filepath : string) :
  purely_numeric (str_of_char superscript_two) = false
  /\ non_negative_integer_string (str_of_char superscript_two) = false
  /\ isnumber (str_of_char superscript_two) = true
  /\ outcome (format_path w filepath
                ("%(" +++ str_of_char superscript_two +++ ",)C")) = Raise ValueError
  /\ outcome (format_path w filepath
                ("%(," +++ str_of_char superscript_two +++ ")C")) = Raise ValueError
  /\ outcome (format_path w filepath
                ("%(-=" +++ str_of_char superscript_two +++ ")T")) = Raise ValueError
  /\ outcome (format_path w filepath
                ("%(-=" +++ str_of_char superscript_two +++ ")U")) = Raise ValueError
  /\ outcome (format_path w filepath
                ("%(-=" +++ str_of_char superscript_two +++ ")L")) = Raise ValueError
  /\ purely_numeric "+3" = true
  /\ outcome (format_path w filepath "%(+3,)C") =
     Raise (FormatApplyError filepath (BeginNotNumeric "+3")).
Proof.
  repeat split; reflexivity.
Qed.

(** *** What the argument checks do reject *)

Lemma isdigit_without_superscript (s : string) :
  no_superscript s = true -> str_all char_isdigit s = true ->
  str_all char_isdecimal s = true.
Proof.
  induction s as [| a s IH]; simpl; [reflexivity |].
  intros Hn Hd. apply andb_prop in Hn as [Hna Hns]. apply andb_prop in Hd as [Hda Hds].
  rewrite (IH Hns Hds), andb_true_r.
  rewrite Hda in Hna. exact Hna.
Qed.

Lemma isnumber_without_superscript (s : string) :
  no_superscript s = true -> isnumber s = true -> purely_numeric s = true.
Proof.
  intros Hn H. unfold isnumber in H.
  destruct s as [| a r]; [discriminate |].
  cbn [str_startswith] in H.
  destruct (Ascii.eqb_spec a "-") as [-> | Hdash].
  - rewrite substring_tail in H.
    unfold no_superscript in Hn. cbn [str_all] in Hn.
    apply andb_prop in Hn as [_ Hn].
    destruct r as [| b r']; [discriminate |].
    unfold str_isdigit in H. simpl.
    apply (isdigit_without_superscript _ Hn H).
  - unfold str_isdigit in H.
    pose proof (isdigit_without_superscript _ Hn H) as Hd.
    unfold purely_numeric.
    destruct (Ascii.eqb_spec a "+") as [-> | Hplus]; [discriminate |].
    destruct (Ascii.eqb_spec a "-") as [-> | _]; [congruence |].
    exact Hd.
Qed.

Lemma tok_substr_rejects (filepath fv : string) (c : ascii)
  (src : string) (idx : nat) :
  str_contains TOK_COMMA fv = false
  \/ (exists b e,
        fv = b +++ "," +++ e
        /\ str_contains TOK_COMMA b = false
        /\ (is_empty b = false /\ isnumber b = false
            \/ is_empty e = false /\ isnumber e = false)) ->
  exists message,
    tok_substr_func filepath (mkToken c (Some fv) src idx) =
    raise (FormatApplyError filepath message).
Proof.
  unfold tok_substr_func. cbn [field_value].
  intros [H | (b & e & -> & Hb & H)].
  - rewrite H. eexists. reflexivity.
  - change (b +++ "," +++ e) with (b +++ String TOK_COMMA e).
    rewrite str_contains_cut, (str_split1_cut _ _ _ Hb). cbn [negb].
    destruct (is_empty b) eqn:Eb, (isnumber b) eqn:Nb;
      destruct (is_empty e) eqn:Ee, (isnumber e) eqn:Ne;
      cbn [negb andb]; try (eexists; reflexivity);
      destruct H as [[? ?] | [? ?]]; discriminate.
Qed.

Lemma tok_tokenize_rejects (filepath fv : string) (c : ascii)
  (src : string) (idx : nat) :
  str_contains TOK_SEPARATOR fv = false
  \/ (exists field index_str,
        fv = field +++ "=" +++ index_str
        /\ str_contains TOK_SEPARATOR index_str = false
        /\ str_isdigit index_str = false) ->
  exists message,
    tok_tokenize_func filepath (mkToken c (Some fv) src idx) =
    raise (FormatApplyError filepath message).
Proof.
  unfold tok_tokenize_func. cbn [field_value].
  intros [H | (field & index_str & -> & Hi & H)].
  - rewrite H. eexists. reflexivity.
  - change (field +++ "=" +++ index_str)
      with (field +++ String TOK_SEPARATOR index_str).
    rewrite str_contains_cut. unfold str_rsplit1.
    rewrite (str_rcut_last _ _ _ Hi), H. eexists. reflexivity.
Qed.

(** ** The directory of the result *)

Lemma str_endswith_rstrip (c : ascii) (s : string) :
  str_endswith c (str_rstrip c s) = false.
Proof.
  induction s as [| a r IH]; simpl; [reflexivity |].
  destruct (str_rstrip c r) as [| b r'] eqn:E.
  - destruct (Ascii.eqb a c) eqn:Ea; simpl; [reflexivity | exact Ea].
  - exact IH.
Qed.

Lemma str_rstrip_id (c : ascii) (s : string) :
  str_endswith c s = false -> str_rstrip c s = s.
Proof.
  induction s as [| a r IH]; [reflexivity |].
  intros H. destruct r as [| b r'].
  - simpl in H |- *. now rewrite H.
  - change (str_endswith c (String a (String b r')))
      with (str_endswith c (String b r')) in H.
    change (str_rstrip c (String a (String b r')))
      with (match str_rstrip c (String b r') with
            | EmptyString => if Ascii.eqb a c then EmptyString else str_of_char a
            | r'' => String a r''
            end).
    now rewrite (IH H).
Qed.

Lemma str_rstrip_snoc (c : ascii) (s : string) :
  str_rstrip c (s +++ str_of_char c) = str_rstrip c s.
Proof.
  induction s as [| a r IH]; simpl.
  - now rewrite Ascii.eqb_refl.
  - now rewrite IH.
Qed.

Lemma str_rfind_append_absent (c : ascii) (d f : string) :
  str_contains c f = false -> str_rfind c (d +++ f) = str_rfind c d.
Proof.
  intros H. induction d as [| a d IH]; simpl.
  - now apply str_rfind_absent.
  - now rewrite IH.
Qed.

Lemma str_rfind_snoc (c : ascii) (d f : string) :
  str_contains c f = false ->
  str_rfind c (d +++ String c f) = Some (String.length d).
Proof.
  intros H. induction d as [| a d IH]; simpl.
  - now rewrite (str_rfind_absent _ _ H), Ascii.eqb_refl.
  - now rewrite IH.
Qed.

Lemma str_rfind_repeat (c : ascii) (n : nat) :
  str_rfind c (str_repeat c (S n)) = Some n.
Proof.
  induction n as [| n IH].
  - simpl. now rewrite Ascii.eqb_refl.
  - change (str_repeat c (S (S n))) with (String c (str_repeat c (S n))).
    cbn [str_rfind]. now rewrite IH.
Qed.

Lemma str_endswith_repeat (c : ascii) (n : nat) :
  str_endswith c (str_repeat c (S n)) = true.
Proof.
  induction n as [| n IH].
  - simpl. apply Ascii.eqb_refl.
  - exact IH.
Qed.

Lemma length_str_repeat (c : ascii) (n : nat) :
  String.length (str_repeat c n) = n.
Proof.
  induction n as [| n IH]; simpl; [reflexivity | now rewrite IH].
Qed.

Lemma str_repeat_prefix (c : ascii) (d t : string) (n : nat) :
  d +++ t = str_repeat c n -> d = str_repeat c (String.length d).
Proof.
  revert n. induction d as [| a d IH]; intros n H; [reflexivity |].
  destruct n as [| n]; simpl in H; [discriminate |].
  injection H as -> H. simpl. f_equal. now apply IH with n.
Qed.

Lemma os_path_dirname_shape (p : string) : dirname_shape (os_path_dirname p).
Proof.
  unfold os_path_dirname.
  destruct (substring 0 (after_last_sep p) p) as [| a r] eqn:E.
  - now left.
  - destruct (String.eqb_spec (String a r)
                (str_repeat os_sep (String.length (String a r)))) as [Heq | Hne].
    + right. left. exact Heq.
    + right. right. apply str_endswith_rstrip.
Qed.

Lemma os_path_basename_bare (f : string) :
  str_contains os_sep f = false -> os_path_basename f = f.
Proof.
  intros H. unfold os_path_basename, after_last_sep.
  rewrite (str_rfind_absent _ _ H), Nat.sub_0_r. apply substring_whole.
Qed.

Lemma str_startswith_absent (c : ascii) (f : string) :
  str_contains c f = false -> str_startswith c f = false.
Proof.
  destruct f as [| a f]; simpl; [reflexivity |].
  intros H. now apply orb_false_elim in H as [Ha _].
Qed.

(** Joining a fragment without separator to a directory gives a path
    with that directory and that file name. *)
Lemma os_path_split_join (d f : string) :
  dirname_shape d ->
  str_contains os_sep f = false ->
  os_path_dirname (os_path_join d f) = d
  /\ os_path_basename (os_path_join d f) = f.
Proof.
  intros Hd Hf.
  destruct d as [| a d'] eqn:Ed.
  { rewrite os_path_join_empty.
    split; [now apply os_path_dirname_bare | now apply os_path_basename_bare]. }
  rewrite <- Ed in *.
  assert (Hne : d <> EmptyString) by (rewrite Ed; discriminate).
  unfold os_path_join. rewrite (str_startswith_absent _ _ Hf).
  destruct Hd as [Hd | [Hd | Hd]]; [congruence | |].
  - (* all slashes *)
    assert (Hlen : exists n, String.length d = S n)
      by (rewrite Ed; simpl; eauto).
    destruct Hlen as [n Hn].
    assert (Hend : str_endswith os_sep d = true)
      by (rewrite Hd, Hn; apply str_endswith_repeat).
    rewrite Hend.
    replace (match d with EmptyString => d +++ f | String _ _ => d +++ f end)
      with (d +++ f) by now destruct d.
    assert (Hi : after_last_sep (d +++ f) = String.length d).
    { unfold after_last_sep. rewrite (str_rfind_append_absent _ _ _ Hf).
      rewrite Hd at 1. rewrite Hn, str_rfind_repeat. reflexivity. }
    unfold os_path_dirname, os_path_basename. rewrite Hi.
    rewrite substring_prefix.
    replace (String.length (d +++ f) - String.length d) with (String.length f)
      by (rewrite length_append; lia).
    rewrite substring_suffix. split; [| reflexivity].
    rewrite <- Hd, String.eqb_refl. now destruct d.
  - (* no trailing slash *)
    rewrite Hd.
    replace (match d with
             | EmptyString => d +++ f
             | String _ _ => d +++ str_of_char os_sep +++ f
             end) with (d +++ str_of_char os_sep +++ f)
      by (destruct d; [congruence | reflexivity]).
    assert (Hi : after_last_sep (d +++ str_of_char os_sep +++ f) =
                 String.length (d +++ str_of_char os_sep)).
    { unfold after_last_sep. cbn [str_of_char append].
      rewrite (str_rfind_snoc _ _ _ Hf), length_append. simpl. lia. }
    unfold os_path_dirname, os_path_basename. rewrite Hi.
    rewrite <- append_assoc.
    rewrite substring_prefix.
    replace (String.length ((d +++ str_of_char os_sep) +++ f)
             - String.length (d +++ str_of_char os_sep))
      with (String.length f) by (rewrite (length_append _ f); lia).
    rewrite substring_suffix. split; [| reflexivity].
    destruct (String.eqb_spec (d +++ str_of_char os_sep)
                (str_repeat os_sep (String.length (d +++ str_of_char os_sep))))
      as [Heq | Hneq].
    + exfalso. apply str_repeat_prefix in Heq.
      assert (Hlen : exists n, String.length d = S n)
        by (rewrite Ed; simpl; eauto).
      destruct Hlen as [n Hn].
      rewrite Heq, Hn, str_endswith_repeat in Hd. discriminate.
    + rewrite str_rstrip_snoc, (str_rstrip_id _ _ Hd).
      destruct (d +++ str_of_char os_sep) eqn:E; [| reflexivity].
      destruct d; discriminate.
Qed.

(** When [format_path] returns, its result is [os.path.join] of the
    directory of the input path, as [os.path.dirname] gives it, and the
    concatenation of what the tokens evaluated to. When that fragment
    holds no separator, the result has the directory of the input path
    and the fragment as its file name. *)
Lemma format_path_keeps_directory (w : World)
  (filepath format_string result : string) :
  outcome (format_path w filepath format_string) = Return result ->
  exists tokens output,
    outcome (parse_format_string format_string) = Return tokens
    /\ outcome (format_loop w filepath tokens []) = Return output
    /\ result = os_path_join (os_path_dirname filepath) (str_join output)
    /\ (str_contains os_sep (str_join output) = false ->
        os_path_dirname result = os_path_dirname filepath
        /\ os_path_basename result = str_join output).
Proof.
  intros H. unfold format_path in H.
  apply outcome_bind_return in H as (tokens & Hparse & H).
  apply outcome_bind_return in H as (output & Hloop & H).
  rewrite outcome_bind_logger in H. simpl in H. injection H as <-.
  exists tokens, output. repeat split; try assumption.
  - now apply os_path_split_join; [apply os_path_dirname_shape |].
  - now apply os_path_split_join; [apply os_path_dirname_shape |].
Qed.

Lemma format_path_literal (w : World) (filepath s : string) :
  str_contains TOK_SPECIAL s = false ->
  outcome (format_path w filepath s) =
  Return (os_path_join (os_path_dirname filepath) s).
Proof.
  intros H.
  rewrite (format_path_outcome w filepath s _ (parse_literals s H)).
  rewrite format_loop_literals. simpl. now rewrite str_join_chars.
Qed.

(** C9 fails on the code. [format_path] hands the fragment to
    [os.path.join] as it is, and a separator in it, from the format
    string or from what a directive yields, changes the directory of the
    result: ["a/b"] formats ["dir/foo.txt"] to ["dir/a/b"], in the
    directory ["dir/a"], and ["%(/x)M"], through [strftime], formats a
    file of ["dir"] to ["/x"]. A format string without directive that
    starts with a separator is returned as it is, whatever the path. *)
Theorem separator_in_fragment_changes_directory (w : World) (filepath : string) :
  outcome (format_path w "dir/foo.txt" "a/b") = Return "dir/a/b"
  /\ os_path_dirname "dir/foo.txt" = "dir"
  /\ os_path_dirname "dir/a/b" = "dir/a"
  /\ outcome (format_path example_world "dir/foo-bar-baz.gz" "%(/x)M") = Return "/x"
  /\ os_path_dirname "dir/foo-bar-baz.gz" = "dir"
  /\ os_path_dirname "/x" = "/"
  /\ outcome (format_path w filepath "/etc/passwd") = Return "/etc/passwd"
  /\ (forall s, str_contains TOK_SPECIAL s = false ->
        str_startswith os_sep s = true ->
        outcome (format_path w filepath s) = Return s).
Proof.
  repeat split; try reflexivity.
  intros s Hs Hsep. rewrite (format_path_literal w filepath s Hs).
  unfold os_path_join. now rewrite Hsep.
Qed.

(** ** Basename and extension *)

Lemma str_rcut_some (c : ascii) (s x y : string) :
  str_rcut c s = Some (x, y) ->
  s = x +++ String c y /\ str_contains c y = false.
Proof.
  revert x y. induction s as [| a r IH]; intros x y H; simpl in H; [discriminate |].
  destruct (str_rcut c r) as [[x' y'] |] eqn:E.
  - injection H as <- <-. destruct (IH x' y' eq_refl) as [-> Hy]. now split.
  - destruct (Ascii.eqb_spec a c) as [-> |]; [| discriminate].
    injection H as <- <-. split; [reflexivity |].
    clear IH. induction r as [| b r IHr]; [reflexivity |].
    simpl in E |- *. destruct (str_rcut c r) as [[? ?] |]; [discriminate |].
    destruct (Ascii.eqb b c); [discriminate |]. now apply IHr.
Qed.

Lemma str_rcut_present (c : ascii) (s : string) :
  str_contains c s = true -> exists x y, str_rcut c s = Some (x, y).
Proof.
  induction s as [| a r IH]; simpl; [discriminate |].
  intros H. destruct (str_rcut c r) as [[x y] |] eqn:E; [eauto |].
  destruct (Ascii.eqb a c); [eauto |].
  simpl in H. destruct (IH H) as (x & y & Hxy). discriminate.
Qed.

Lemma str_rfind_rcut (c : ascii) (s : string) :
  str_rfind c s =
  match str_rcut c s with
  | Some (x, _) => Some (String.length x)
  | None => None
  end.
Proof.
  induction s as [| a r IH]; simpl; [reflexivity |].
  rewrite IH. destruct (str_rcut c r) as [[x y] |]; [reflexivity |].
  now destruct (Ascii.eqb a c).
Qed.

Lemma os_path_basename_rcut (p : string) :
  os_path_basename p =
  match str_rcut os_sep p with
  | Some (_, y) => y
  | None => p
  end.
Proof.
  unfold os_path_basename, after_last_sep. rewrite str_rfind_rcut.
  destruct (str_rcut os_sep p) as [[x y] |] eqn:E.
  - apply str_rcut_some in E as [-> _].
    rewrite append_snoc.
    replace (S (String.length x)) with (String.length (x +++ str_of_char os_sep))
      by (rewrite length_append; simpl; lia).
    replace (String.length ((x +++ str_of_char os_sep) +++ y)
             - String.length (x +++ str_of_char os_sep))
      with (String.length y) by (rewrite (length_append _ y); lia).
    apply substring_suffix.
  - rewrite Nat.sub_0_r. apply substring_whole.
Qed.

Lemma os_path_basename_no_sep (p : string) :
  str_contains os_sep (os_path_basename p) = false.
Proof.
  rewrite os_path_basename_rcut.
  destruct (str_rcut os_sep p) as [[x y] |] eqn:E.
  - now apply str_rcut_some in E.
  - destruct (str_contains os_sep p) eqn:C; [| reflexivity].
    destruct (str_rcut_present _ _ C) as (x & y & H). congruence.
Qed.

Lemma str_endswith_snoc (c a : ascii) (x : string) :
  str_endswith c (x +++ str_of_char a) = Ascii.eqb a c.
Proof.
  induction x as [| b x IH]; [reflexivity |].
  destruct x as [| d x']; [reflexivity | exact IH].
Qed.

Lemma str_endswith_inv (c : ascii) (s : string) :
  str_endswith c s = true -> exists x, s = x +++ str_of_char c.
Proof.
  induction s as [| a r IH]; [discriminate |].
  destruct r as [| b r'].
  - simpl. intros H. apply Ascii.eqb_eq in H as ->. now exists EmptyString.
  - intros H. destruct (IH H) as [x Hx]. exists (String a x). simpl. now rewrite <- Hx.
Qed.

(** The base name and extension of a path cut its file name at the last
    extension separator. *)
Lemma basename_extension_rcut (filepath : string) :
  match str_rcut os_extsep (os_path_basename filepath) with
  | Some (x, y) => get_basename filepath = x /\ get_extension filepath = y
  | None =>
      get_basename filepath = os_path_basename filepath
      /\ get_extension filepath = EmptyString
  end.
Proof.
  unfold get_basename, get_extension, str_rsplit1.
  destruct (str_rcut os_extsep (os_path_basename filepath)) as [[x y] |]; now split.
Qed.

Lemma basename_extension_facts (filepath : string) :
  let name := os_path_basename filepath in
  (str_contains os_extsep name = true ->
     name = get_basename filepath +++ str_of_char os_extsep +++ get_extension filepath
     /\ str_contains os_extsep (get_extension filepath) = false)
  /\ (str_contains os_extsep name = false ->
        get_basename filepath = name /\ get_extension filepath = EmptyString)
  /\ str_contains os_sep (get_basename filepath) = false
  /\ str_contains os_sep (get_extension filepath) = false.
Proof.
  intros name. pose proof (basename_extension_rcut filepath) as H.
  pose proof (os_path_basename_no_sep filepath) as Hsep. fold name in H, Hsep.
  destruct (str_rcut os_extsep name) as [[x y] |] eqn:E.
  - destruct H as [-> ->]. apply str_rcut_some in E as [E Hy].
    rewrite E, str_contains_append in Hsep. simpl in Hsep.
    apply orb_false_elim in Hsep as [Hx Hy'].
    split; [intros _; now split |].
    split; [| now split].
    intros C. rewrite E, str_contains_cut in C. discriminate.
  - destruct H as [-> ->].
    split.
    { intros C. destruct (str_rcut_present _ _ C) as (x' & y' & H'). congruence. }
    split; [intros _; now split |].
    now split.
Qed.

(** X1. The file name of a path that holds an extension separator is its
    base name, the separator and its extension, and the extension holds
    no separator; a file name without extension separator is its own
    base name and has the empty extension. Neither part holds a
    directory separator. *)
Theorem basename_extension_split (filepath : string) :
  let name := os_path_basename filepath in
  (str_contains os_extsep name = true ->
     name = get_basename filepath +++ str_of_char os_extsep +++ get_extension filepath
     /\ str_contains os_extsep (get_extension filepath) = false)
  /\ (str_contains os_extsep name = false ->
        get_basename filepath = name /\ get_extension filepath = EmptyString)
  /\ str_contains os_sep (get_basename filepath) = false
  /\ str_contains os_sep (get_extension filepath) = false.
Proof.
  intros name.
  destruct (basename_extension_facts filepath) as (Hdot & Hnodot & Hb & He).
  fold name in Hdot, Hnodot.
  split; [exact Hdot |]. split; [exact Hnodot |]. now split.
Qed.

Lemma os_path_basename_join (d f : string) :
  str_contains os_sep f = false -> os_path_basename (os_path_join d f) = f.
Proof.
  intros Hf. unfold os_path_join. rewrite (str_startswith_absent _ _ Hf).
  destruct d as [| a d'] eqn:Ed.
  - now apply os_path_basename_bare.
  - rewrite <- Ed. clear Ed a d'.
    rewrite os_path_basename_rcut.
    destruct (str_endswith os_sep d) eqn:E.
    + apply str_endswith_inv in E as [x ->].
      rewrite append_assoc. cbn [str_of_char append].
      now rewrite (str_rcut_last _ _ _ Hf).
    + cbn [str_of_char append]. now rewrite (str_rcut_last _ _ _ Hf).
Qed.

(** X2. ["%B%.%E"] and ["%B.%E"] format a path to its directory joined
    with base name, separator and extension. For a file name that holds
    an extension separator that is the file name itself, and the result
    has the directory and the file name of the path; for a file name
    without one, the result ends in a bare separator. *)
Theorem basename_and_extension_rebuild_name (w : World) (filepath : string) :
  let name := os_path_basename filepath in
  let rebuilt := get_basename filepath +++ str_of_char os_extsep
                 +++ get_extension filepath in
  outcome (format_path w filepath "%B%.%E") =
    Return (os_path_join (os_path_dirname filepath) rebuilt)
  /\ outcome (format_path w filepath "%B.%E") =
    Return (os_path_join (os_path_dirname filepath) rebuilt)
  /\ (str_contains os_extsep name = true ->
        rebuilt = name
        /\ os_path_dirname (os_path_join (os_path_dirname filepath) rebuilt) =
           os_path_dirname filepath
        /\ os_path_basename (os_path_join (os_path_dirname filepath) rebuilt) =
           name)
  /\ (str_contains os_extsep name = false ->
        rebuilt = name +++ str_of_char os_extsep).
Proof.
  intros name rebuilt.
  destruct (basename_extension_facts filepath) as (Hdot & Hnodot & _ & _).
  fold name in Hdot, Hnodot.
  split; [reflexivity |]. split; [reflexivity |]. split.
  - intros C. destruct (Hdot C) as [Hname _].
    fold rebuilt in Hname. rewrite <- Hname.
    split; [reflexivity |].
    apply os_path_split_join; [apply os_path_dirname_shape |].
    apply os_path_basename_no_sep.
  - intros C. destruct (Hnodot C) as [Hb He].
    unfold rebuilt. now rewrite Hb, He.
Qed.

(** ** The slice of the base name *)

(** C4, as the code has it. On an argument [begin,end] whose sides are
    each empty or a signed literal, that is an optional minus sign and
    one to [int_max_str_digits] decimal digits, leading zeros allowed,
    the token function of [C] returns the slice of the base name between
    the values of the two sides, [0] standing in for an empty [begin]
    and the length for an empty [end], and [format_path] returns that
    slice joined to the directory. The slice takes a bound within the
    string as it is, counts a negative bound from the end and clamps
    what is out of range; [%(,)C] is the whole base name, and
    ["%(1,2)C%.%E"] formats ["foobar.txt"] to ["o.txt"]. The base name
    is the file name up to its last extension separator. A side
    written with a plus sign raises [FormatApplyError]. *)
Theorem substr_directive_is_slice (w : World)
  (filepath begin_str end_str : string) (src : string) (idx : nat) :
  slice_bound_text begin_str = true ->
  slice_bound_text end_str = true ->
  let name := get_basename filepath in
  let begin_pos := value_or 0 begin_str in
  let end_pos := value_or (Z.of_nat (String.length name)) end_str in
  let t := mkToken "C" (Some (begin_str +++ "," +++ end_str)) src idx in
  tok_substr_func filepath t = ret (py_slice name begin_pos end_pos)
  /\ outcome (apply_token w filepath t) =
     Return (Some (py_slice name begin_pos end_pos))
  /\ outcome (format_path w filepath
                ("%(" +++ (begin_str +++ "," +++ end_str) +++ ")"
                 +++ str_of_char "C")) =
     Return (os_path_join (os_path_dirname filepath)
               (py_slice name begin_pos end_pos))
  /\ (is_empty begin_str = false -> literal_value begin_str = Some begin_pos)
  /\ (is_empty end_str = false -> literal_value end_str = Some end_pos)
  /\ (forall s i j, (0 <= i <= j)%Z -> (j <= Z.of_nat (String.length s))%Z ->
        py_slice s i j = substring (Z.to_nat i) (Z.to_nat j - Z.to_nat i) s)
  /\ (forall s i j, (i < 0)%Z ->
        py_slice s i j = py_slice s (Z.max 0 (Z.of_nat (String.length s) + i)) j
        /\ py_slice s j i = py_slice s j (Z.max 0 (Z.of_nat (String.length s) + i)))
  /\ (forall s i j, (Z.of_nat (String.length s) < i)%Z ->
        py_slice s i j = py_slice s (Z.of_nat (String.length s)) j
        /\ py_slice s j i = py_slice s j (Z.of_nat (String.length s)))
  /\ outcome (apply_token w filepath (mkToken "C" (Some ",") src idx)) =
     Return (Some name)
  /\ outcome (format_path w "foobar.txt" "%(1,2)C%.%E") = Return "o.txt"
  /\ (str_contains os_extsep (os_path_basename filepath) = false ->
        name = os_path_basename filepath)
  /\ (str_contains os_extsep (os_path_basename filepath) = true ->
        os_path_basename filepath =
        name +++ str_of_char os_extsep +++ get_extension filepath
        /\ str_contains os_extsep (get_extension filepath) = false)
  /\ (forall digits, str_contains TOK_COMMA digits = false ->
        outcome (apply_token w filepath
                   (mkToken "C" (Some (String "+" digits +++ "," +++ end_str))
                      src idx)) =
        Raise (FormatApplyError filepath (BeginNotNumeric (String "+" digits))))
  /\ (forall digits,
        outcome (apply_token w filepath
                   (mkToken "C" (Some (begin_str +++ "," +++ String "+" digits))
                      src idx)) =
        Raise (FormatApplyError filepath (EndNotNumeric (String "+" digits)))).
Proof.
  intros Hb He name begin_pos end_pos t.
  pose proof (tok_substr_well_formed filepath begin_str end_str "C" src idx Hb He)
    as Hfunc.
  fold name begin_pos end_pos t in Hfunc.
  assert (Happly : forall src' idx',
             outcome (apply_token w filepath
                        (mkToken "C" (Some (begin_str +++ "," +++ end_str))
                           src' idx')) =
             Return (Some (py_slice name begin_pos end_pos))).
  { intros src' idx'. lookup_token.
    rewrite (tok_substr_well_formed filepath begin_str end_str "C" src' idx' Hb He).
    reflexivity. }
  destruct (slice_bound_text_spec begin_str 0 Hb) as [Hxb Hvb].
  destruct (slice_bound_text_spec end_str (Z.of_nat (String.length name)) He)
    as [Hxe Hve].
  destruct (basename_extension_facts filepath) as (Hdot & Hnodot & _ & _).
  split; [exact Hfunc |].
  split; [apply Happly |].
  split.
  { assert (Hparen : str_contains ")" (begin_str +++ "," +++ end_str) = false).
    { rewrite !str_contains_append, Hxb, Hxe by reflexivity. reflexivity. }
    rewrite (format_path_outcome w filepath _ _ (parse_single_argument "C" _ Hparen)).
    cbn [format_loop]. rewrite outcome_bind, Happly. reflexivity. }
  split.
  { intros E. unfold slice_bound_text in Hb. rewrite E in Hb.
    destruct (signed_literal_spec _ Hb) as (z & _ & Hv & _).
    unfold begin_pos, value_or. now rewrite Hv. }
  split.
  { intros E. unfold slice_bound_text in He. rewrite E in He.
    destruct (signed_literal_spec _ He) as (z & _ & Hv & _).
    unfold end_pos, value_or. now rewrite Hv. }
  split.
  { intros s i j Hi Hj. unfold py_slice.
    rewrite !slice_bound_in_range by lia. reflexivity. }
  split.
  { intros s i j Hi. unfold py_slice.
    now rewrite <- !(slice_bound_negative _ i Hi). }
  split.
  { intros s i j Hi. unfold py_slice.
    now rewrite <- !(slice_bound_beyond _ i Hi). }
  split.
  { pose proof (tok_substr_well_formed filepath EmptyString EmptyString "C" src idx
                  eq_refl eq_refl) as H0.
    cbn [append] in H0. lookup_token.
    rewrite H0. fold name.
    change (value_or 0 EmptyString) with 0%Z.
    change (value_or (Z.of_nat (String.length name)) EmptyString)
      with (Z.of_nat (String.length name)).
    rewrite py_slice_whole. reflexivity. }
  split; [reflexivity |].
  split; [intros C; now destruct (Hnodot C) |].
  split; [exact Hdot |].
  split.
  { intros digits Hd. lookup_token.
    now rewrite (tok_substr_plus_sign filepath digits end_str "C" src idx Hd). }
  intros digits. lookup_token.
  now rewrite (tok_substr_plus_sign_end filepath begin_str digits "C" src idx Hb).
Qed.

Lemma substr_directive_is_slice_witness :
  outcome (apply_token example_world "dir/foobar.txt"
             (mkToken "C" (Some ("01" +++ "," +++ "-02")) "%(01,-02)C" 9)) =
  Return (Some "oob").
Proof.
  apply (substr_directive_is_slice example_world "dir/foobar.txt" "01" "-02"
           "%(01,-02)C" 9); reflexivity.
Defined.

(** C4, as the claim has it, fails on a bound written with a plus
    sign: it is an optionally signed integer, and ["%(+1,2)C"] raises
    instead of yielding the slice ["o"] of ["foobar"], which ["%(1,2)C"]
    yields. *)
Lemma plus_signed_bound_raises :
  purely_numeric "+1" = true
  /\ outcome (format_path example_world "foobar.txt" "%(+1,2)C") =
     Raise (FormatApplyError "foobar.txt" (BeginNotNumeric "+1"))
  /\ outcome (format_path example_world "foobar.txt" "%(+1,2)C") <> Return "o"
  /\ outcome (format_path example_world "foobar.txt" "%(1,2)C") = Return "o".
Proof.
  split; [reflexivity |]. split; [reflexivity |]. split; [discriminate | reflexivity].
Qed.

(** ** split_path and join_path *)

Lemma split_path_parts (file_path : string) :
  split_path file_path =
  (os_path_dirname file_path, get_basename file_path, get_extension file_path).
Proof.
  unfold split_path, get_basename, get_extension.
  now rewrite (os_path_basename_bare _ (os_path_basename_no_sep file_path)).
Qed.

(** X3. Splitting a path and joining the pieces keeps its directory and,
    unless its file name ends in an extension separator, its file name;
    such a final separator is dropped. *)
Theorem join_path_of_split_path (file_path : string) :
  let '(file_dir, file_base, file_ext) := split_path file_path in
  let joined := join_path file_dir file_base file_ext in
  os_path_dirname joined = os_path_dirname file_path
  /\ os_path_basename joined =
     (if is_empty file_ext then file_base else os_path_basename file_path)
  /\ (str_endswith os_extsep (os_path_basename file_path) = false ->
      os_path_basename joined = os_path_basename file_path)
  /\ (str_endswith os_extsep (os_path_basename file_path) = true ->
      os_path_basename joined +++ str_of_char os_extsep =
      os_path_basename file_path).
Proof.
  rewrite split_path_parts. cbv zeta.
  destruct (basename_extension_facts file_path) as (Hdot & Hnodot & Hb & He).
  pose proof (basename_extension_rcut file_path) as Hcut.
  set (name := os_path_basename file_path) in *.
  set (b := get_basename file_path) in *.
  set (e := get_extension file_path) in *.
  assert (Hname : str_contains os_sep (if is_empty e then b
                                      else b +++ str_of_char os_extsep +++ e) = false).
  { destruct (is_empty e); [exact Hb |].
    rewrite !str_contains_append, Hb, He. reflexivity. }
  unfold join_path.
  destruct (os_path_split_join (os_path_dirname file_path) _
              (os_path_dirname_shape file_path) Hname) as [Hd Hn].
  assert (Hbase : os_path_basename
                    (os_path_join (os_path_dirname file_path)
                       (if is_empty e then b else b +++ str_of_char os_extsep +++ e)) =
                  (if is_empty e then b else name)).
  { rewrite Hn. destruct (is_empty e) eqn:Ee; [reflexivity |].
    destruct (str_contains os_extsep name) eqn:C.
    - symmetry. now apply Hdot.
    - destruct (Hnodot eq_refl) as [_ He']. rewrite He' in Ee. discriminate. }
  split; [exact Hd |]. split; [exact Hbase |]. split.
  - intros Hend. rewrite Hbase.
    destruct (is_empty e) eqn:Ee; [| reflexivity].
    destruct (str_rcut os_extsep name) as [[x y] |] eqn:E.
    + destruct Hcut as [Hx Hy]. apply str_rcut_some in E as [E _].
      destruct e; [| discriminate]. subst y.
      rewrite E in Hend.
      change (x +++ String os_extsep EmptyString) with (x +++ str_of_char os_extsep) in Hend.
      rewrite str_endswith_snoc, Ascii.eqb_refl in Hend. discriminate.
    + now destruct Hcut.
  - intros Hend. rewrite Hbase.
    apply str_endswith_inv in Hend as [x Hx].
    assert (Hcut' : str_rcut os_extsep name = Some (x, EmptyString))
      by (rewrite Hx; now apply str_rcut_last).
    rewrite Hcut' in Hcut. destruct Hcut as [-> ->]. simpl. now rewrite Hx.
Qed.

(** X4. Joining a directory as [os.path.dirname] returns it, a base name
    and an extension that hold no directory separator, with no extension
    separator in the extension, and splitting the result gives the three
    pieces back, provided the extension is not empty or the base name
    holds no extension separator. *)
Theorem split_path_of_join_path (file_dir file_base file_ext : string) :
  dirname_shape file_dir ->
  str_contains os_sep file_base = false ->
  str_contains os_sep file_ext = false ->
  str_contains os_extsep file_ext = false ->
  is_empty file_ext = false \/ str_contains os_extsep file_base = false ->
  split_path (join_path file_dir file_base file_ext) =
  (file_dir, file_base, file_ext).
Proof.
  intros Hd Hb He Hdot Hcase.
  rewrite split_path_parts. unfold join_path.
  set (file_name := if is_empty file_ext then file_base
                    else file_base +++ str_of_char os_extsep +++ file_ext).
  assert (Hname : str_contains os_sep file_name = false).
  { unfold file_name. destruct (is_empty file_ext); [exact Hb |].
    rewrite !str_contains_append, Hb, He. reflexivity. }
  destruct (os_path_split_join file_dir file_name Hd Hname) as [Hdir Hbase].
  pose proof (basename_extension_rcut (os_path_join file_dir file_name)) as Hcut.
  rewrite Hbase in Hcut. rewrite Hdir.
  clear Hdir Hbase Hname. unfold file_name in *. clear file_name.
  destruct (is_empty file_ext) eqn:Ee.
  - destruct file_ext; [| discriminate].
    destruct Hcase as [Hc | Hc]; [discriminate |].
    rewrite (str_rcut_absent _ _ Hc) in Hcut. destruct Hcut as [-> ->]. reflexivity.
  - cbn [str_of_char append] in Hcut |- *.
    rewrite (str_rcut_last _ _ _ Hdot) in Hcut. destruct Hcut as [-> ->]. reflexivity.
Qed.

Lemma split_path_of_join_path_witness :
  split_path (join_path "a//b" "archive.tar" "gz") = ("a//b", "archive.tar", "gz").
Proof.
  apply split_path_of_join_path.
  - right. right. reflexivity.
  - reflexivity.
  - reflexivity.
  - reflexivity.
  - left. reflexivity.
Defined.

(** ** parse_regex_arg *)

Lemma str_count_append (c : ascii) (s t : string) :
  str_count c (s +++ t) = str_count c s + str_count c t.
Proof.
  induction s as [| a s IH]; simpl; [reflexivity | rewrite IH; lia].
Qed.

Lemma str_count_absent (c : ascii) (s : string) :
  str_contains c s = false <-> str_count c s = 0.
Proof.
  induction s as [| a s IH]; simpl; [tauto |].
  destruct (Ascii.eqb a c); simpl; [split; [discriminate | lia] | exact IH].
Qed.

Lemma str_count_one (c : ascii) (s : string) :
  str_count c s = 1 ->
  exists x y, s = x +++ String c y
              /\ str_contains c x = false /\ str_contains c y = false.
Proof.
  induction s as [| a s IH]; simpl; [discriminate |].
  destruct (Ascii.eqb_spec a c) as [-> | Hne]; simpl; intros H.
  - exists EmptyString, s. repeat split. apply str_count_absent. lia.
  - destruct (IH H) as (x & y & -> & Hx & Hy).
    exists (String a x), y. repeat split; try assumption.
    simpl. rewrite Hx. now apply Ascii.eqb_neq in Hne as ->.
Qed.

Lemma parse_regex_arg_well_formed (old new : string) :
  str_contains os_sep old = false ->
  str_contains os_sep new = false ->
  parse_regex_arg (ArgStr ("s/" +++ old +++ "/" +++ new +++ "/")) =
  ret (Some [old; new]).
Proof.
  intros Ho Hn. unfold parse_regex_arg.
  set (mid := old +++ "/" +++ new).
  change ("s/" +++ old +++ "/" +++ new +++ "/") with ("s/" +++ old +++ String "/" (new +++ "/")).
  replace ("s/" +++ old +++ String "/" (new +++ "/")) with ("s/" +++ mid +++ "/")
    by (unfold mid; now rewrite !append_assoc).
  assert (Hpre : prefix "s/" ("s/" +++ mid +++ "/") = true)
    by (apply prefix_correct; apply substring_prefix).
  assert (Hend : str_endswith "/" ("s/" +++ mid +++ "/") = true).
  { rewrite <- !append_assoc. change "/" with (str_of_char "/") at 2.
    rewrite str_endswith_snoc. reflexivity. }
  assert (Hcount : str_count "/" ("s/" +++ mid +++ "/") = 3).
  { unfold mid. rewrite !str_count_append.
    apply str_count_absent in Ho, Hn. unfold os_sep in Ho, Hn.
    rewrite Ho, Hn. reflexivity. }
  rewrite Hpre, Hend, Hcount. cbn [negb orb Nat.eqb].
  assert (Hslice : py_slice ("s/" +++ mid +++ "/") 2 (-1) = mid).
  { unfold py_slice, slice_bound.
    rewrite !length_append. cbn [String.length Z.ltb Z.compare].
    replace (Nat.min (Z.to_nat 2) (2 + (String.length mid + 1))) with 2 by lia.
    replace (Z.to_nat (Z.max 0 (-1 + Z.of_nat (2 + (String.length mid + 1)))) - 2)
      with (String.length mid) by lia.
    change 2 with (String.length "s/").
    rewrite substring_skip. apply substring_prefix. }
  rewrite Hslice. unfold mid.
  change (old +++ "/" +++ new) with (old +++ String os_sep new).
  now rewrite (str_split1_cut _ _ _ Ho).
Qed.

(** X5. Called with a string, [parse_regex_arg] returns the pair
    [[OLD, NEW]] exactly on the arguments [s/OLD/NEW/] in which neither
    part holds a slash; on every other string it logs one error-level
    record and returns [(None, None)], and it raises on none. Called
    with a list, which is what [main] passes for an option that
    argparse appends to, it raises [AttributeError] before it logs
    anything, whatever the list holds. *)
Theorem parse_regex_arg_accepts_s_old_new (arg : string) :
  (forall old new,
      str_contains os_sep old = false -> str_contains os_sep new = false ->
      parse_regex_arg (ArgStr ("s/" +++ old +++ "/" +++ new +++ "/")) =
      ret (Some [old; new]))
  /\ (forall r, outcome (parse_regex_arg (ArgStr arg)) = Return (Some r) ->
        exists old new,
          r = [old; new]
          /\ arg = "s/" +++ old +++ "/" +++ new +++ "/"
          /\ str_contains os_sep old = false /\ str_contains os_sep new = false)
  /\ (outcome (parse_regex_arg (ArgStr arg)) = Return None ->
        exists record, logged (parse_regex_arg (ArgStr arg)) = [record]
                       /\ levelname record = ERROR)
  /\ (forall e, outcome (parse_regex_arg (ArgStr arg)) <> Raise e)
  /\ (forall l, parse_regex_arg (ArgList l) = raise AttributeError)
  /\ parse_regex_arg (ArgList ["s/a/b/"]) = raise AttributeError
  /\ is_FormatError AttributeError = false.
Proof.
  split; [intros; now apply parse_regex_arg_well_formed |].
  split.
  - intros r H.
    assert (Hcond : prefix "s/" arg = true /\ str_endswith "/" arg = true
                    /\ str_count "/" arg = 3).
    { unfold parse_regex_arg in H.
      destruct (prefix "s/" arg), (str_endswith "/" arg),
        (Nat.eqb_spec (str_count "/" arg) 3); try discriminate. auto. }
    destruct Hcond as (Hp & He & Hc).
    apply prefix_correct in Hp.
    destruct arg as [| a0 [| a1 rest]]; try discriminate.
    simpl in Hp. injection Hp as -> -> _.
    destruct rest as [| a2 rest']; [discriminate |].
    change (str_endswith "/" (String "s" (String "/" (String a2 rest'))))
      with (str_endswith "/" (String a2 rest')) in He.
    apply str_endswith_inv in He as [mid Hmid].
    rewrite Hmid in Hc, H |- *. clear Hmid a2 rest'.
    cbn [str_count Ascii.eqb Bool.eqb andb] in Hc.
    rewrite str_count_append in Hc. simpl in Hc.
    destruct (str_count_one "/" mid) as (old & new & -> & Ho & Hn); [lia |].
    exists old, new.
    assert (Harg : String "s" (String "/" ((old +++ String "/" new) +++ str_of_char "/")) =
                   "s/" +++ old +++ "/" +++ new +++ "/")
      by (simpl; now rewrite !append_assoc).
    rewrite Harg in H |- *.
    rewrite (parse_regex_arg_well_formed old new Ho Hn) in H.
    simpl in H. injection H as <-. now repeat split.
  - split; [| split; [| repeat split]].
    + intros H. unfold parse_regex_arg in *.
      destruct (negb (prefix "s/" arg) || negb (str_endswith "/" arg)
                || negb (Nat.eqb (str_count "/" arg) 3)); [| discriminate].
      eexists. split; reflexivity.
    + intros e. unfold parse_regex_arg.
      destruct (negb (prefix "s/" arg) || negb (str_endswith "/" arg)
                || negb (Nat.eqb (str_count "/" arg) 3)); discriminate.
Qed.

(** ** rename_file and read_file *)





(** ** What the parser returns *)

Lemma substring_empty (n m : nat) : substring n m EmptyString = EmptyString.
Proof.
  destruct n, m; reflexivity.
Qed.

Lemma substring_zero (n : nat) (s : string) : substring n 0 s = EmptyString.
Proof.
  revert n. induction s as [| a s IH]; intros n; [apply substring_empty |].
  destruct n; [reflexivity | apply IH].
Qed.

Lemma substring_add (s : string) :
  forall i n m,
    substring i (n + m) s = substring i n s +++ substring (i + n) m s.
Proof.
  induction s as [| a s IH]; intros i n m.
  - now rewrite !substring_empty.
  - destruct i as [| i].
    + destruct n as [| n]; [reflexivity |].
      simpl. f_equal. apply (IH 0 n m).
    + destruct n as [| n].
      * simpl. rewrite substring_zero, Nat.add_0_r. reflexivity.
      * change (substring (S i) (S n + m) (String a s)) with (substring i (S n + m) s).
        change (substring (S i) (S n) (String a s)) with (substring i (S n) s).
        change (substring (S i + S n) m (String a s)) with (substring (i + S n) m s).
        apply IH.
Qed.

Lemma substring_one (s : string) (i : nat) (c : ascii) :
  get i s = Some c -> substring i 1 s = str_of_char c.
Proof.
  revert i. induction s as [| a s IH]; intros i H; [destruct i; discriminate |].
  destruct i as [| i]; simpl in H |- *.
  - injection H as ->. now rewrite substring_zero.
  - now apply IH.
Qed.

Lemma substring_snoc (s : string) (i : nat) (c : ascii) :
  get i s = Some c ->
  substring 0 (i + 1) s = substring 0 i s +++ str_of_char c.
Proof.
  intros H. rewrite substring_add. simpl. now rewrite (substring_one _ _ _ H).
Qed.

Lemma length_substring (s : string) (i : nat) :
  i <= String.length s -> String.length (substring 0 i s) = i.
Proof.
  revert i. induction s as [| a s IH]; intros i H; simpl in H.
  - now replace i with 0 by lia.
  - destruct i as [| i]; [reflexivity |]. simpl. rewrite IH; lia.
Qed.

Lemma string_split_at (s : string) (i : nat) :
  i <= String.length s ->
  s = substring 0 i s +++ substring i (String.length s - i) s.
Proof.
  intros H. rewrite <- (substring_add s 0 i).
  replace (i + (String.length s - i)) with (String.length s) by lia.
  symmetry. apply substring_whole.
Qed.

Lemma str_find_some (c : ascii) (s : string) (k : nat) :
  str_find c s = Some k ->
  exists x y, s = x +++ String c y
              /\ String.length x = k /\ str_contains c x = false.
Proof.
  revert k. induction s as [| a s IH]; intros k H; simpl in H; [discriminate |].
  destruct (Ascii.eqb_spec a c) as [-> | Hne].
  - injection H as <-. now exists EmptyString, s.
  - destruct (str_find c s) as [k' |]; [| discriminate].
    injection H as <-. destruct (IH k' eq_refl) as (x & y & -> & Hl & Hx).
    exists (String a x), y. simpl. rewrite Hl, Hx.
    apply Ascii.eqb_neq in Hne as ->. now repeat split.
Qed.

(** [_consume_until] from an index within the string, read on the text
    at and after the index. *)
Lemma _consume_until_at (p t : string) (char : ascii) (can_recover : bool) :
  _consume_until (p +++ t) (String.length p) char can_recover =
  match str_find char t with
  | Some k => ret (substring 0 k t, String.length p + k)
  | None =>
      if can_recover then ret (EmptyString, String.length p)
      else raise (FormatParseError (p +++ t) (String.length p)
                    (ReachedEndSearchingFor char))
  end.
Proof.
  unfold _consume_until.
  rewrite _consume_until_loop_zip by (rewrite length_append; lia).
  destruct (str_find char t) as [k |]; [| reflexivity].
  replace (String.length p + k - String.length p) with k by lia.
  now rewrite substring_skip.
Qed.

Lemma _consume_until_beyond (fs : string) (index : nat) (char : ascii)
  (can_recover : bool) :
  String.length fs < index ->
  _consume_until fs index char can_recover =
  if can_recover then ret (EmptyString, index)
  else raise (FormatParseError fs index (ReachedEndSearchingFor char)).
Proof.
  intros H. unfold _consume_until.
  now replace (String.length fs - index) with 0 by lia.
Qed.

Lemma _consume_until_cases (fs : string) (index : nat) (char : ascii)
  (can_recover : bool) :
  index <= String.length fs ->
  _consume_until fs index char can_recover =
  match str_find char (substring index (String.length fs - index) fs) with
  | Some k =>
      ret (substring 0 k (substring index (String.length fs - index) fs), index + k)
  | None =>
      if can_recover then ret (EmptyString, index)
      else raise (FormatParseError fs index (ReachedEndSearchingFor char))
  end.
Proof.
  intros Hle.
  pose proof (string_split_at fs index Hle) as Hsplit.
  pose proof (length_substring fs index Hle) as Hlen.
  set (p := substring 0 index fs) in *.
  set (t := substring index (String.length fs - index) fs) in *.
  rewrite Hsplit at 1. rewrite <- Hlen at 1.
  rewrite _consume_until_at. rewrite <- Hsplit, Hlen. reflexivity.
Qed.

Lemma _consume_until_returns (fs : string) (index : nat) (char : ascii)
  (s : string) (k : nat) :
  outcome (_consume_until fs index char false) = Return (s, k) ->
  exists p rest,
    fs = p +++ s +++ String char rest
    /\ String.length p = index
    /\ str_contains char s = false
    /\ k = index + String.length s
    /\ get k fs = Some char.
Proof.
  intros H.
  destruct (Nat.le_gt_cases index (String.length fs)) as [Hle | Hgt];
    [| rewrite _consume_until_beyond in H by assumption; discriminate].
  rewrite (_consume_until_cases fs index char false Hle) in H.
  pose proof (string_split_at fs index Hle) as Hsplit.
  pose proof (length_substring fs index Hle) as Hlen.
  set (p := substring 0 index fs) in *.
  set (t := substring index (String.length fs - index) fs) in *.
  destruct (str_find char t) as [k' |] eqn:F; [| discriminate].
  simpl in H. injection H as <- <-.
  destruct (str_find_some _ _ _ F) as (x & y & Ht & Hx & Hc).
  exists p, y. rewrite Ht, <- Hx, substring_prefix.
  repeat split; try assumption.
  - now rewrite Hsplit, Ht.
  - rewrite Hsplit, Ht, <- Hlen, <- append_assoc, <- length_append.
    apply get_append_here.
Qed.

Lemma _consume_until_raises (fs : string) (index : nat) (char : ascii)
  (can_recover : bool) (e : PyExc) :
  outcome (_consume_until fs index char can_recover) = Raise e ->
  can_recover = false
  /\ e = FormatParseError fs index (ReachedEndSearchingFor char).
Proof.
  intros H.
  destruct (Nat.le_gt_cases index (String.length fs)) as [Hle | Hgt].
  - rewrite (_consume_until_cases fs index char can_recover Hle) in H.
    destruct (str_find char _); [discriminate |].
    destruct can_recover; [discriminate |]. simpl in H. now injection H as <-.
  - rewrite _consume_until_beyond in H by assumption.
    destruct can_recover; [discriminate |]. simpl in H. now injection H as <-.
Qed.

(** X8. When [_consume_until] returns without recovery, the string
    before the index, the text it returns, the character searched for
    and a rest make up the format string, the text does not hold the
    character, and the index returned is that of the character: the
    search stops at the first occurrence. When it raises, the error is a
    [FormatParseError] for the string and the index it started from.
    With [can_recover] it never raises. *)
Theorem consume_until_stops_at_first (format_string : string) (index : nat)
  (char : ascii) :
  (forall s k,
      outcome (_consume_until format_string index char false) = Return (s, k) ->
      exists p rest,
        format_string = p +++ s +++ String char rest
        /\ String.length p = index
        /\ str_contains char s = false
        /\ k = index + String.length s
        /\ get k format_string = Some char)
  /\ (forall e,
        outcome (_consume_until format_string index char false) = Raise e ->
        e = FormatParseError format_string index (ReachedEndSearchingFor char))
  /\ (forall e,
        outcome (_consume_until format_string index char true) <> Raise e).
Proof.
  split; [| split].
  - intros s k. apply _consume_until_returns.
  - intros e H. now apply _consume_until_raises in H.
  - intros e H. apply _consume_until_raises in H as [H _]. discriminate.
Qed.

Lemma str_join_cons (x : string) (l : list string) :
  str_join (x :: l) = x +++ str_join l.
Proof.
  unfold str_join. destruct l; simpl; [now rewrite append_nil_r | reflexivity].
Qed.

Lemma str_join_app (l l' : list string) :
  str_join (l ++ l') = str_join l +++ str_join l'.
Proof.
  induction l as [| x l IH]; [reflexivity |].
  change ((x :: l) ++ l') with (x :: (l ++ l')).
  now rewrite !str_join_cons, IH, append_assoc.
Qed.

Lemma unparse_snoc (tokens : list TokenType) (t : TokenType) :
  unparse (tokens ++ [t]) = unparse tokens +++ token_text t.
Proof.
  unfold unparse. rewrite map_app.
  change (String.concat EmptyString (map token_text tokens ++ map token_text [t]))
    with (str_join (map token_text tokens ++ map token_text [t])).
  rewrite str_join_app. reflexivity.
Qed.

(** What [_consume] returns at a marker: the next index, the text it
    passed over, and the shape of the argument. *)
Lemma _consume_returns (fs : string) (index : nat) (c : ascii) (j : nat)
  (fv : option string) (src : string) (idx : nat) :
  get index fs = Some TOK_SPECIAL ->
  outcome (_consume fs index) = Return (c, j, fv) ->
  index < j < String.length fs
  /\ get j fs = Some c
  /\ substring 0 (j + 1) fs =
     substring 0 index fs +++ token_text (Dict (mkToken c fv src idx))
  /\ match fv with
     | Some a => str_contains ")" a = false
     | None => c <> "("%char
     end.
Proof.
  intros Hmark H. unfold _consume in H.
  apply outcome_bind_return in H as ([c1 j1] & Hn & H).
  apply _next_char_return in Hn as [-> Hg1].
  pose proof (substring_snoc _ _ _ Hmark) as S0.
  pose proof (substring_snoc _ _ _ Hg1) as S1.
  destruct (Ascii.eqb_spec c1 "(") as [-> | Hne].
  - apply outcome_bind_return in H as ([a k] & Hu & H).
    apply outcome_bind_return in H as ([c2 j2] & Hn2 & H).
    apply _next_char_return in Hn2 as [-> Hg2].
    simpl in H. injection H as <- <- <-.
    destruct (_consume_until_returns _ _ _ _ _ Hu) as (p & rest & Hfs & Hp & Ha & Hk & Hgk).
    pose proof (substring_snoc _ _ _ Hgk) as S2.
    pose proof (substring_snoc _ _ _ Hg2) as S3.
    assert (Hpa : substring 0 k fs = substring 0 (index + 1 + 1) fs +++ a).
    { rewrite Hfs at 1. rewrite Hk, <- Hp, <- length_append, <- append_assoc.
      rewrite substring_prefix. f_equal.
      rewrite Hfs. symmetry. apply substring_prefix. }
    apply get_some_lt in Hg2 as Hlt.
    repeat split; try lia; try assumption.
    rewrite S3, S2, Hpa, S1, S0. cbn [token_text field_value token].
    now rewrite !append_assoc.
  - simpl in H. injection H as <- <- <-.
    apply get_some_lt in Hg1 as Hlt.
    repeat split; try lia; try assumption.
    rewrite S1, S0. cbn [token_text field_value token].
    now rewrite !append_assoc.
Qed.

Lemma parse_loop_invariant (fs : string) (fuel : nat) :
  forall index tokens result,
    String.length fs - index <= fuel ->
    index <= String.length fs ->
    unparse tokens = substring 0 index fs ->
    Forall (token_of fs) tokens ->
    List.length tokens <= index ->
    outcome (parse_loop fuel fs index tokens) = Return result ->
    unparse result = fs
    /\ Forall (token_of fs) result
    /\ List.length result <= String.length fs.
Proof.
  induction fuel as [| f IH]; intros index tokens result Hf Hi Hu Hok Hn H.
  - simpl in H. injection H as <-.
    replace index with (String.length fs) in * by lia.
    now rewrite Hu, substring_whole.
  - cbn [parse_loop] in H.
    destruct (get index fs) as [c |] eqn:G.
    + pose proof (get_some_lt _ _ _ G) as Hlt.
      rewrite outcome_bind_logger in H.
      destruct (Ascii.eqb_spec c TOK_SPECIAL) as [-> | Hne].
      * apply outcome_bind_return in H as ([[code j] fv] & Hc & H).
        rewrite outcome_bind_logger in H.
        destruct (_consume_returns fs index code j fv fs j G Hc)
          as (Hj & Hg & Htext & Harg).
        refine (IH (j + 1) _ result _ _ _ _ _ H); try lia.
        -- now rewrite unparse_snoc, Hu, Htext.
        -- apply Forall_app. split; [exact Hok |].
           constructor; [| constructor]. simpl. now repeat split.
        -- rewrite length_app. simpl. lia.
      * refine (IH (index + 1) _ result _ _ _ _ _ H); try lia.
        -- now rewrite unparse_snoc, Hu, (substring_snoc _ _ _ G).
        -- apply Forall_app. split; [exact Hok |].
           constructor; [exact Hne | constructor].
        -- rewrite length_app. simpl. lia.
    + simpl in H. injection H as <-.
      assert (index = String.length fs).
      { destruct (Nat.eq_dec index (String.length fs)) as [E | N]; [exact E |].
        destruct (get_within fs index) as [c G']; [lia | congruence]. }
      subst index. rewrite Hu, substring_whole. repeat split; assumption.
Qed.

(** X9. The tokens [parse_format_string] returns spell the format
    string: the texts of the tokens, in order, make it up again. A
    literal token is never the marker; a directive token records the
    string and the index of its format character, its argument holds no
    closing parenthesis, and without argument its character is not an
    opening parenthesis. There are at most as many tokens as
    characters. *)
Theorem parse_format_string_spells_input (format_string : string)
  (tokens : list TokenType) :
  outcome (parse_format_string format_string) = Return tokens ->
  unparse tokens = format_string
  /\ Forall (token_of format_string) tokens
  /\ List.length tokens <= String.length format_string.
Proof.
  intros H. unfold parse_format_string in H.
  refine (parse_loop_invariant format_string _ 0 [] tokens _ _ _ _ _ H).
  - lia.
  - lia.
  - now destruct format_string.
  - constructor.
  - simpl. lia.
Qed.

Lemma parse_format_string_spells_input_witness :
  unparse [Str "a"%char; Dict (mkToken "T" (Some "-=2") "a%(-=2)T%%" 7);
           Dict (mkToken "%" None "a%(-=2)T%%" 9)] = "a%(-=2)T%%".
Proof.
  apply (parse_format_string_spells_input "a%(-=2)T%%"). reflexivity.
Defined.

Lemma _consume_raises (fs : string) (index : nat) (e : PyExc) :
  index < String.length fs ->
  outcome (_consume fs index) = Raise e ->
  exists i message, e = FormatParseError fs i message /\ i <= String.length fs.
Proof.
  intros Hlt H. unfold _consume in H. rewrite outcome_bind in H.
  unfold _next_char at 1 in H.
  destruct (get (index + 1) fs) as [c1 |] eqn:G1; simpl in H.
  - apply get_some_lt in G1.
    destruct (Ascii.eqb c1 "("); [| discriminate].
    rewrite outcome_bind in H.
    destruct (outcome (_consume_until fs (index + 1 + 1) ")" false))
      as [e' | [a k]] eqn:Hu.
    + injection H as <-.
      apply _consume_until_raises in Hu as [_ ->].
      eexists _, _. split; [reflexivity | lia].
    + destruct (_consume_until_returns _ _ _ _ _ Hu) as (p & rest & _ & _ & _ & _ & Hgk).
      apply get_some_lt in Hgk.
      rewrite outcome_bind in H. unfold _next_char in H.
      destruct (get (k + 1) fs); simpl in H; [discriminate |].
      injection H as <-. eexists _, _. split; [reflexivity | lia].
  - injection H as <-. eexists _, _. split; [reflexivity | lia].
Qed.

Lemma parse_loop_raises (fs : string) (fuel : nat) :
  forall index tokens e,
    outcome (parse_loop fuel fs index tokens) = Raise e ->
    exists i message, e = FormatParseError fs i message /\ i <= String.length fs.
Proof.
  induction fuel as [| f IH]; intros index tokens e H; [discriminate |].
  cbn [parse_loop] in H.
  destruct (get index fs) as [c |] eqn:G; [| discriminate].
  pose proof (get_some_lt _ _ _ G) as Hlt.
  rewrite outcome_bind_logger in H.
  destruct (Ascii.eqb c TOK_SPECIAL).
  - rewrite outcome_bind in H.
    destruct (outcome (_consume fs index)) as [e' | [[code j] fv]] eqn:Hc.
    + injection H as <-. now apply _consume_raises with index.
    + rewrite outcome_bind_logger in H. now apply IH in H.
  - now apply IH in H.
Qed.

(** X10. [parse_format_string] raises nothing but [FormatParseError],
    and the error carries the format string itself and an index that is
    at most its length. *)
Theorem parse_format_string_raises_only_parse_error (format_string : string)
  (e : PyExc) :
  outcome (parse_format_string format_string) = Raise e ->
  exists index message,
    e = FormatParseError format_string index message
    /\ index <= String.length format_string.
Proof.
  intros H. unfold parse_format_string in H.
  destruct (parse_loop_raises _ _ _ _ _ H) as (index & message & -> & Hindex).
  now exists index, message.
Qed.

Lemma parse_format_string_raises_only_parse_error_witness :
  exists index message,
    FormatParseError "ab%(" 4 (ReachedEndSearchingFor ")") =
    FormatParseError "ab%(" index message
    /\ index <= String.length "ab%(".
Proof.
  apply (parse_format_string_raises_only_parse_error "ab%("). reflexivity.
Defined.

(** ** Formatting a concatenation *)

Lemma same_token_refl (t : TokenType) : same_token t t.
Proof.
  destruct t; simpl; auto.
Qed.

Lemma apply_token_same (w : World) (filepath : string) (d d' : TokenDict) :
  same_token (Dict d) (Dict d') ->
  outcome (apply_token w filepath d) = outcome (apply_token w filepath d').
Proof.
  destruct d as [c fv src idx], d' as [c' fv' src' idx'].
  simpl. intros [<- <-].
  unfold apply_token, TOKENS_get. cbn [token TOKENS find fst snd].
  repeat match goal with
         | |- context [Ascii.eqb ?a c] => destruct (Ascii.eqb a c)
         end;
    cbn [option_map snd]; try reflexivity;
    rewrite !outcome_bind;
    match goal with
    | |- match outcome ?x with _ => _ end = match outcome ?y with _ => _ end =>
        change y with x; destruct (outcome x); reflexivity
    end.
Qed.

Lemma format_loop_same (w : World) (filepath : string)
  (tokens tokens' : list TokenType) :
  Forall2 same_token tokens tokens' ->
  forall output,
    outcome (format_loop w filepath tokens output) =
    outcome (format_loop w filepath tokens' output).
Proof.
  induction 1 as [| t t' ts ts' Ht _ IH]; intros output; [reflexivity |].
  destruct t as [c | d], t' as [c' | d']; try contradiction.
  - simpl in Ht. subst c'. apply IH.
  - cbn [format_loop]. rewrite !outcome_bind, (apply_token_same w filepath d d' Ht).
    destruct (outcome (apply_token w filepath d')) as [e | [r |]];
      [reflexivity | apply IH | apply IH].
Qed.

Lemma format_loop_output (w : World) (filepath : string) (tokens : list TokenType) :
  forall output,
    outcome (format_loop w filepath tokens output) =
    match outcome (format_loop w filepath tokens []) with
    | Raise e => Raise e
    | Return out => Return (output ++ out)
    end.
Proof.
  induction tokens as [| t ts IH]; intros output.
  - simpl. now rewrite List.app_nil_r.
  - destruct t as [c | d]; cbn [format_loop].
    + rewrite (IH (output ++ _)), (IH ([] ++ _)).
      destruct (outcome (format_loop w filepath ts [])); [reflexivity |].
      now rewrite <- List.app_assoc.
    + rewrite !outcome_bind.
      destruct (outcome (apply_token w filepath d)) as [e | [r |]]; [reflexivity | |].
      * rewrite (IH (output ++ _)), (IH ([] ++ _)).
        destruct (outcome (format_loop w filepath ts [])); [reflexivity |].
        now rewrite <- List.app_assoc.
      * apply IH.
Qed.

Lemma parse_loop_tokens (fs : string) (fuel : nat) :
  forall index tokens,
    outcome (parse_loop fuel fs index tokens) =
    match outcome (parse_loop fuel fs index []) with
    | Raise e => Raise e
    | Return r => Return (tokens ++ r)
    end.
Proof.
  induction fuel as [| f IH]; intros index tokens.
  - simpl. now rewrite List.app_nil_r.
  - cbn [parse_loop]. destruct (get index fs) as [c |].
    + rewrite !outcome_bind_logger.
      destruct (Ascii.eqb c TOK_SPECIAL).
      * rewrite !outcome_bind.
        destruct (outcome (_consume fs index)) as [e | [[code j] fv]]; [reflexivity |].
        rewrite !outcome_bind_logger.
        rewrite (IH _ (tokens ++ _)), (IH _ ([] ++ _)).
        destruct (outcome (parse_loop f fs (j + 1) [])); [reflexivity |].
        now rewrite <- List.app_assoc.
      * rewrite (IH _ (tokens ++ _)), (IH _ ([] ++ _)).
        destruct (outcome (parse_loop f fs (index + 1) [])); [reflexivity |].
        now rewrite <- List.app_assoc.
    + simpl. now rewrite List.app_nil_r.
Qed.

(** The tokens of a prefix that parses head the tokens of the whole. *)
Lemma parse_loop_prefix (tail : string) (fuel : nat) :
  forall pre index r fuel',
    outcome (parse_loop fuel pre index []) = Return r ->
    String.length pre - index <= fuel ->
    index <= String.length pre ->
    String.length (pre +++ tail) - index <= fuel' ->
    exists r' fuel'',
      Forall2 same_token r r'
      /\ String.length tail <= fuel''
      /\ outcome (parse_loop fuel' (pre +++ tail) index []) =
         match outcome (parse_loop fuel'' (pre +++ tail) (String.length pre) []) with
         | Raise e => Raise e
         | Return r2 => Return (r' ++ r2)
         end.
Proof.
  induction fuel as [| f IH]; intros pre index r fuel' H Hf Hi Hf'.
  - assert (index = String.length pre) by lia. subst index.
    simpl in H. injection H as <-.
    exists [], fuel'. split; [constructor |]. split.
    + rewrite length_append in Hf'. lia.
    + now destruct (outcome (parse_loop fuel' (pre +++ tail) (String.length pre) [])).
  - cbn [parse_loop] in H.
    destruct (get index pre) as [c |] eqn:G.
    + pose proof (get_some_lt _ _ _ G) as Hlt.
      destruct fuel' as [| f']; [rewrite length_append in Hf'; lia |].
      cbn [parse_loop]. rewrite (get_append_l _ tail _ _ G).
      rewrite outcome_bind_logger in H. rewrite outcome_bind_logger.
      destruct (Ascii.eqb c TOK_SPECIAL).
      * apply outcome_bind_return in H as ([[code j] fv] & Hc & H).
        apply (_consume_extend pre tail) in Hc as [Hc Hj]. simpl in Hj.
        rewrite Hc, bind_ret_l.
        rewrite outcome_bind_logger in H. rewrite outcome_bind_logger.
        rewrite parse_loop_tokens in H. rewrite parse_loop_tokens.
        destruct (outcome (parse_loop f pre (j + 1) [])) as [| r1] eqn:H1;
          [discriminate |].
        injection H as <-.
        destruct (IH pre (j + 1) r1 f' H1) as (r1' & fuel'' & Hsame & Hfuel & ->);
          try lia.
        exists (Dict (mkToken code fv (pre +++ tail) j) :: r1'), fuel''.
        split; [| split; [exact Hfuel |]].
        -- simpl. constructor; [simpl; now split | exact Hsame].
        -- now destruct (outcome (parse_loop fuel'' (pre +++ tail) (String.length pre) [])).
      * rewrite parse_loop_tokens in H. rewrite parse_loop_tokens.
        destruct (outcome (parse_loop f pre (index + 1) [])) as [| r1] eqn:H1;
          [discriminate |].
        injection H as <-.
        destruct (IH pre (index + 1) r1 f' H1) as (r1' & fuel'' & Hsame & Hfuel & ->);
          try lia.
        exists (Str c :: r1'), fuel''.
        split; [| split; [exact Hfuel |]].
        -- simpl. constructor; [reflexivity | exact Hsame].
        -- now destruct (outcome (parse_loop fuel'' (pre +++ tail) (String.length pre) [])).
    + assert (index = String.length pre).
      { destruct (Nat.eq_dec index (String.length pre)) as [E | N]; [exact E |].
        destruct (get_within pre index) as [c G']; [lia | congruence]. }
      subst index. simpl in H. injection H as <-.
      exists [], fuel'. split; [constructor |]. split.
      * rewrite length_append in Hf'. lia.
      * now destruct (outcome (parse_loop fuel' (pre +++ tail) (String.length pre) [])).
Qed.

(** [_consume] reads a string the same way after a prefix, the indices
    moved by the length of the prefix. *)
Lemma _consume_shift (pre tail : string) (index : nat) (c : ascii) (j : nat)
  (fv : option string) :
  outcome (_consume tail index) = Return (c, j, fv) ->
  _consume (pre +++ tail) (String.length pre + index) =
  ret (c, String.length pre + j, fv).
Proof.
  intros H. unfold _consume in H |- *.
  apply outcome_bind_return in H as ([c1 j1] & Hn & H).
  apply _next_char_return in Hn as [-> Hg1].
  unfold _next_char at 1.
  replace (String.length pre + index + 1) with (String.length pre + (index + 1)) by lia.
  rewrite get_append_r, Hg1, bind_ret_l.
  destruct (Ascii.eqb c1 "(").
  - apply outcome_bind_return in H as ([a k] & Hu & H).
    apply outcome_bind_return in H as ([c2 j2] & Hn2 & H).
    apply _next_char_return in Hn2 as [-> Hg2].
    simpl in H. injection H as <- <- <-.
    destruct (_consume_until_returns _ _ _ _ _ Hu) as (p & rest & Htail & Hp & Ha & Hk & _).
    rewrite Htail at 1. rewrite <- append_assoc.
    replace (String.length pre + (index + 1) + 1) with (String.length (pre +++ p))
      by (rewrite length_append; lia).
    rewrite (_consume_until_found _ a rest ")" Ha), bind_ret_l.
    unfold _next_char.
    replace (String.length (pre +++ p) + String.length a + 1)
      with (String.length pre + (k + 1)) by (rewrite length_append; lia).
    rewrite get_append_r, Hg2, bind_ret_l. reflexivity.
  - simpl in H. injection H as <- <- <-. reflexivity.
Qed.

(** The tokens of a string parsed after a prefix are those of the
    string parsed alone. *)
Lemma parse_loop_shift (pre tail : string) (fuel : nat) :
  forall index r fuel',
    outcome (parse_loop fuel tail index []) = Return r ->
    String.length tail - index <= fuel ->
    String.length tail - index <= fuel' ->
    exists r',
      Forall2 same_token r r'
      /\ outcome (parse_loop fuel' (pre +++ tail) (String.length pre + index) []) =
         Return r'.
Proof.
  induction fuel as [| f IH]; intros index r fuel' H Hf Hf'.
  - simpl in H. injection H as <-. exists []. split; [constructor |].
    rewrite parse_loop_end; [reflexivity |]. rewrite length_append. lia.
  - cbn [parse_loop] in H.
    destruct (get index tail) as [c |] eqn:G.
    + pose proof (get_some_lt _ _ _ G) as Hlt.
      destruct fuel' as [| f']; [lia |].
      cbn [parse_loop]. rewrite get_append_r, G.
      rewrite outcome_bind_logger in H. rewrite outcome_bind_logger.
      destruct (Ascii.eqb c TOK_SPECIAL).
      * apply outcome_bind_return in H as ([[code j] fv] & Hc & H).
        pose proof (_consume_extend tail EmptyString index _ Hc) as [_ Hj].
        simpl in Hj.
        rewrite (_consume_shift pre tail index code j fv Hc), bind_ret_l.
        rewrite outcome_bind_logger in H. rewrite outcome_bind_logger.
        rewrite parse_loop_tokens in H. rewrite parse_loop_tokens.
        destruct (outcome (parse_loop f tail (j + 1) [])) as [| r1] eqn:H1;
          [discriminate |].
        injection H as <-.
        destruct (IH (j + 1) r1 f' H1) as (r1' & Hsame & Hr); try lia.
        replace (String.length pre + j + 1) with (String.length pre + (j + 1)) by lia.
        rewrite Hr.
        exists (Dict (mkToken code fv (pre +++ tail) (String.length pre + j)) :: r1').
        split; [| reflexivity].
        simpl. constructor; [simpl; now split | exact Hsame].
      * rewrite parse_loop_tokens in H. rewrite parse_loop_tokens.
        destruct (outcome (parse_loop f tail (index + 1) [])) as [| r1] eqn:H1;
          [discriminate |].
        injection H as <-.
        destruct (IH (index + 1) r1 f' H1) as (r1' & Hsame & Hr); try lia.
        replace (String.length pre + index + 1)
          with (String.length pre + (index + 1)) by lia.
        rewrite Hr. exists (Str c :: r1'). split; [| reflexivity].
        simpl. constructor; [reflexivity | exact Hsame].
    + simpl in H. injection H as <-. exists []. split; [constructor |].
      rewrite parse_loop_end; [reflexivity |].
      rewrite length_append.
      destruct (Nat.le_gt_cases (String.length tail) index) as [Hle | Hgt]; [lia |].
      destruct (get_within tail index Hgt) as [c G']. congruence.
Qed.

(** The tokens of a concatenation are the tokens of its parts. *)
Lemma parse_format_string_app (a b : string) (ta tb : list TokenType) :
  outcome (parse_format_string a) = Return ta ->
  outcome (parse_format_string b) = Return tb ->
  exists t,
    outcome (parse_format_string (a +++ b)) = Return t
    /\ Forall2 same_token (ta ++ tb) t.
Proof.
  intros Ha Hb. unfold parse_format_string in *.
  destruct (parse_loop_prefix b _ a 0 ta (String.length (a +++ b)) Ha)
    as (ta' & fuel'' & Hsa & Hfuel & ->); try lia.
  destruct (parse_loop_shift a b _ 0 tb fuel'' Hb) as (tb' & Hsb & Hr); try lia.
  rewrite Nat.add_0_r in Hr. rewrite Hr.
  exists (ta' ++ tb'). split; [reflexivity |]. now apply Forall2_app.
Qed.

Lemma format_path_fragment (w : World) (filepath format_string : string) :
  outcome (format_path w filepath format_string) =
  match fragment w filepath format_string with
  | Raise e => Raise e
  | Return f => Return (os_path_join (os_path_dirname filepath) f)
  end.
Proof.
  unfold fragment.
  destruct (outcome (parse_format_string format_string)) as [e | tokens] eqn:Hp.
  - now apply format_path_parse_error.
  - rewrite (format_path_outcome w filepath _ _ Hp).
    now destruct (outcome (format_loop w filepath tokens [])).
Qed.

Lemma fragment_app (w : World) (filepath x y fx fy : string) :
  fragment w filepath x = Return fx ->
  fragment w filepath y = Return fy ->
  fragment w filepath (x +++ y) = Return (fx +++ fy).
Proof.
  intros Hx Hy. unfold fragment in *.
  destruct (outcome (parse_format_string x)) as [| tx] eqn:Px; [discriminate |].
  destruct (outcome (parse_format_string y)) as [| ty] eqn:Py; [discriminate |].
  destruct (outcome (format_loop w filepath tx [])) as [| ox] eqn:Lx; [discriminate |].
  destruct (outcome (format_loop w filepath ty [])) as [| oy] eqn:Ly; [discriminate |].
  injection Hx as <-. injection Hy as <-.
  destruct (parse_format_string_app x y tx ty Px Py) as (t & -> & Hsame).
  rewrite <- (format_loop_same w filepath _ _ Hsame).
  rewrite format_loop_app, outcome_bind, Lx.
  rewrite format_loop_output, Ly.
  now rewrite str_join_app.
Qed.

(** X11. When two format strings each format a path, their
    concatenation formats it to the concatenation of the two fragments,
    joined to the directory. So a doubled marker put between them
    contributes exactly one marker character. *)
Theorem fragment_of_concatenation (w : World) (filepath a b fa fb : string) :
  fragment w filepath a = Return fa ->
  fragment w filepath b = Return fb ->
  fragment w filepath (a +++ b) = Return (fa +++ fb)
  /\ outcome (format_path w filepath (a +++ b)) =
     Return (os_path_join (os_path_dirname filepath) (fa +++ fb))
  /\ fragment w filepath (a +++ "%%" +++ b) = Return (fa +++ "%" +++ fb).
Proof.
  intros Ha Hb. split; [now apply fragment_app |]. split.
  - now rewrite format_path_fragment, (fragment_app w filepath a b fa fb Ha Hb).
  - apply fragment_app; [exact Ha |].
    apply (fragment_app w filepath "%%" b "%" fb); [reflexivity | exact Hb].
Qed.

Lemma fragment_of_concatenation_witness :
  fragment example_world "dir/foo-bar-baz.gz" ("%(-=2)T_" +++ "%S%.%E") =
  Return ("bar_" +++ "32.gz").
Proof.
  apply (fragment_of_concatenation example_world "dir/foo-bar-baz.gz"
           "%(-=2)T_" "%S%.%E" "bar_" "32.gz"); reflexivity.
Defined.

(** ** What the argument checks let through *)


(** A run of digits longer than [int] reads passes [isnumber] and
    [str.isdigit]. *)
Lemma long_digits_pass_checks (digits : string) :
  str_all char_isdecimal digits = true ->
  int_max_str_digits < String.length digits ->
  is_empty digits = false /\ isnumber digits = true /\ str_isdigit digits = true
  /\ py_int digits = None.
Proof.
  intros Hd Hl.
  assert (He : is_empty digits = false) by (destruct digits; [simpl in Hl; lia | reflexivity]).
  split; [exact He |].
  pose proof (str_isdigit_decimal _ He Hd) as Hi.
  split; [| split; [exact Hi | now apply py_int_long]].
  unfold isnumber. now rewrite (decimal_not_dash _ Hd).
Qed.


Lemma tok_tokenize_long_index (filepath field digits : string) (c : ascii)
  (src : string) (idx : nat) :
  str_all char_isdecimal digits = true ->
  int_max_str_digits < String.length digits ->
  tok_tokenize_func filepath
    (mkToken c (Some (field +++ "=" +++ digits)) src idx) =
  raise ValueError.
Proof.
  intros Hd Hl.
  destruct (long_digits_pass_checks digits Hd Hl) as (He & Hnum & Hdig & Hint).
  assert (Hsep : str_contains TOK_SEPARATOR digits = false)
    by now apply decimal_excludes.
  unfold tok_tokenize_func. cbn [field_value].
  change (field +++ "=" +++ digits)
    with (field +++ String TOK_SEPARATOR digits).
  rewrite str_contains_cut. cbn [negb].
  unfold str_rsplit1. rewrite (str_rcut_last _ _ _ Hsep), Hdig. cbn [negb].
  destruct field as [| a field']; [reflexivity |].
  cbn [str_split]. rewrite bind_ret_l.
  unfold int_of_str. rewrite Hint. reflexivity.
Qed.




(** X13. For a non-empty field text and an index from [1] to the number
    of segments, [T] returns the segment at that place, counting from
    one, and logs no warning; [U] and [L] return it in upper and in lower
    case. That is so of an index in no more digits than [int] reads;
    for one in more digits, which takes a base name of as many segments,
    [int] raises [ValueError]. *)
Theorem field_directive_picks_segment (w : World) (filepath field : string)
  (n : N) (src : string) (idx : nat) :
  let segments := str_split_scan field 0 EmptyString (get_basename filepath) in
  let fv := field +++ "=" +++ str_of_N n in
  let segment := nth (N.to_nat n - 1) segments EmptyString in
  is_empty field = false ->
  (1 <= n)%N -> (n <= N.of_nat (List.length segments))%N ->
  (String.length (str_of_N n) <= int_max_str_digits ->
     tok_tokenize_func filepath (mkToken "T" (Some fv) src idx) = ret segment
     /\ outcome (apply_token w filepath (mkToken "T" (Some fv) src idx)) =
        Return (Some segment)
     /\ outcome (apply_token w filepath (mkToken "U" (Some fv) src idx)) =
        Return (Some (str_upper w segment))
     /\ outcome (apply_token w filepath (mkToken "L" (Some fv) src idx)) =
        Return (Some (str_lower w segment)))
  /\ (int_max_str_digits < String.length (str_of_N n) ->
      tok_tokenize_func filepath (mkToken "T" (Some fv) src idx) = raise ValueError).
Proof.
  intros segments fv segment Hfield Hlo Hhi.
  split; [| intros Hlong; apply tok_tokenize_long_index;
            [apply str_of_N_decimal | exact Hlong]].
  intros Hdigits.
  destruct (str_of_N_literal n Hdigits) as [Hlit Hval].
  assert (Hfunc : forall c, tok_tokenize_func filepath (mkToken c (Some fv) src idx) =
                            ret segment).
  { intros c. unfold fv.
    rewrite (tok_tokenize_decimal_index filepath field (str_of_N n) c src idx
               (is_empty_false _ Hfield) Hlit).
    cbv zeta. fold segments. unfold value_or. rewrite Hval.
    destruct (Z.ltb_spec (Z.of_N n - 1) 0); [lia |].
    destruct (Z.geb_spec (Z.of_N n - 1) (Z.of_nat (List.length segments))); [lia |].
    unfold segment. do 2 f_equal. lia. }
  split; [apply Hfunc |]. split; [| split]; lookup_token.
  - now rewrite Hfunc.
  - unfold tok_upper_func, tok_tokenize.
    rewrite wrapper_passes by auto. now rewrite Hfunc.
  - unfold tok_lower_func, tok_tokenize.
    rewrite wrapper_passes by auto. now rewrite Hfunc.
Qed.

Lemma field_directive_picks_segment_witness :
  outcome (apply_token example_world "foo-bar-baz.gz"
             (mkToken "U" (Some ("-" +++ "=" +++ str_of_N 2)) "%(-=2)U" 6)) =
  Return (Some (str_upper example_world
                  (nth (N.to_nat 2 - 1)
                     (str_split_scan "-" 0 EmptyString (get_basename "foo-bar-baz.gz"))
                     EmptyString))).
Proof.
  apply (field_directive_picks_segment example_world "foo-bar-baz.gz" "-" 2%N
           "%(-=2)U" 6).
  - reflexivity.
  - lia.
  - vm_compute. discriminate.
  - unfold int_max_str_digits. simpl. lia.
Defined.

(** ** The segments of the base name *)

Lemma str_split_scan_skip (sep t s cur : string) :
  str_split_scan sep (String.length t) cur (t +++ s) = str_split_scan sep 0 cur s.
Proof.
  induction t as [| a t IH]; [reflexivity | exact IH].
Qed.

Lemma str_split_scan_cons (sep : string) (s : string) :
  forall skip cur, exists x rest, str_split_scan sep skip cur s = x :: rest.
Proof.
  induction s as [| a r IH]; intros skip cur; cbn [str_split_scan]; [eauto |].
  destruct skip; [| apply IH].
  destruct (prefix sep (String a r)); [eauto | apply IH].
Qed.

Lemma prefix_append (p s : string) :
  prefix p s = true -> exists s', s = p +++ s'.
Proof.
  intros H. apply prefix_correct in H.
  exists (substring (String.length p) (String.length s - String.length p) s).
  rewrite <- H at 1. rewrite <- (substring_add s 0).
  destruct (Nat.le_gt_cases (String.length p) (String.length s)) as [Hle | Hgt].
  - replace (String.length p + (String.length s - String.length p))
      with (String.length s) by lia.
    symmetry. apply substring_whole.
  - exfalso. assert (Hl : String.length (substring 0 (String.length p) s)
                          <= String.length s).
    { clear. generalize (String.length p). induction s as [| a s IH]; intros n.
      - now rewrite substring_empty.
      - destruct n; simpl; [lia |]. specialize (IH n). lia. }
    rewrite H in Hl. lia.
Qed.

Lemma str_split_scan_join (sep : string) (n : nat) :
  is_empty sep = false ->
  forall s cur,
    String.length s <= n ->
    String.concat sep (str_split_scan sep 0 cur s) = cur +++ s.
Proof.
  intros Hsep. induction n as [| n IH]; intros s cur Hlen.
  - destruct s; [| simpl in Hlen; lia]. simpl. now rewrite append_nil_r.
  - destruct s as [| a r]; [simpl; now rewrite append_nil_r |].
    cbn [str_split_scan].
    destruct (prefix sep (String a r)) eqn:P.
    + destruct (prefix_append _ _ P) as [s' Hs'].
      destruct sep as [| b sep']; [discriminate |].
      simpl in Hs'. injection Hs' as <- ->.
      replace (String.length (String a sep') - 1) with (String.length sep')
        by (simpl; lia).
      rewrite str_split_scan_skip.
      destruct (str_split_scan_cons (String a sep') s' 0 EmptyString) as (x & rest & E).
      pose proof (IH s' EmptyString) as IH'. rewrite E in IH' |- *.
      change (String.concat (String a sep') (cur :: x :: rest))
        with (cur +++ String a sep' +++ String.concat (String a sep') (x :: rest)).
      rewrite IH'.
      * reflexivity.
      * simpl in Hlen. rewrite length_append in Hlen. lia.
    + rewrite IH by (simpl in Hlen; lia).
      now rewrite append_assoc.
Qed.

(** X14. For a non-empty field text, the segments [T], [U] and [L] pick
    from, joined by the field text, give back the base name: the split
    loses nothing and there is always at least one segment. *)
Theorem segments_join_to_basename (filepath field : string) :
  is_empty field = false ->
  let segments := str_split_scan field 0 EmptyString (get_basename filepath) in
  str_split field (get_basename filepath) = Some segments
  /\ String.concat field segments = get_basename filepath
  /\ 1 <= List.length segments.
Proof.
  intros Hfield segments. split; [| split].
  - now destruct field.
  - unfold segments.
    now rewrite (str_split_scan_join field _ Hfield _ EmptyString (le_n _)).
  - unfold segments.
    destruct (str_split_scan_cons field (get_basename filepath) 0 EmptyString)
      as (x & rest & ->).
    simpl. lia.
Qed.

Lemma segments_join_to_basename_witness :
  String.concat "--" (str_split_scan "--" 0 EmptyString (get_basename "a/b-c--d---e.txt")) =
  get_basename "a/b-c--d---e.txt".
Proof.
  apply (segments_join_to_basename "a/b-c--d---e.txt" "--"). reflexivity.
Defined.

(** ** The directives that read the file *)

Lemma length_substring_min (s : string) (n : nat) :
  String.length (substring 0 n s) = Nat.min n (String.length s).
Proof.
  revert n. induction s as [| a s IH]; intros n.
  - rewrite substring_empty. simpl. lia.
  - destruct n; simpl; [reflexivity | now rewrite IH].
Qed.

Lemma substring_beyond (s : string) (n : nat) :
  String.length s <= n -> substring 0 n s = s.
Proof.
  revert n. induction s as [| a s IH]; intros n H; [apply substring_empty |].
  destruct n; simpl in H |- *; [lia |]. rewrite IH; [reflexivity | lia].
Qed.

Lemma py_slice_first (s : string) (n : nat) :
  py_slice s 0 (Z.of_nat n) = substring 0 n s.
Proof.
  unfold py_slice, slice_bound. cbn [Z.ltb Z.compare].
  replace (Nat.min (Z.to_nat 0) (String.length s)) with 0 by lia.
  rewrite Nat.sub_0_r.
  destruct (Z.ltb_spec (Z.of_nat n) 0); [lia |].
  rewrite Nat2Z.id.
  destruct (Nat.le_gt_cases n (String.length s)) as [Hle | Hgt].
  - now rewrite Nat.min_l.
  - rewrite Nat.min_r by lia.
    now rewrite substring_whole, substring_beyond by lia.
Qed.

Lemma str_all_substring (p : ascii -> bool) (s : string) :
  str_all p s = true -> forall i n, str_all p (substring i n s) = true.
Proof.
  induction s as [| a s IH]; intros H i n.
  - now rewrite substring_empty.
  - cbn [str_all] in H. apply andb_prop in H as [Ha Hs].
    destruct i as [| i].
    + destruct n as [| n]; [reflexivity |].
      cbn [substring str_all]. now rewrite Ha, (IH Hs).
    + cbn [substring]. now apply IH.
Qed.

Lemma str_all_excludes (p : ascii -> bool) (c : ascii) (s : string) :
  p c = false -> str_all p s = true -> str_contains c s = false.
Proof.
  intros Hc. induction s as [| a s IH]; simpl; [reflexivity |].
  intros H. apply andb_prop in H as [Ha Hs].
  rewrite (IH Hs), orb_false_r.
  destruct (Ascii.eqb_spec a c) as [-> |]; [congruence | reflexivity].
Qed.

Lemma str_contains_substring (c : ascii) (s : string) :
  str_contains c s = false -> forall i n, str_contains c (substring i n s) = false.
Proof.
  induction s as [| a s IH]; intros H i n.
  - now rewrite substring_empty.
  - cbn [str_contains] in H. apply orb_false_elim in H as [Ha Hs].
    destruct i as [| i].
    + destruct n as [| n]; [reflexivity |].
      cbn [substring str_contains]. now rewrite Ha, (IH Hs).
    + cbn [substring]. now apply IH.
Qed.

Lemma get_extension_no_extsep (filepath : string) :
  str_contains os_extsep (get_extension filepath) = false.
Proof.
  destruct (basename_extension_facts filepath) as (Hdot & Hnodot & _ & _).
  destruct (str_contains os_extsep (os_path_basename filepath)) eqn:E.
  - now destruct (Hdot eq_refl).
  - destruct (Hnodot eq_refl) as [_ ->]. reflexivity.
Qed.

(** The base name and the extension of a path whose file name is
    [base.ext], for an extension without separator. *)
Lemma basename_extension_of_join (d base ext : string) :
  str_contains os_sep base = false ->
  str_contains os_sep ext = false ->
  str_contains os_extsep ext = false ->
  let result := os_path_join d (base +++ str_of_char os_extsep +++ ext) in
  os_path_basename result = base +++ str_of_char os_extsep +++ ext
  /\ get_basename result = base
  /\ get_extension result = ext.
Proof.
  intros Hb He Hx result.
  assert (Hf : str_contains os_sep (base +++ str_of_char os_extsep +++ ext) = false).
  { rewrite !str_contains_append, Hb, He. reflexivity. }
  pose proof (os_path_basename_join d _ Hf) as Hbase. fold result in Hbase.
  split; [exact Hbase |].
  pose proof (basename_extension_rcut result) as H.
  rewrite Hbase in H. cbn [str_of_char append] in H.
  rewrite (str_rcut_last _ _ _ Hx) in H. exact H.
Qed.

(** X15. The format rename.py applies when no rule is given,
    ["%H%.%E"], renames a file that can be read to the first eight
    characters of the hexadecimal digest of its content, or to all of
    the digest when it is shorter, followed by the extension separator
    and the extension of the file: the result has the directory and the
    extension of the path, and those characters as its base name. *)
Theorem default_format_renames_to_digest (w : World) (filepath digest : string) :
  str_contains NUL filepath = false ->
  sha256_hexdigest w filepath = Some digest ->
  str_all char_ishex digest = true ->
  let short := substring 0 8 digest in
  let result := os_path_join (os_path_dirname filepath)
                  (short +++ str_of_char os_extsep +++ get_extension filepath) in
  outcome (format_path w filepath FORMAT_DEFAULT) = Return result
  /\ os_path_dirname result = os_path_dirname filepath
  /\ get_basename result = short
  /\ get_extension result = get_extension filepath
  /\ String.length short = Nat.min 8 (String.length digest)
  /\ prefix short digest = true.
Proof.
  intros Hnul Hsha Hhex short result.
  assert (Hshort : str_all char_ishex short = true)
    by now apply str_all_substring.
  assert (Hs : str_contains os_sep short = false)
    by now apply (str_all_excludes char_ishex).
  destruct (basename_extension_facts filepath) as (_ & _ & _ & He).
  pose proof (get_extension_no_extsep filepath) as Hx.
  destruct (basename_extension_of_join (os_path_dirname filepath) short
              (get_extension filepath) Hs He Hx) as (Hbase & Hb & Hext).
  fold result in Hbase, Hb, Hext.
  split.
  { unfold FORMAT_DEFAULT, format_path.
    rewrite outcome_bind. simpl (outcome (parse_format_string _)). cbv iota.
    rewrite outcome_bind. cbn [format_loop].
    rewrite outcome_bind.
    assert (Hh : forall src idx,
               outcome (apply_token w filepath (mkToken "H" None src idx)) =
               Return (Some short)).
    { intros src idx. lookup_token. rewrite outcome_bind.
      unfold tok_hash_func, file_sha256, fs_path.
      rewrite Hnul, bind_ret_l, Hsha, bind_ret_l.
      change 8%Z with (Z.of_nat 8). now rewrite py_slice_first. }
    rewrite Hh. cbv iota. rewrite outcome_bind.
    lookup_token. rewrite outcome_bind. cbn [outcome tok_extsep_func ret snd].
    rewrite outcome_bind_logger. cbn [outcome ret snd]. rewrite outcome_bind.
    lookup_token. rewrite outcome_bind. cbn [outcome tok_extension_func ret snd].
    rewrite outcome_bind_logger. cbn [outcome ret snd format_loop].
    rewrite outcome_bind_logger. reflexivity. }
  split.
  { apply os_path_split_join; [apply os_path_dirname_shape |].
    rewrite !str_contains_append, Hs, He. reflexivity. }
  split; [exact Hb |]. split; [exact Hext |].
  split; [apply length_substring_min |].
  apply prefix_correct. unfold short. rewrite length_substring_min.
  destruct (Nat.le_gt_cases 8 (String.length digest)) as [Hle | Hgt].
  - now rewrite Nat.min_l.
  - rewrite Nat.min_r by lia.
    now rewrite substring_whole, substring_beyond by lia.
Qed.

Lemma default_format_renames_to_digest_witness :
  outcome (format_path example_world "dir/foo-bar-baz.gz" FORMAT_DEFAULT) =
  Return (os_path_join (os_path_dirname "dir/foo-bar-baz.gz")
            (substring 0 8 "e3b0c44298fc1c149afbf4c8996fb92427ae41e4649b934ca495991b7852b855"
             +++ str_of_char os_extsep +++ get_extension "dir/foo-bar-baz.gz")).
Proof.
  apply (default_format_renames_to_digest example_world "dir/foo-bar-baz.gz"
           "e3b0c44298fc1c149afbf4c8996fb92427ae41e4649b934ca495991b7852b855");
    reflexivity.
Defined.

(** ** The directives that cannot leave the directory *)

Lemma str_split_scan_excludes (sep : string) (c : ascii) (s : string) :
  forall skip cur,
    str_contains c cur = false -> str_contains c s = false ->
    Forall (fun x => str_contains c x = false) (str_split_scan sep skip cur s).
Proof.
  induction s as [| a r IH]; intros skip cur Hcur Hs; cbn [str_split_scan].
  - now constructor.
  - cbn [str_contains] in Hs. apply orb_false_elim in Hs as [Ha Hr].
    destruct skip as [| k]; [| now apply IH].
    destruct (prefix sep (String a r)).
    + constructor; [exact Hcur | now apply IH].
    + apply IH; [| exact Hr].
      rewrite str_contains_append, Hcur. simpl. now rewrite Ha.
Qed.

Lemma nth_excludes (c : ascii) (l : list string) (i : nat) :
  Forall (fun x => str_contains c x = false) l ->
  str_contains c (nth i l EmptyString) = false.
Proof.
  intros H. revert i. induction H as [| x l Hx _ IH]; intros [| i]; simpl; auto.
Qed.

Section NameDirectives.

Variable w : World.

Lemma tok_substr_excludes (filepath : string) (kwargs : TokenDict)
  (c : ascii) (r : string) :
  str_contains c (get_basename filepath) = false ->
  outcome (tok_substr_func filepath kwargs) = Return r ->
  str_contains c r = false.
Proof.
  unfold tok_substr_func, int_of_str. intros Hname H.
  repeat match type of H with
         | outcome (match ?x with _ => _ end) = _ => destruct x; simpl in H
         | outcome (bind _ _) = _ => rewrite outcome_bind in H; simpl in H
         | match outcome (match ?x with _ => _ end) with _ => _ end = _ =>
             destruct x; simpl in H
         | match outcome (if ?x then _ else _) with _ => _ end = _ =>
             destruct x; simpl in H
         end;
    try discriminate; injection H as <-; unfold py_slice;
    now apply str_contains_substring.
Qed.

Lemma tok_tokenize_excludes (filepath : string) (kwargs : TokenDict)
  (c : ascii) (r : string) :
  str_contains c (get_basename filepath) = false ->
  outcome (tok_tokenize_func filepath kwargs) = Return r ->
  str_contains c r = false.
Proof.
  unfold tok_tokenize_func, int_of_str. intros Hname H.
  destruct (field_value kwargs) as [fv |]; [| discriminate].
  destruct (str_contains TOK_SEPARATOR fv); [| discriminate].
  cbn [negb] in H.
  destruct (str_rsplit1 TOK_SEPARATOR fv) as [| field [| index_str [| ? ?]]];
    try discriminate.
  destruct (str_isdigit index_str); [| discriminate].
  cbn [negb] in H.
  destruct field as [| a field']; [discriminate |].
  cbn [str_split] in H. rewrite bind_ret_l in H.
  destruct (py_int index_str) as [z |]; [| discriminate].
  rewrite bind_ret_l in H.
  destruct (z - 1 <? 0)%Z; [simpl in H; now injection H as <- |].
  destruct (z - 1 >=? _)%Z; [simpl in H; now injection H as <- |].
  simpl in H. injection H as <-.
  apply nth_excludes. now apply str_split_scan_excludes.
Qed.

Lemma apply_token_separator_free (filepath : string) (d : TokenDict) (r : string) :
  separator_free (Dict d) = true ->
  outcome (apply_token w filepath d) = Return (Some r) ->
  str_contains os_sep r = false.
Proof.
  destruct (basename_extension_facts filepath) as (_ & _ & Hb & He).
  destruct d as [c fv src idx]. cbn [separator_free token].
  intros Hc. apply existsb_exists in Hc as (x & Hin & Hx).
  apply Ascii.eqb_eq in Hx. subst x. simpl in Hin.
  destruct Hin as [<- | [<- | [<- | [<- | [<- | [<- | [<- | []]]]]]]];
    lookup_token; rewrite outcome_bind.
  - simpl. now intros [= <-].
  - simpl. now intros [= <-].
  - simpl. now intros [= <-].
  - simpl. now intros [= <-].
  - unfold tok_size_func. rewrite outcome_bind.
    destruct (outcome (file_stat w filepath)) as [e | st]; [discriminate |].
    simpl. intros [= <-].
    apply decimal_excludes; [reflexivity | apply str_of_N_decimal].
  - destruct (outcome (tok_substr_func filepath _)) as [e | r'] eqn:E;
      [discriminate |].
    simpl. intros [= <-]. now apply (tok_substr_excludes filepath _ _ _ Hb E).
  - destruct (outcome (tok_tokenize_func filepath _)) as [e | r'] eqn:E;
      [discriminate |].
    simpl. intros [= <-]. now apply (tok_tokenize_excludes filepath _ _ _ Hb E).
Qed.

Lemma str_join_snoc (output : list string) (r : string) :
  str_join (output ++ [r]) = str_join output +++ r.
Proof.
  rewrite str_join_app. unfold str_join at 2. simpl. reflexivity.
Qed.

Lemma format_loop_separator_free (filepath : string) (tokens : list TokenType) :
  forallb separator_free tokens = true ->
  forall output out,
    str_contains os_sep (str_join output) = false ->
    outcome (format_loop w filepath tokens output) = Return out ->
    str_contains os_sep (str_join out) = false.
Proof.
  induction tokens as [| t ts IH]; intros Hall output out Hout H.
  - simpl in H. now injection H as <-.
  - cbn [forallb] in Hall. apply andb_prop in Hall as [Ht Hts].
    destruct t as [c | d]; cbn [format_loop] in H.
    + apply (IH Hts _ _) in H; [exact H |].
      rewrite str_join_snoc, str_contains_append, Hout.
      cbn [separator_free] in Ht. apply negb_true_iff in Ht.
      simpl. now rewrite Ht.
    + rewrite outcome_bind in H.
      destruct (outcome (apply_token w filepath d)) as [e | [r |]] eqn:E;
        [discriminate | |].
      * apply (IH Hts _ _) in H; [exact H |].
        rewrite str_join_snoc, str_contains_append, Hout.
        now rewrite (apply_token_separator_free filepath d r Ht E).
      * now apply (IH Hts _ _) in H.
Qed.

End NameDirectives.

(** X16. The directives [%], [.], [B], [E], [S], [C] and [T] yield no
    directory separator: what [B], [E], [C] and [T] return is cut from
    the base name, and [S] returns digits. So a format string made of
    these directives and of characters other than the separator, when
    it formats a path, gives a result in the directory of the path,
    with the fragment as its file name. *)
Theorem name_directives_keep_directory (w : World)
  (filepath format_string : string) (tokens : list TokenType) (result : string) :
  outcome (parse_format_string format_string) = Return tokens ->
  forallb separator_free tokens = true ->
  outcome (format_path w filepath format_string) = Return result ->
  (forall d r, In (Dict d) tokens ->
     outcome (apply_token w filepath d) = Return (Some r) ->
     str_contains os_sep r = false)
  /\ os_path_dirname result = os_path_dirname filepath
  /\ str_contains os_sep (os_path_basename result) = false
  /\ fragment w filepath format_string = Return (os_path_basename result).
Proof.
  intros Hparse Hall H.
  split.
  { intros d r Hin. apply apply_token_separator_free.
    rewrite forallb_forall in Hall. now apply Hall. }
  rewrite (format_path_outcome w filepath _ _ Hparse) in H.
  destruct (outcome (format_loop w filepath tokens [])) as [e | out] eqn:L;
    [discriminate |].
  injection H as <-.
  pose proof (format_loop_separator_free w filepath tokens Hall [] out eq_refl L)
    as Hfree.
  destruct (os_path_split_join (os_path_dirname filepath) (str_join out)
              (os_path_dirname_shape filepath) Hfree) as [Hd Hb].
  split; [exact Hd |]. rewrite Hb. split; [exact Hfree |].
  unfold fragment. now rewrite Hparse, L.
Qed.

Lemma name_directives_keep_directory_witness :
  os_path_dirname "dir/bar_32.gz" = os_path_dirname "dir/foo-bar-baz.gz".
Proof.
  apply (name_directives_keep_directory example_world "dir/foo-bar-baz.gz"
           "%(-=2)T_%S%.%E"
           [Dict (mkToken "T" (Some "-=2") "%(-=2)T_%S%.%E" 6); Str "_";
            Dict (mkToken "S" None "%(-=2)T_%S%.%E" 9);
            Dict (mkToken "." None "%(-=2)T_%S%.%E" 11);
            Dict (mkToken "E" None "%(-=2)T_%S%.%E" 13)]
           "dir/bar_32.gz"); reflexivity.
Defined.

(** ** The argument check of the decorator *)

(** X17. [_verify_args] accepts an exact count only when the count is
    that number, and a pair of bounds when the count lies between them,
    a bound of [None] bounding nothing; with [nargs] of [None] it accepts
    every count. What it raises is [ValueError], and the wrapper then
    does not run the token function. *)
Theorem verify_args_bounds (count : nat) :
  (forall n, outcome (_verify_args (NargsInt n) count) = Return tt <-> count = n)
  /\ (forall argmin argmax,
        outcome (_verify_args (NargsRange argmin argmax) count) = Return tt <->
        (forall a, argmin = Some a -> a <= count)
        /\ (forall b, argmax = Some b -> count <= b))
  /\ _verify_args NargsNone count = ret tt
  /\ (forall nargs e, outcome (_verify_args nargs count) = Raise e -> e = ValueError)
  /\ (forall nargs func filepath kwargs,
        outcome (_verify_args nargs 1) <> Return tt ->
        _token_wrapper nargs func filepath kwargs = raise ValueError).
Proof.
  split; [| split; [| split; [reflexivity | split]]].
  - intros n. unfold _verify_args.
    destruct (Nat.eqb_spec count n); simpl; split; congruence.
  - intros argmin argmax. unfold _verify_args.
    set (lo := match argmin with Some a => a | None => count end).
    set (hi := match argmax with Some a => a | None => count end).
    assert (Hlo : (forall a, argmin = Some a -> a <= count) <-> lo <= count).
    { unfold lo. destruct argmin as [a |]; split; intros H.
      - now apply H.
      - now intros a' [= <-].
      - lia.
      - discriminate. }
    assert (Hhi : (forall b, argmax = Some b -> count <= b) <-> count <= hi).
    { unfold hi. destruct argmax as [b |]; split; intros H.
      - now apply H.
      - now intros b' [= <-].
      - lia.
      - discriminate. }
    rewrite Hlo, Hhi.
    destruct (Nat.ltb_spec count lo), (Nat.ltb_spec hi count); simpl; split;
      try discriminate; try reflexivity; intros; lia.
  - intros nargs e. unfold _verify_args.
    destruct nargs as [| n | argmin argmax]; simpl; try discriminate.
    + destruct (Nat.eqb count n); simpl; [discriminate | now intros [= <-]].
    + destruct (_ || _); simpl; [now intros [= <-] | discriminate].
  - intros nargs func filepath kwargs H. unfold _token_wrapper.
    assert (Hc : _verify_args nargs 1 = ret tt
                 \/ _verify_args nargs 1 = raise ValueError).
    { unfold _verify_args. destruct nargs as [| n | argmin argmax].
      - now left.
      - destruct (Nat.eqb 1 n); auto.
      - destruct (_ || _); auto. }
    destruct Hc as [Hc | Hc]; rewrite Hc in *; [now destruct H | reflexivity].
Qed.

(** ** Whom an error names *)

Section Subjects.

Variable w : World.

Lemma tok_substr_raises (filepath : string) (kwargs : TokenDict) (e : PyExc) :
  outcome (tok_substr_func filepath kwargs) = Raise e -> apply_error_for filepath e.
Proof.
  unfold tok_substr_func, int_of_str. intros H.
  repeat match type of H with
         | outcome (match ?x with _ => _ end) = _ => destruct x; simpl in H
         | outcome (bind _ _) = _ => rewrite outcome_bind in H; simpl in H
         | match outcome (match ?x with _ => _ end) with _ => _ end = _ =>
             destruct x; simpl in H
         | match outcome (if ?x then _ else _) with _ => _ end = _ =>
             destruct x; simpl in H
         end;
    try discriminate; injection H as <-; simpl; auto.
Qed.

Lemma tok_tokenize_raises (filepath : string) (kwargs : TokenDict) (e : PyExc) :
  outcome (tok_tokenize_func filepath kwargs) = Raise e -> apply_error_for filepath e.
Proof.
  unfold tok_tokenize_func, int_of_str. intros H.
  repeat match type of H with
         | outcome (match ?x with _ => _ end) = _ => destruct x; simpl in H
         | outcome (bind _ _) = _ => rewrite outcome_bind in H; simpl in H
         | match outcome (match ?x with _ => _ end) with _ => _ end = _ =>
             destruct x; simpl in H
         | match outcome (if ?x then _ else _) with _ => _ end = _ =>
             destruct x; simpl in H
         | match (if ?x then _ else _) with _ => _ end = _ =>
             destruct x; simpl in H
         end;
    try discriminate; injection H as <-; simpl; auto.
Qed.

Lemma token_func_raises (c : ascii) (func : TokenFunc) (filepath : string)
  (kwargs : TokenDict) (e : PyExc) :
  TOKENS_get w c = Some func ->
  outcome (func filepath kwargs) = Raise e -> apply_error_for filepath e.
Proof.
  unfold TOKENS_get. cbn [TOKENS find fst snd].
  repeat match goal with
         | |- context [Ascii.eqb ?a c] => destruct (Ascii.eqb a c)
         end;
    cbn [option_map snd]; intros [= <-]; try discriminate.
  - unfold tok_hash_func, file_sha256, fs_path.
    destruct (str_contains NUL filepath); simpl; [now intros [= <-] |].
    destruct (sha256_hexdigest w filepath); simpl; [discriminate |].
    now intros [= <-].
  - unfold tok_size_func, file_stat, fs_path.
    destruct (str_contains NUL filepath); simpl; [now intros [= <-] |].
    destruct (os_stat w filepath); simpl; [discriminate |].
    now intros [= <-].
  - apply tok_substr_raises.
  - apply tok_tokenize_raises.
  - unfold tok_upper_func, tok_tokenize. rewrite wrapper_passes by auto.
    rewrite outcome_bind.
    destruct (outcome (tok_tokenize_func filepath kwargs)) eqn:E; [| discriminate].
    intros [= <-]. now apply tok_tokenize_raises with kwargs.
  - unfold tok_lower_func, tok_tokenize. rewrite wrapper_passes by auto.
    rewrite outcome_bind.
    destruct (outcome (tok_tokenize_func filepath kwargs)) eqn:E; [| discriminate].
    intros [= <-]. now apply tok_tokenize_raises with kwargs.
  - unfold tok_modtime_func, file_stat, fs_path.
    destruct (field_value kwargs); [| now intros [= <-]].
    destruct (str_contains NUL filepath); simpl; [now intros [= <-] |].
    destruct (os_stat w filepath) as [st |]; simpl; [| now intros [= <-]].
    destruct (strftime w (st_mtime st) s) as [[] | formatted]; simpl;
      [now intros [= <-] .. | discriminate].
Qed.

Lemma format_loop_raises_for (filepath : string) (tokens : list TokenType) :
  forall output e,
    outcome (format_loop w filepath tokens output) = Raise e ->
    apply_error_for filepath e.
Proof.
  induction tokens as [| t ts IH]; intros output e H; [discriminate |].
  destruct t as [c | d]; cbn [format_loop] in H; [now apply IH in H |].
  rewrite outcome_bind in H.
  destruct (outcome (apply_token w filepath d)) as [e' | [r |]] eqn:E;
    [| now apply IH in H | now apply IH in H].
  injection H as <-. unfold apply_token in E.
  destruct (TOKENS_get w (token d)) as [func |] eqn:G; [| discriminate].
  rewrite outcome_bind in E.
  destruct (outcome (func filepath d)) eqn:F; [| discriminate].
  injection E as <-. now apply token_func_raises with (token d) func d.
Qed.

End Subjects.

(** X18. An error of the engine that [format_path] raises names its own
    input: a [FormatParseError] carries the format string and an index
    that is at most its length, a [FormatApplyError] carries the path
    being formatted. *)
Theorem format_path_error_names_input (w : World)
  (filepath format_string : string) (e : PyExc) :
  outcome (format_path w filepath format_string) = Raise e ->
  names_its_subject filepath format_string e.
Proof.
  intros H. unfold format_path in H. rewrite outcome_bind in H.
  destruct (outcome (parse_format_string format_string)) as [e' | tokens] eqn:P.
  - injection H as <-.
    destruct (parse_loop_raises _ _ _ _ _ P) as (i & m & -> & Hi).
    now split.
  - rewrite outcome_bind in H.
    destruct (outcome (format_loop w filepath tokens [])) as [e' | out] eqn:L.
    + injection H as <-. apply format_loop_raises_for in L.
      destruct e'; simpl in *; auto; contradiction.
    + rewrite outcome_bind_logger in H. discriminate.
Qed.

Lemma format_path_error_names_input_witness :
  names_its_subject "dir/foo.txt" "%B-%(x)C"
    (FormatApplyError "dir/foo.txt" (MissingSeparator "x" ",")).
Proof.
  apply (format_path_error_names_input example_world "dir/foo.txt" "%B-%(x)C").
  reflexivity.
Defined.

(** ** Slices that meet, and the empty fragment *)

Lemma fragment_substr (w : World) (filepath begin_str end_str : string) :
  slice_bound_text begin_str = true ->
  slice_bound_text end_str = true ->
  fragment w filepath
    ("%(" +++ (begin_str +++ "," +++ end_str) +++ ")" +++ str_of_char "C") =
  Return (py_slice (get_basename filepath)
            (value_or 0 begin_str)
            (value_or (Z.of_nat (String.length (get_basename filepath))) end_str)).
Proof.
  intros Hb He.
  assert (Hparen : str_contains ")" (begin_str +++ "," +++ end_str) = false).
  { destruct (slice_bound_text_spec begin_str 0 Hb) as [Hxb _].
    destruct (slice_bound_text_spec end_str 0 He) as [Hxe _].
    rewrite !str_contains_append, Hxb, Hxe by reflexivity. reflexivity. }
  unfold fragment. rewrite (parse_single_argument "C" _ Hparen).
  cbn [format_loop]. rewrite outcome_bind.
  lookup_token. rewrite outcome_bind.
  rewrite (tok_substr_well_formed filepath begin_str end_str "C" _ _ Hb He).
  reflexivity.
Qed.

Lemma py_slice_split (s : string) (z : Z) :
  py_slice s 0 z +++ py_slice s z (Z.of_nat (String.length s)) = s.
Proof.
  unfold py_slice.
  rewrite (slice_bound_in_range _ 0) by lia.
  rewrite (slice_bound_in_range _ (Z.of_nat (String.length s))) by lia.
  rewrite Nat2Z.id. change (Z.to_nat 0) with 0. rewrite Nat.sub_0_r.
  assert (Hb : slice_bound (String.length s) z <= String.length s).
  { unfold slice_bound. destruct (Z.ltb_spec z 0); lia. }
  symmetry. now apply string_split_at.
Qed.

(** X19. For every integer [k] whose decimal [int] reads, of at most
    [int_max_str_digits] characters, the slice up to [k] followed by the
    slice from [k] is the base name: ["%(,k)C%(k,)C"] formats a path to
    its directory joined with its base name, whether [k] is negative or
    out of range. *)
Theorem slices_meet_at_any_bound (w : World) (filepath : string) (k : Z) :
  String.length (str_of_Z k) <= int_max_str_digits ->
  py_slice (get_basename filepath) 0 k
  +++ py_slice (get_basename filepath) k
        (Z.of_nat (String.length (get_basename filepath))) =
  get_basename filepath
  /\ fragment w filepath (("%(," +++ str_of_Z k +++ ")C") +++ ("%(" +++ str_of_Z k +++ ",)C")) =
     Return (get_basename filepath)
  /\ outcome (format_path w filepath
                (("%(," +++ str_of_Z k +++ ")C") +++ ("%(" +++ str_of_Z k +++ ",)C"))) =
     Return (os_path_join (os_path_dirname filepath) (get_basename filepath)).
Proof.
  intros Hk.
  destruct (str_of_Z_literal k Hk) as [Hlit Hval].
  assert (Hbound : slice_bound_text (str_of_Z k) = true)
    by (unfold slice_bound_text; now rewrite Hlit, orb_true_r).
  assert (Hvalue : forall default, value_or default (str_of_Z k) = k)
    by (intros default; unfold value_or; now rewrite Hval).
  pose proof (py_slice_split (get_basename filepath) k) as Hsplit.
  assert (Hfrag : fragment w filepath
                    (("%(," +++ str_of_Z k +++ ")C") +++ ("%(" +++ str_of_Z k +++ ",)C")) =
                  Return (get_basename filepath)).
  { rewrite <- Hsplit at 1. apply fragment_app.
    - pose proof (fragment_substr w filepath EmptyString (str_of_Z k) eq_refl Hbound) as H.
      rewrite Hvalue in H. exact H.
    - pose proof (fragment_substr w filepath (str_of_Z k) EmptyString Hbound eq_refl) as H.
      rewrite Hvalue in H.
      replace ("%(" +++ (str_of_Z k +++ "," +++ EmptyString) +++ ")" +++ str_of_char "C")
        with ("%(" +++ str_of_Z k +++ ",)C") in H; [exact H |].
      simpl. now rewrite !append_assoc. }
  split; [exact Hsplit |]. split; [exact Hfrag |].
  now rewrite format_path_fragment, Hfrag.
Qed.

Lemma slices_meet_at_any_bound_witness :
  outcome (format_path example_world "dir/foobar.txt"
             (("%(," +++ str_of_Z (-2) +++ ")C") +++ ("%(" +++ str_of_Z (-2) +++ ",)C"))) =
  Return (os_path_join (os_path_dirname "dir/foobar.txt") (get_basename "dir/foobar.txt")).
Proof.
  apply (slices_meet_at_any_bound example_world "dir/foobar.txt" (-2)).
  unfold int_max_str_digits. simpl. lia.
Defined.

(** X20. When the fragment a format string evaluates to is empty, as
    for the empty format string, [format_path] returns the directory of
    the path with an empty file name: the result has the directory of
    the path, and it is the empty string only when the path has no
    directory. *)
Theorem empty_fragment_keeps_directory (w : World)
  (filepath format_string : string) :
  fragment w filepath format_string = Return EmptyString ->
  exists result,
    outcome (format_path w filepath format_string) = Return result
    /\ os_path_dirname result = os_path_dirname filepath
    /\ os_path_basename result = EmptyString
    /\ (result = EmptyString <-> os_path_dirname filepath = EmptyString).
Proof.
  intros H. rewrite format_path_fragment, H.
  eexists. split; [reflexivity |].
  destruct (os_path_split_join (os_path_dirname filepath) EmptyString
              (os_path_dirname_shape filepath) eq_refl) as [Hd Hb].
  split; [exact Hd |]. split; [exact Hb |].
  split.
  - intros E. rewrite E in Hd. now rewrite <- Hd.
  - intros E. now rewrite E.
Qed.

Lemma empty_fragment_keeps_directory_witness :
  exists result,
    outcome (format_path example_world "dir/foo.txt" "%(,0)C") = Return result
    /\ os_path_dirname result = os_path_dirname "dir/foo.txt"
    /\ os_path_basename result = EmptyString
    /\ (result = EmptyString <-> os_path_dirname "dir/foo.txt" = EmptyString).
Proof.
  apply (empty_fragment_keeps_directory example_world "dir/foo.txt" "%(,0)C").
  reflexivity.
Defined.

(** ** Where the diagnostics come from *)

Lemma logged_bind {A B : Type} (m : M A) (k : A -> M B) :
  logged (bind m k) =
  logged m ++ match outcome m with
              | Raise _ => []
              | Return a => logged (k a)
              end.
Proof.
  destruct m as [l [e | a]]; simpl; [now rewrite List.app_nil_r |].
  now destruct (k a).
Qed.

Lemma logged_bind_logger {B : Type} lvl template arguments (k : unit -> M B) :
  logged (bind (logger lvl template arguments) k) =
  mkLog lvl template arguments :: logged (k tt).
Proof.
  unfold bind, logger. now destruct (k tt).
Qed.

Lemma _consume_logs_nothing (fs : string) (index : nat) :
  logged (_consume fs index) = [].
Proof.
  unfold _consume, _next_char, _consume_until.
  destruct (get (index + 1) fs) as [c |]; [| reflexivity].
  rewrite bind_ret_l. destruct (Ascii.eqb c "("); [| reflexivity].
  destruct (_consume_until_loop _ fs _ _ _) as [[a k] |]; [| reflexivity].
  rewrite bind_ret_l.
  destruct (get (k + 1) fs); reflexivity.
Qed.

Lemma parse_loop_logs (fs : string) (fuel : nat) :
  forall index tokens record,
    In record (logged (parse_loop fuel fs index tokens)) ->
    levelname record = TRACE.
Proof.
  induction fuel as [| f IH]; intros index tokens record H; [contradiction |].
  cbn [parse_loop] in H.
  destruct (get index fs) as [c |]; [| contradiction].
  rewrite logged_bind_logger in H. destruct H as [<- | H]; [reflexivity |].
  destruct (Ascii.eqb c TOK_SPECIAL); [| now apply IH in H].
  rewrite logged_bind, _consume_logs_nothing in H. cbn [app] in H.
  destruct (outcome (_consume fs index)) as [e | [[code j] fv]]; [contradiction |].
  rewrite logged_bind_logger in H. destruct H as [<- | H]; [reflexivity |].
  now apply IH in H.
Qed.

Lemma tok_tokenize_logs (filepath : string) (kwargs : TokenDict)
  (record : LogRecord) :
  In record (logged (tok_tokenize_func filepath kwargs)) ->
  levelname record = WARNING.
Proof.
  unfold tok_tokenize_func, int_of_str.
  destruct (field_value kwargs) as [fv |]; [| contradiction].
  destruct (str_contains TOK_SEPARATOR fv); [| contradiction].
  cbn [negb].
  destruct (str_rsplit1 TOK_SEPARATOR fv) as [| field [| index_str [| ? ?]]];
    try contradiction.
  destruct (str_isdigit index_str); [| contradiction].
  cbn [negb].
  destruct (str_split field (get_basename filepath)); [| contradiction].
  rewrite bind_ret_l.
  destruct (py_int index_str) as [z |]; [| contradiction].
  rewrite bind_ret_l.
  destruct (z - 1 <? 0)%Z; [simpl; intuition (subst; reflexivity) |].
  destruct (z - 1 >=? _)%Z; simpl; intuition (subst; reflexivity).
Qed.

Lemma token_func_logs (w : World) (c : ascii) (func : TokenFunc)
  (filepath : string) (kwargs : TokenDict) (record : LogRecord) :
  TOKENS_get w c = Some func ->
  In record (logged (func filepath kwargs)) ->
  levelname record = WARNING /\ In c ["T"; "U"; "L"]%char.
Proof.
  unfold TOKENS_get. cbn [TOKENS find fst snd].
  repeat match goal with
         | |- context [Ascii.eqb ?a c] => destruct (Ascii.eqb_spec a c) as [<- | ?]
         end;
    cbn [option_map snd]; intros [= <-]; try contradiction.
  - unfold tok_hash_func, file_sha256, fs_path.
    destruct (str_contains NUL filepath); simpl; [tauto |].
    now destruct (sha256_hexdigest w filepath).
  - unfold tok_size_func, file_stat, fs_path.
    destruct (str_contains NUL filepath); simpl; [tauto |].
    now destruct (os_stat w filepath).
  - unfold tok_substr_func, int_of_str.
    repeat match goal with
           | |- In _ (logged (match ?x with _ => _ end)) -> _ => destruct x
           | |- In _ (logged (bind (match ?x with _ => _ end) _)) -> _ => destruct x
           | |- In _ (logged (bind (if ?x then _ else _) _)) -> _ => destruct x
           | |- In _ (logged (bind (ret _) _)) -> _ => rewrite bind_ret_l
           end; try contradiction.
  - intros H. split; [now apply tok_tokenize_logs in H | simpl; tauto].
  - unfold tok_upper_func, tok_tokenize. rewrite wrapper_passes by auto.
    rewrite logged_bind. intros H. split; [| simpl; tauto].
    apply in_app_or in H as [H | H].
    + now apply tok_tokenize_logs in H.
    + now destruct (outcome (tok_tokenize_func filepath kwargs)).
  - unfold tok_lower_func, tok_tokenize. rewrite wrapper_passes by auto.
    rewrite logged_bind. intros H. split; [| simpl; tauto].
    apply in_app_or in H as [H | H].
    + now apply tok_tokenize_logs in H.
    + now destruct (outcome (tok_tokenize_func filepath kwargs)).
  - unfold tok_modtime_func, file_stat, fs_path.
    destruct (field_value kwargs) as [pattern |]; [| contradiction].
    destruct (str_contains NUL filepath); simpl; [tauto |].
    destruct (os_stat w filepath) as [st |]; simpl; [| tauto].
    now destruct (strftime w (st_mtime st) pattern) as [[] |].
Qed.

Lemma format_loop_records (w : World) (filepath : string)
  (tokens : list TokenType) :
  forall output record,
    In record (logged (format_loop w filepath tokens output)) ->
    (levelname record = ERROR ->
       exists d, In (Dict d) tokens
                 /\ TOKENS_get w (token d) = None
                 /\ record = invalid_token_record d)
    /\ (levelname record = WARNING ->
          exists d, In (Dict d) tokens /\ In (token d) ["T"; "U"; "L"]%char).
Proof.
  induction tokens as [| t ts IH]; intros output record H; [contradiction |].
  assert (Hrest : forall out,
             In record (logged (format_loop w filepath ts out)) ->
             (levelname record = ERROR ->
                exists d, In (Dict d) (t :: ts)
                          /\ TOKENS_get w (token d) = None
                          /\ record = invalid_token_record d)
             /\ (levelname record = WARNING ->
                   exists d, In (Dict d) (t :: ts)
                             /\ In (token d) ["T"; "U"; "L"]%char)).
  { intros out Hin. destruct (IH _ _ Hin) as [He Hw]. split; intros Hlvl.
    - destruct (He Hlvl) as (d & Hd & Hrec). exists d. split; [now right | exact Hrec].
    - destruct (Hw Hlvl) as (d & Hd & Hc). exists d. split; [now right | exact Hc]. }
  destruct t as [c | d]; cbn [format_loop] in H; [now apply Hrest in H |].
  rewrite logged_bind in H. apply in_app_or in H as [H | H].
  - unfold apply_token in H.
    destruct (TOKENS_get w (token d)) as [func |] eqn:G.
    + rewrite logged_bind in H. apply in_app_or in H as [H | H].
      * destruct (token_func_logs w _ _ _ _ _ G H) as [Hlvl Hc].
        split; intros Hl; [congruence |]. exists d. split; [now left | exact Hc].
      * destruct (outcome (func filepath d)); [contradiction |].
        simpl in H. destruct H as [<- | []]. split; discriminate.
    + simpl in H. destruct H as [<- | []].
      split; [| discriminate]. intros _.
      exists d. split; [now left | now split].
  - destruct (outcome (apply_token w filepath d)) as [e | [r |]];
      [contradiction | now apply Hrest in H | now apply Hrest in H].
Qed.

(** X21. Every error-level record [format_path] logs is the record of
    a directive of the format string whose character is not in [TOKENS],
    and every warning-level record comes from a [T], [U] or [L]
    directive of the format string. The parser logs at trace level
    only. *)
Theorem error_records_come_from_unknown_directives (w : World)
  (filepath format_string : string) (record : LogRecord) :
  In record (logged (format_path w filepath format_string)) ->
  (levelname record = ERROR ->
     exists tokens d,
       outcome (parse_format_string format_string) = Return tokens
       /\ In (Dict d) tokens
       /\ TOKENS_get w (token d) = None
       /\ record = invalid_token_record d)
  /\ (levelname record = WARNING ->
        exists tokens d,
          outcome (parse_format_string format_string) = Return tokens
          /\ In (Dict d) tokens
          /\ In (token d) ["T"; "U"; "L"]%char)
  /\ (In record (logged (parse_format_string format_string)) ->
      levelname record = TRACE).
Proof.
  intros H. split; [| split; [| apply parse_loop_logs]];
    intros Hlvl; unfold format_path in H;
    rewrite logged_bind in H; apply in_app_or in H as [H | H];
    try (apply parse_loop_logs in H; congruence);
    (destruct (outcome (parse_format_string format_string)) as [| tokens] eqn:P;
      [contradiction |]);
    rewrite logged_bind in H; apply in_app_or in H as [H | H];
    try (destruct (outcome (format_loop w filepath tokens [])); [contradiction |];
         simpl in H; destruct H as [<- | []]; discriminate);
    destruct (format_loop_records w filepath tokens [] record H) as [He Hw].
  - destruct (He Hlvl) as (d & Hd). now exists tokens, d.
  - destruct (Hw Hlvl) as (d & Hd). now exists tokens, d.
Qed.

Lemma error_records_come_from_unknown_directives_witness :
  exists tokens d,
    outcome (parse_format_string "a%Zb") = Return tokens
    /\ In (Dict d) tokens
    /\ TOKENS_get example_world (token d) = None
    /\ invalid_token_record (mkToken "Z" None "a%Zb" 2) = invalid_token_record d.
Proof.
  apply (error_records_come_from_unknown_directives example_world "foo.txt" "a%Zb").
  - simpl. tauto.
  - reflexivity.
Defined.
